(** * The workflow rule engine of [services/workflowExecutor.ts]

    A shallow embedding of the evaluation engine ([WorkflowExecutor]), of
    the graph validator ([validateWorkflow]) and of their callers
    ([simulateWorkflow] of the application and [handleRun] of the test
    editor), followed by the properties the specification states about them
    and by further properties of the code.

    The engine is dynamically typed: a node's [data] is [any], an event comes
    out of a YAML parser.  Values are therefore modelled as JavaScript data
    (the [null], the booleans, numbers, strings, sequences and mappings that
    a JSON or YAML document denotes); property reads and the conversions to
    a string and to a number can raise a [TypeError], and code that can
    raise lives in an error monad.  A dotted path is walked through
    the prototype chain, and so can leave the data for the built-in objects
    every value inherits from.  The built-ins whose definition is the host's
    (number parsing and printing, case mapping, trimming, the
    regular-expression engine, the built-in objects) are the fields of the
    class [JSHost]; every theorem holds for every host.  A number is a
    binary64 float, a string a sequence of code units.

    The executor is a state machine over its three mutable fields ([logs],
    [executedNodes], [nodeConditions]); its methods are functions from a state
    to an outcome and a state.  [await] and the pauses between actions order
    the steps and do nothing else, so a method is modelled by the sequence of
    its steps.  The wall clock, read for the id and the timestamp of every log
    entry, is a parameter of the run. *)

From Stdlib Require Import ZArith List Bool Ascii String Lia.
From Stdlib Require Import Floats DecimalString.
From stdpp Require Import base strings gmap.

Import ListNotations.
Local Open Scope string_scope.
Local Arguments String.append !_ _ / : simpl nomatch.

(* ===================================================================== *)
(** ** JavaScript values *)
(* ===================================================================== *)

Module JS.

(** A number is an IEEE 754 binary64 float, as in the language. *)
Definition number : Type := float.

(** An object is the list of its own properties, in order; an array the list
    of its elements.  Two structures built separately are never the same
    reference, and the engine only ever compares a value of the event with a
    value of a node's configuration. *)
#[warnings="-register-all"]
Inductive value : Type :=
| VUndefined
| VNull
| VBool (b : bool)
| VNumber (n : number)
| VString (s : string)
| VArray (items : list value)
| VObject (props : list (string * value)).

Definition props : Type := list (string * value).

(** What a [throw] carries. *)
Inductive exn : Type :=
| TypeError (msg : string)
| SyntaxError (msg : string).

(** [String(error)] of a caught error. *)
Definition exn_to_string (e : exn) : string :=
  match e with
  | TypeError msg => "TypeError: " ++ msg
  | SyntaxError msg => "SyntaxError: " ++ msg
  end.

(** A computation that returns or throws. *)
Inductive result (A : Type) : Type :=
| Ok (a : A)
| Throw (e : exn).
Arguments Ok {A} a.
Arguments Throw {A} e.

Definition bind {A B} (m : result A) (k : A -> result B) : result B :=
  match m with
  | Ok a => k a
  | Throw e => Throw e
  end.

(** [try { m } catch { handler }] *)
Definition try_catch {A} (m : result A) (handler : exn -> result A) : result A :=
  match m with
  | Ok a => Ok a
  | Throw e => handler e
  end.

(** [xs.map(f)] where [f] may throw: elements are visited in order. *)
Fixpoint mapM {A B} (f : A -> result B) (xs : list A) : result (list B) :=
  match xs with
  | [] => Ok []
  | x :: rest =>
      bind (f x) (fun y => bind (mapM f rest) (fun ys => Ok (y :: ys)))
  end.

(** A value after ToPrimitive. *)
Inductive prim : Type :=
| PUndefined
| PNull
| PBool (b : bool)
| PNumber (n : number)
| PString (s : string).

(** What a property read can come to: a value of the data, or one of the
    objects every value inherits from or leads to, a built-in function or a
    prototype, which the host names.  Data hold no such object: a
    configuration is parsed from JSON, an event from YAML. *)
Inductive reached : Type :=
| Data (v : value)
| Builtin (name : string).

Coercion Data : value >-> reached.

(** The kinds of value that have a prototype. *)
Inductive kind : Type :=
| KBoolean
| KNumber
| KString
| KArray
| KObject.

(** What a conversion to a primitive is asked for: [String(v)] asks for a
    string, [Number(v)] for a number; [==] states no preference, which every
    object met here reads as a number. *)
Inductive hint : Type :=
| HString
| HNumber.

(** The built-ins of the host. *)
Class JSHost : Type := {
  (** [Number(s)] on a string: the StringToNumber grammar. *)
  string_to_number : string -> number;
  (** [String(n)] on a number. *)
  number_to_string : number -> string;
  (** [s.toLowerCase()] *)
  toLowerCase : string -> string;
  (** [s.trim()] *)
  trim : string -> string;
  (** [new RegExp(pattern).test(subject)]; [None] when the constructor
      rejects the pattern with a SyntaxError. *)
  regexp_test : string -> string -> option bool;
  (** The built-in object a value of the kind inherits under the name [k]
      from its prototype chain, if it inherits one: a method such as
      [toString], the [constructor], the prototype itself under
      [__proto__]. *)
  inherited : kind -> string -> option string;
  (** [b[k]] on a built-in object, which can throw: [caller] does on a
      built-in function. *)
  builtin_get : string -> string -> result reached;
  (** ToPrimitive on a built-in object. *)
  builtin_to_primitive : hint -> string -> result prim;
}.

(** *** Strings *)

Definition nat_to_string (n : nat) : string :=
  NilZero.string_of_uint (Nat.to_uint n).

Definition Z_to_string (z : Z) : string :=
  NilZero.string_of_int (Z.to_int z).

(** [hay.includes(needle)] *)
Fixpoint includes (hay needle : string) : bool :=
  String.prefix needle hay ||
  match hay with
  | EmptyString => false
  | String _ rest => includes rest needle
  end.

(** [s.split(sep)] for a one-character separator: never empty. *)
Fixpoint split (sep : ascii) (s : string) : list string :=
  match s with
  | EmptyString => [""]
  | String c rest =>
      if Ascii.eqb c sep then "" :: split sep rest
      else match split sep rest with
           | [] => [String c ""]
           | w :: ws => String c w :: ws
           end
  end.

(** [s.replace(/\*/g, ".*")] *)
Fixpoint replace_stars (s : string) : string :=
  match s with
  | EmptyString => ""
  | String c rest =>
      if Ascii.eqb c "*" then String "." (String "*" (replace_stars rest))
      else String c (replace_stars rest)
  end.

(** [parts.join(sep)] *)
Definition join (sep : string) (parts : list string) : string :=
  String.concat sep parts.

(** *** Numbers *)

Definition number_of_nat (n : nat) : number :=
  PrimFloat.of_uint63 (Uint63.of_Z (Z.of_nat n)).

Definition number_of_bool (b : bool) : number :=
  if b then PrimFloat.one else PrimFloat.zero.

(** [isNaN(n)] on a number *)
Definition isNaN (n : number) : bool := PrimFloat.is_nan n.

(** *** Properties *)

(** The property named [k].  A key listed twice is one property, with the
    value listed last, as in an object literal. *)
Fixpoint lookup_prop (k : string) (ps : props) : option value :=
  match ps with
  | [] => None
  | (k', v) :: rest =>
      match lookup_prop k rest with
      | Some x => Some x
      | None => if String.eqb k' k then Some v else None
      end
  end.

(** [o[k] = v]: an existing property keeps its place, a new one goes last. *)
Fixpoint set_prop (k : string) (v : value) (ps : props) : props :=
  match ps with
  | [] => [(k, v)]
  | (k', v') :: rest =>
      match lookup_prop k rest with
      | Some _ => (k', v') :: set_prop k v rest
      | None =>
          if String.eqb k' k then (k, v) :: rest
          else (k', v') :: set_prop k v rest
      end
  end.

(** The index, below [n], that the key [k] spells. *)
Definition index_of_key (k : string) (n : nat) : option nat :=
  List.find (fun i => String.eqb (nat_to_string i) k) (seq 0 n).

Definition indexed {A} (f : A -> value) (xs : list A) : props :=
  List.map (fun '(i, x) => (nat_to_string i, f x))
           (List.combine (seq 0 (List.length xs)) xs).

(** The own enumerable properties that [{...v}] copies. *)
Definition own_props (v : value) : props :=
  match v with
  | VUndefined | VNull | VBool _ | VNumber _ => []
  | VString s =>
      indexed (fun c => VString (String c "")) (list_ascii_of_string s)
  | VArray items => indexed (fun x => x) items
  | VObject ps => ps
  end.

(** [{...target, ...source}]: [source] overrides on a shared key. *)
Definition assign (target source : props) : props :=
  List.fold_left (fun acc '(k, v) => set_prop k v acc) source target.

(** [v.k] for the names the engine itself reads: [field], [operator],
    [value], [logic], [conditions], [eventType], [name], [priority], [mode],
    [actions], [type], [label], [details], [params] and [length].  No
    built-in prototype defines a property of one of these names that the
    value does not have itself, so the property read is the value's own, or
    it is [undefined]; reading a property of [null] or [undefined]
    throws. *)
Definition get (v : value) (k : string) : result value :=
  match v with
  | VUndefined =>
      Throw (TypeError ("Cannot read properties of undefined (reading '" ++ k ++ "')"))
  | VNull =>
      Throw (TypeError ("Cannot read properties of null (reading '" ++ k ++ "')"))
  | VBool _ | VNumber _ => Ok VUndefined
  | VString s =>
      if String.eqb k "length" then Ok (VNumber (number_of_nat (String.length s)))
      else Ok (match index_of_key k (String.length s) with
               | Some i => VString (String.substring i 1 s)
               | None => VUndefined
               end)
  | VArray items =>
      if String.eqb k "length" then Ok (VNumber (number_of_nat (List.length items)))
      else Ok (match index_of_key k (List.length items) with
               | Some i => List.nth i items VUndefined
               | None => VUndefined
               end)
  | VObject ps =>
      Ok (match lookup_prop k ps with
          | Some x => x
          | None => VUndefined
          end)
  end.

(** The property named [k] that a value has itself, if it has one: the
    [length] and the indices of a string and of an array, the properties of
    an object. *)
Definition own_property (v : value) (k : string) : option value :=
  match v with
  | VUndefined | VNull | VBool _ | VNumber _ => None
  | VString s =>
      if String.eqb k "length" then Some (VNumber (number_of_nat (String.length s)))
      else match index_of_key k (String.length s) with
           | Some i => Some (VString (String.substring i 1 s))
           | None => None
           end
  | VArray items =>
      if String.eqb k "length" then Some (VNumber (number_of_nat (List.length items)))
      else match index_of_key k (List.length items) with
           | Some i => Some (List.nth i items VUndefined)
           | None => None
           end
  | VObject ps => lookup_prop k ps
  end.

(** The kind of a value that has a prototype; [null] and [undefined] have
    none. *)
Definition kind_of (v : value) : option kind :=
  match v with
  | VUndefined | VNull => None
  | VBool _ => Some KBoolean
  | VNumber _ => Some KNumber
  | VString _ => Some KString
  | VArray _ => Some KArray
  | VObject _ => Some KObject
  end.

(** [a === b] *)
Definition strict_eq (a b : value) : bool :=
  match a, b with
  | VUndefined, VUndefined => true
  | VNull, VNull => true
  | VBool x, VBool y => Bool.eqb x y
  | VNumber x, VNumber y => PrimFloat.eqb x y
  | VString x, VString y => String.eqb x y
  | _, _ => false
  end.

(** ToBoolean *)
Definition truthy (v : value) : bool :=
  match v with
  | VUndefined | VNull => false
  | VBool b => b
  | VNumber n => negb (isNaN n || PrimFloat.eqb n PrimFloat.zero)
  | VString s => negb (String.eqb s "")
  | VArray _ | VObject _ => true
  end.

(** [a || b] *)
Definition or_else (a b : value) : value :=
  if truthy a then a else b.

(** ToBoolean of what a read came to: an object is truthy. *)
Definition reached_truthy (r : reached) : bool :=
  match r with
  | Data v => truthy v
  | Builtin _ => true
  end.

(** [r || b] *)
Definition reached_or_else (r : reached) (b : value) : reached :=
  if reached_truthy r then r else Data b.

(** *** Coercions *)

(** What the conversion of an object to a primitive throws when neither its
    [toString] nor its [valueOf] gives one. *)
Definition conversion_error : exn :=
  TypeError "Cannot convert object to primitive value".

(** The values that convert to a primitive.  An object is converted by the
    [toString] it inherits, unless it has a property [toString] of its own:
    in data that property is no function, the [valueOf] the object has or
    inherits gives no primitive either, and the conversion throws.  An array
    is converted by joining the texts of its elements, each of which is
    converted in turn, [null] and [undefined] apart. *)
Fixpoint convertible (v : value) : bool :=
  match v with
  | VUndefined | VNull | VBool _ | VNumber _ | VString _ => true
  | VArray items => forallb convertible items
  | VObject ps =>
      match lookup_prop "toString" ps with
      | Some _ => false
      | None => true
      end
  end.

Section Coercions.
Context `{JSHost}.

(** The text of a value that converts.  An array prints its elements
    separated by commas, [null] and [undefined] elements as nothing; an
    object prints as [[object Object]]. *)
Fixpoint string_of (v : value) : string :=
  match v with
  | VUndefined => "undefined"
  | VNull => "null"
  | VBool true => "true"
  | VBool false => "false"
  | VNumber n => number_to_string n
  | VString s => s
  | VArray items =>
      join ","
        (List.map (fun x => match x with
                            | VUndefined | VNull => ""
                            | _ => string_of x
                            end) items)
  | VObject _ => "[object Object]"
  end.

(** [String(v)] and the template literal [`${v}`]. *)
Definition to_string (v : value) : result string :=
  if convertible v then Ok (string_of v) else Throw conversion_error.

(** ToPrimitive: arrays and objects go through [toString], whatever the
    hint. *)
Definition to_primitive (v : value) : result prim :=
  match v with
  | VUndefined => Ok PUndefined
  | VNull => Ok PNull
  | VBool b => Ok (PBool b)
  | VNumber n => Ok (PNumber n)
  | VString s => Ok (PString s)
  | VArray _ | VObject _ => bind (to_string v) (fun s => Ok (PString s))
  end.

Definition prim_to_number (p : prim) : number :=
  match p with
  | PUndefined => PrimFloat.nan
  | PNull => PrimFloat.zero
  | PBool b => number_of_bool b
  | PNumber n => n
  | PString s => string_to_number s
  end.

Definition prim_to_string (p : prim) : string :=
  match p with
  | PUndefined => "undefined"
  | PNull => "null"
  | PBool true => "true"
  | PBool false => "false"
  | PNumber n => number_to_string n
  | PString s => s
  end.

(** [Number(v)] *)
Definition to_number (v : value) : result number :=
  bind (to_primitive v) (fun p => Ok (prim_to_number p)).

(** [a == b] on primitives: [null] and [undefined] equal each other and
    nothing else, two strings compare as strings, every other pair
    compares as numbers. *)
Definition prim_loose_eq (p q : prim) : bool :=
  match p, q with
  | (PUndefined | PNull), (PUndefined | PNull) => true
  | (PUndefined | PNull), _ => false
  | _, (PUndefined | PNull) => false
  | PString x, PString y => String.eqb x y
  | _, _ => PrimFloat.eqb (prim_to_number p) (prim_to_number q)
  end.

(** [a == b]: two objects are equal only when they are one reference,
    which two separately built structures never are; an object is not
    converted to be compared with [null] or [undefined], which it never
    equals. *)
Definition loose_eq (a b : value) : result bool :=
  match a, b with
  | (VArray _ | VObject _), (VArray _ | VObject _ | VUndefined | VNull) => Ok false
  | (VUndefined | VNull), (VArray _ | VObject _) => Ok false
  | _, _ =>
      bind (to_primitive a) (fun p =>
      bind (to_primitive b) (fun q => Ok (prim_loose_eq p q)))
  end.

(** [String(r)], [Number(r)] and [r == b] on what a read came to. *)
Definition reached_to_string (r : reached) : result string :=
  match r with
  | Data v => to_string v
  | Builtin b => bind (builtin_to_primitive HString b) (fun p => Ok (prim_to_string p))
  end.

Definition reached_to_number (r : reached) : result number :=
  match r with
  | Data v => to_number v
  | Builtin b => bind (builtin_to_primitive HNumber b) (fun p => Ok (prim_to_number p))
  end.

Definition reached_loose_eq (r : reached) (b : value) : result bool :=
  match r with
  | Data v => loose_eq v b
  | Builtin name =>
      match b with
      | VUndefined | VNull | VArray _ | VObject _ => Ok false
      | _ =>
          bind (builtin_to_primitive HNumber name) (fun p =>
          bind (to_primitive b) (fun q => Ok (prim_loose_eq p q)))
      end
  end.

(** [r[k]] for any name [k]: the property the value has itself or, failing
    that, the one it inherits; [undefined] when it has neither. *)
Definition member (r : reached) (k : string) : result reached :=
  match r with
  | Builtin b => builtin_get b k
  | Data v =>
      match kind_of v with
      | None => bind (get v k) (fun x => Ok (Data x))
      | Some kd =>
          match own_property v k with
          | Some x => Ok (Data x)
          | None =>
              match inherited kd k with
              | Some b => Ok (Builtin b)
              | None => Ok (Data VUndefined)
              end
          end
      end
  end.

End Coercions.

End JS.

Import JS.

(* ===================================================================== *)
(** ** The data model of [types.ts] *)
(* ===================================================================== *)

Inductive NodeType : Type :=
| TRIGGER
| CONDITION
| ACTION.

(** The enum's string value, which is what [`${node.type}`] prints. *)
Definition NodeType_to_string (t : NodeType) : string :=
  match t with
  | TRIGGER => "TRIGGER"
  | CONDITION => "CONDITION"
  | ACTION => "ACTION"
  end.

Definition NodeType_eqb (a b : NodeType) : bool :=
  match a, b with
  | TRIGGER, TRIGGER | CONDITION, CONDITION | ACTION, ACTION => true
  | _, _ => false
  end.

Record NodePosition : Type := {
  pos_x : number;
  pos_y : number;
}.

(** [WorkflowNode]; [data] is [any]. *)
Record WorkflowNode : Type := {
  id : string;
  type : NodeType;
  name : string;
  subtitle : string;
  position : NodePosition;
  data : value;
  enabled : bool;
}.

Record Connection : Type := {
  conn_id : string;
  sourceId : string;
  targetId : string;
}.

(** A [TestEvent] is an object: the test editor hands over whatever its YAML
    text denotes, provided it has a truthy [type]; [data] and [globals] may be
    absent and further properties present. *)
Definition TestEvent : Type := props.

(** The levels of a log entry; [TRIGGER], [CONDITION] and [ACTION] carry an
    [L] here, the plain names being those of the node types. *)
Inductive LogLevel : Type :=
| INIT
| LTRIGGER
| LCONDITION
| LACTION
| SUCCESS
| WAIT
| ERROR
| AI
| TEST.

Record LogEntry : Type := {
  log_id : string;
  timestamp : string;
  log_type : string;
  level : LogLevel;
  message : string;
  details : value;
}.

Record ExecutionResult : Type := {
  success : bool;
  logs : list LogEntry;
  executedNodes : list string;
  failedNode : option string;
  error : option string;
}.

Record ExecutionContext : Type := {
  ctx_event : TestEvent;
  ctx_data : value;
  ctx_globals : value;
  ctx_variables : value;
}.

(* ===================================================================== *)
(** ** The executor's state and its effects *)
(* ===================================================================== *)

(** The wall clock: the [k]-th log entry of a run reads [Date.now()] and
    [new Date().toLocaleTimeString()] when it is built. *)
Record Clock : Type := {
  now : nat -> Z;
  localeTime : nat -> string;
}.

(** The mutable fields of a [WorkflowExecutor]: [logs], the insertion-ordered
    set [executedNodes] and the map [nodeConditions]. *)
Record ExecState : Type := {
  st_logs : list LogEntry;
  st_executed : list string;
  st_conditions : gmap string bool;
}.

(** The fields set by the constructor and never written again. *)
Record Executor : Type := {
  ex_nodes : list WorkflowNode;
  ex_connections : list Connection;
}.

(** A method of the executor: it returns or throws, and its writes to the
    state stay whichever way it ends. *)
Definition Exec (A : Type) : Type := ExecState -> result A * ExecState.

Definition ret {A} (a : A) : Exec A := fun st => (Ok a, st).

Definition raise {A} (e : exn) : Exec A := fun st => (Throw e, st).

Definition bindE {A B} (m : Exec A) (k : A -> Exec B) : Exec B :=
  fun st =>
    match m st with
    | (Ok a, st') => k a st'
    | (Throw e, st') => (Throw e, st')
    end.

(** A pure computation, which may throw, run inside a method. *)
Definition lift {A} (r : result A) : Exec A := fun st => (r, st).

(** [try { m } catch (error) { handler error }] *)
Definition try_catchE {A} (m : Exec A) (handler : exn -> Exec A) : Exec A :=
  fun st =>
    match m st with
    | (Ok a, st') => (Ok a, st')
    | (Throw e, st') => handler e st'
    end.

Declare Scope js_scope.
Delimit Scope js_scope with js.
Notation "x <- m ;; k" := (JS.bind m (fun x => k))
  (at level 100, m at next level, right associativity) : js_scope.
Declare Scope exec_scope.
Delimit Scope exec_scope with exec.
Notation "x <- m ;; k" := (bindE m (fun x => k))
  (at level 100, m at next level, right associativity) : exec_scope.
Notation "m ;; k" := (bindE m (fun _ => k))
  (at level 100, right associativity) : exec_scope.

(** [set.has(x)] *)
Definition set_has (x : string) (s : list string) : bool :=
  existsb (String.eqb x) s.

(** [set.add(x)]: a new element goes last. *)
Definition set_add (x : string) (s : list string) : list string :=
  if set_has x s then s else s ++ [x].

(** [set.delete(x)] *)
Definition set_delete (x : string) (s : list string) : list string :=
  List.filter (fun y => negb (String.eqb x y)) s.

(** An object literal. *)
Definition obj (ps : props) : value := VObject ps.

(** [v === "text"] *)
Definition is_string (v : value) (text : string) : bool :=
  strict_eq v (VString text).

(** [o.k] on an object. *)
Definition prop_of (o : props) (k : string) : value :=
  match lookup_prop k o with
  | Some v => v
  | None => VUndefined
  end.

(** [v.length === 0], for the [length] of an array or a string, which is the
    count of what it holds, or else whatever the [length] property reads. *)
Definition length_is_zero (v : value) : result bool :=
  match v with
  | VArray items => Ok (Nat.eqb (List.length items) 0)
  | VString s => Ok (Nat.eqb (String.length s) 0)
  | _ => bind (get v "length") (fun n => Ok (strict_eq n (VNumber PrimFloat.zero)))
  end.

(** The [case] labels of the [switch] in [compareValues]. *)
Inductive OperatorCase : Type :=
| OpEQ
| OpNEQ
| OpGT
| OpLT
| OpGTE
| OpLTE
| OpCONTAINS
| OpMATCHES
| OpIN
| OpNOT_IN
| OpRANGE.

(** Which [case] an operator selects, by [===]; [None] is [default]. *)
Definition switch_case (operator : value) : option OperatorCase :=
  match operator with
  | VString op =>
      if String.eqb op "EQ" || String.eqb op "==" then Some OpEQ
      else if String.eqb op "NEQ" || String.eqb op "!=" then Some OpNEQ
      else if String.eqb op "GT" || String.eqb op ">" then Some OpGT
      else if String.eqb op "LT" || String.eqb op "<" then Some OpLT
      else if String.eqb op "GTE" || String.eqb op ">=" then Some OpGTE
      else if String.eqb op "LTE" || String.eqb op "<=" then Some OpLTE
      else if String.eqb op "CONTAINS" then Some OpCONTAINS
      else if String.eqb op "MATCHES" then Some OpMATCHES
      else if String.eqb op "IN" then Some OpIN
      else if String.eqb op "NOT_IN" then Some OpNOT_IN
      else if String.eqb op "RANGE" then Some OpRANGE
      else None
  | _ => None
  end.

(* ===================================================================== *)
(** ** The engine: [class WorkflowExecutor] *)
(* ===================================================================== *)

Section Engine.
Context `{JSHost}.
Variable clock : Clock.

(** [new RegExp(pattern)] followed by [regex.test(subject)]. *)
Definition RegExp_test (pattern subject : string) : result bool :=
  match regexp_test pattern subject with
  | Some b => Ok b
  | None => Throw (SyntaxError ("Invalid regular expression: /" ++ pattern ++ "/"))
  end.

(** [new RegExp(pattern)] alone: whether the constructor takes the pattern
    does not depend on what is tested afterwards. *)
Definition RegExp_new (pattern : string) : result unit :=
  bind (RegExp_test pattern "") (fun _ => Ok tt).

(** *** Comparator *)

Definition compareValues (actual : reached) (operator expected : value)
  : result bool :=
  (actualNum <- reached_to_number actual ;;
   expectedNum <- to_number expected ;;
   actualText <- reached_to_string (reached_or_else actual (VString "")) ;;
   expectedText <- to_string (or_else expected (VString "")) ;;
   let actualStr := toLowerCase actualText in
   let expectedStr := toLowerCase expectedText in
   match switch_case operator with
   | Some OpEQ => reached_loose_eq actual expected
   | Some OpNEQ => equal <- reached_loose_eq actual expected ;; Ok (negb equal)
   | Some OpGT =>
       Ok (negb (isNaN actualNum) && negb (isNaN expectedNum)
           && PrimFloat.ltb expectedNum actualNum)
   | Some OpLT =>
       Ok (negb (isNaN actualNum) && negb (isNaN expectedNum)
           && PrimFloat.ltb actualNum expectedNum)
   | Some OpGTE =>
       Ok (negb (isNaN actualNum) && negb (isNaN expectedNum)
           && PrimFloat.leb expectedNum actualNum)
   | Some OpLTE =>
       Ok (negb (isNaN actualNum) && negb (isNaN expectedNum)
           && PrimFloat.leb actualNum expectedNum)
   | Some OpCONTAINS => Ok (includes actualStr expectedStr)
   | Some OpMATCHES =>
       try_catch (RegExp_test expectedStr actualStr) (fun _ => Ok false)
   | Some OpIN =>
       expectedList <- to_string expected ;;
       let expectedArray := List.map trim (split "," expectedList) in
       actualItem <- reached_to_string actual ;;
       Ok (existsb (String.eqb actualItem) expectedArray)
   | Some OpNOT_IN =>
       excludeList <- to_string expected ;;
       let excludeArray := List.map trim (split "," excludeList) in
       actualItem <- reached_to_string actual ;;
       Ok (negb (existsb (String.eqb actualItem) excludeArray))
   | Some OpRANGE =>
       boundsText <- to_string expected ;;
       let bounds :=
         List.map (fun s => VNumber (string_to_number s)) (split "," boundsText) in
       min <- to_number (List.nth 0 bounds VUndefined) ;;
       max <- to_number (List.nth 1 bounds VUndefined) ;;
       Ok (negb (isNaN actualNum) && negb (isNaN min) && negb (isNaN max)
           && PrimFloat.leb min actualNum && PrimFloat.leb actualNum max)
   | None => Ok false
   end)%js.

(** *** Field resolver *)

(** The object [{...context.data, ...context.event, ...context.globals}]. *)
Definition merged_view (context : ExecutionContext) : props :=
  assign (assign (assign [] (own_props (ctx_data context)))
                 (ctx_event context))
         (own_props (ctx_globals context)).

(** The [for (const part of parts)] loop. *)
Fixpoint walk_path (parts : list string) (r : reached) : result reached :=
  match parts with
  | [] => Ok r
  | part :: rest =>
      match r with
      | Data VNull | Data VUndefined => Ok (Data VUndefined)
      | _ => bind (member r part) (walk_path rest)
      end
  end.

Definition getValueFromPath (path : value) (context : ExecutionContext)
  : result reached :=
  if negb (truthy path) then Ok (Data VUndefined)
  else match path with
       | VString s => walk_path (split "." s) (Data (obj (merged_view context)))
       | _ => Throw (TypeError "path.split is not a function")
       end.

(** *** Condition evaluator *)

Definition evaluateSimpleCondition (conditionData : value)
  (context : ExecutionContext) : result bool :=
  (field <- get conditionData "field" ;;
   let fieldPath := or_else field (VString "") in
   op <- get conditionData "operator" ;;
   let operator := or_else op (VString "EQ") in
   expectedValue <- get conditionData "value" ;;
   actualValue <- getValueFromPath fieldPath context ;;
   compareValues actualValue operator expectedValue)%js.

Definition evaluateGroupCondition (conditionData : value)
  (context : ExecutionContext) : result bool :=
  (lg <- get conditionData "logic" ;;
   let logic := or_else lg (VString "AND") in
   cs <- get conditionData "conditions" ;;
   let conditions := or_else cs (VArray []) in
   empty <- length_is_zero conditions ;;
   if empty then Ok true
   else
     results <- match conditions with
                | VArray items =>
                    mapM (fun cond => evaluateSimpleCondition cond context) items
                | _ => Throw (TypeError "conditions.map is not a function")
                end ;;
     if is_string logic "AND" then Ok (forallb (fun r => Bool.eqb r true) results)
     else if is_string logic "OR" then Ok (existsb (fun r => Bool.eqb r true) results)
     else Ok false)%js.

(** *** Trigger matcher *)

Definition shouldExecuteTrigger (triggerNode : WorkflowNode) (event : TestEvent)
  : result bool :=
  (et <- get (data triggerNode) "eventType" ;;
   let eventType := or_else et (VString "any") in
   if is_string eventType "any" then Ok true
   else
     match eventType with
     | VString s =>
         if includes s "*" then
           let pattern := replace_stars s in
           _ <- RegExp_new ("^" ++ pattern ++ "$") ;;
           subject <- to_string (prop_of event "type") ;;
           RegExp_test ("^" ++ pattern ++ "$") subject
         else Ok (strict_eq (prop_of event "type") eventType)
     | VArray items =>
         if existsb (fun x => strict_eq x (VString "*")) items
         then Throw (TypeError "eventType.replace is not a function")
         else Ok (strict_eq (prop_of event "type") eventType)
     | _ => Throw (TypeError "eventType.includes is not a function")
     end)%js.

(** *** Trace and state *)

Definition get_state : Exec ExecState := fun st => (Ok st, st).

(** [this.logs.push(log)] *)
Definition addLog (log : LogEntry) : Exec unit :=
  fun st =>
    (Ok tt, {| st_logs := st_logs st ++ [log];
               st_executed := st_executed st;
               st_conditions := st_conditions st |}).

(** [this.addLog({ id: `exec-${Date.now()}-suffix`, timestamp: ..., type:
    "ENGINE", level, message, details })] *)
Definition engine_log (suffix : string) (lvl : LogLevel) (msg : string)
  (det : value) : Exec unit :=
  fun st =>
    let k := List.length (st_logs st) in
    addLog {| log_id := "exec-" ++ Z_to_string (now clock k) ++ "-" ++ suffix;
              timestamp := localeTime clock k;
              log_type := "ENGINE";
              level := lvl;
              message := msg;
              details := det |} st.

(** [this.executedNodes.add(nodeId)] *)
Definition add_executed (nodeId : string) : Exec unit :=
  fun st =>
    (Ok tt, {| st_logs := st_logs st;
               st_executed := set_add nodeId (st_executed st);
               st_conditions := st_conditions st |}).

(** [this.nodeConditions.set(nodeId, passed)] *)
Definition set_condition (nodeId : string) (passed : bool) : Exec unit :=
  fun st =>
    (Ok tt, {| st_logs := st_logs st;
               st_executed := st_executed st;
               st_conditions := <[nodeId := passed]> (st_conditions st) |}).

Definition sensitiveFields : list string :=
  ["password"; "token"; "secret"; "apiKey"].

Definition sanitizeData (d : value) : value :=
  let sanitized := assign [] (own_props d) in
  obj (List.fold_left
         (fun acc field =>
            if negb (strict_eq (prop_of acc field) VUndefined)
            then set_prop field (VString "***REDACTED***") acc
            else acc)
         sensitiveFields sanitized).

(** *** Node execution *)

(** The entry a step logs is built field by field: its message, which
    prints a value of the configuration and so can throw, before its
    details. *)
Definition executeTrigger (node : WorkflowNode) (context : ExecutionContext)
  : Exec unit :=
  (et <- lift (get (data node) "eventType") ;;
   let eventType := or_else et (VString "unknown") in
   let eventData := ctx_data context in
   nm <- lift (get (data node) "name") ;;
   shown <- lift (to_string nm) ;;
   pr <- lift (get (data node) "priority") ;;
   engine_log (id node ++ "-trigger") LTRIGGER
     ("Trigger fired: " ++ shown)
     (obj [("nodeId", VString (id node));
           ("eventType", eventType);
           ("eventData", sanitizeData eventData);
           ("priority", or_else pr (VNumber PrimFloat.one))]) ;;
   set_condition (id node) true)%exec.

Definition executeCondition (node : WorkflowNode) (context : ExecutionContext)
  : Exec unit :=
  (md <- lift (get (data node) "mode") ;;
   let mode := or_else md (VString "SIMPLE") in
   passed <- lift (if is_string mode "SIMPLE"
                   then evaluateSimpleCondition (data node) context
                   else if is_string mode "GROUP"
                   then evaluateGroupCondition (data node) context
                   else Ok false) ;;
   engine_log (id node ++ "-condition") LCONDITION
     ("Condition " ++ (if passed then "PASSED" else "FAILED") ++ ": " ++ name node)
     (obj [("nodeId", VString (id node));
           ("mode", mode);
           ("passed", VBool passed);
           ("condition", sanitizeData (data node))]) ;;
   set_condition (id node) passed)%exec.

Definition executeSingleAction (action : value) (index : nat)
  (context : ExecutionContext) : Exec unit :=
  (ty <- lift (get action "type") ;;
   shown <- lift (to_string ty) ;;
   lb <- lift (get action "label") ;;
   dt <- lift (get action "details") ;;
   pm <- lift (get action "params") ;;
   engine_log ("action-" ++ nat_to_string index) LACTION
     ("Executing action [" ++ nat_to_string (index + 1) ++ "]: " ++ shown)
     (obj [("actionType", ty); ("label", lb); ("details", dt); ("params", pm)]))%exec.

(** The [for (let i = 0; i < actions.length; i++)] loop, from index [i] on;
    the pauses between actions take time and change nothing else. *)
Fixpoint executeActions (actions : list value) (i : nat)
  (context : ExecutionContext) : Exec unit :=
  match actions with
  | [] => ret tt
  | action :: rest =>
      (executeSingleAction action i context ;;
       executeActions rest (S i) context)%exec
  end.

Definition executeAction (node : WorkflowNode) (context : ExecutionContext)
  : Exec unit :=
  (acts <- lift (get (data node) "actions") ;;
   let actions := or_else acts (VArray []) in
   md <- lift (get (data node) "mode") ;;
   let mode := or_else md (VString "SINGLE") in
   match actions with
   | VArray items =>
       shown <- lift (to_string mode) ;;
       summary <- lift (mapM (fun a =>
                                (ty <- get a "type" ;;
                                 lb <- get a "label" ;;
                                 Ok (obj [("type", ty);
                                          ("label", or_else lb (VString "Unnamed"))]))%js)
                             items) ;;
       engine_log (id node ++ "-action-start") LACTION
         ("Executing " ++ nat_to_string (List.length items) ++ " action(s) in "
            ++ shown ++ " mode")
         (obj [("nodeId", VString (id node));
               ("mode", mode);
               ("actionCount", VNumber (number_of_nat (List.length items)));
               ("actions", VArray summary)]) ;;
       executeActions items 0 context ;;
       engine_log (id node ++ "-action-complete") LACTION
         ("Actions completed: " ++ name node)
         (obj [("nodeId", VString (id node));
               ("totalActions", VNumber (number_of_nat (List.length items)))]) ;;
       set_condition (id node) true
   | _ =>
       (* the message prints [actions.length] and the mode, then the
          details call [actions.map] *)
       count <- lift (get actions "length") ;;
       lift (to_string count) ;;
       lift (to_string mode) ;;
       raise (TypeError "actions.map is not a function")
   end)%exec.

(** The [switch (node.type)] inside the [try] of [executeNode]. *)
Definition executeKind (node : WorkflowNode) (context : ExecutionContext)
  : Exec unit :=
  match type node with
  | TRIGGER => executeTrigger node context
  | CONDITION => executeCondition node context
  | ACTION => executeAction node context
  end.

(** The entry [executeNode] logs before it tries the node. *)
Definition logStart (node : WorkflowNode) : Exec unit :=
  engine_log (id node ++ "-start") INIT
    ("Executing " ++ NodeType_to_string (type node) ++ " node: " ++ name node)
    (obj [("nodeId", VString (id node));
          ("nodeType", VString (NodeType_to_string (type node)))]).

(** The entry the [catch] of [executeNode] logs. *)
Definition logError (node : WorkflowNode) (error : exn) : Exec unit :=
  engine_log (id node ++ "-error") ERROR
    ("Error executing " ++ NodeType_to_string (type node) ++ ": " ++ name node)
    (obj [("nodeId", VString (id node));
          ("error", VString (exn_to_string error))]).

Definition executeNode (node : WorkflowNode) (context : ExecutionContext)
  : Exec unit :=
  (logStart node ;;
   try_catchE
     (executeKind node context ;; add_executed (id node))
     (fun error => logError node error))%exec.

(** *** Propagation *)

Definition findTriggerNodes (ex : Executor) : list WorkflowNode :=
  List.filter (fun n => NodeType_eqb (type n) TRIGGER) (ex_nodes ex).

Definition nodePassedCondition (ex : Executor) (nodeId : string)
  (st : ExecState) : bool :=
  match List.find (fun n => String.eqb (id n) nodeId) (ex_nodes ex) with
  | None => false
  | Some node =>
      if NodeType_eqb (type node) TRIGGER || NodeType_eqb (type node) ACTION
      then true
      else match st_conditions st !! nodeId with
           | Some true => true
           | _ => false
           end
  end.

(** [this.connections.filter((c) => c.targetId === node.id)] *)
Definition parentConnections (ex : Executor) (node : WorkflowNode)
  : list Connection :=
  List.filter (fun c => String.eqb (targetId c) (id node)) (ex_connections ex).

(** The gates a node goes through in one pass of the loop: [true] when the
    node is to be executed now. *)
Definition ready (ex : Executor) (node : WorkflowNode) (st : ExecState) : bool :=
  if set_has (id node) (st_executed st) then false
  else if NodeType_eqb (type node) TRIGGER then false
  else
    let parents := parentConnections ex node in
    if Nat.eqb (List.length parents) 0 then false
    else if negb (forallb (fun c => set_has (sourceId c) (st_executed st)) parents)
    then false
    else if negb (existsb (fun c => nodePassedCondition ex (sourceId c) st) parents)
    then false
    else true.

(** The [for (const node of this.nodes)] loop of one pass, over the nodes
    still to visit; [changed] is the flag so far. *)
Fixpoint propagatePass (ex : Executor) (context : ExecutionContext)
  (nodes : list WorkflowNode) (changed : bool) : Exec bool :=
  match nodes with
  | [] => ret changed
  | node :: rest =>
      (st <- get_state ;;
       if ready ex node st
       then (executeNode node context ;; propagatePass ex context rest true)
       else propagatePass ex context rest changed)%exec
  end.

Definition maxIterations : nat := 100.

(** The [while (changed && iterations < maxIterations)] loop.  [fuel] bounds
    the passes still allowed; [maxIterations] of it is never used up before
    the loop's own test fails. *)
Fixpoint propagateLoop (fuel : nat) (ex : Executor) (context : ExecutionContext)
  (changed : bool) (iterations : nat) : Exec nat :=
  match fuel with
  | O => ret iterations
  | S fuel' =>
      if changed && Nat.ltb iterations maxIterations
      then (changed' <- propagatePass ex context (ex_nodes ex) false ;;
            propagateLoop fuel' ex context changed' (S iterations))%exec
      else ret iterations
  end.

Definition propagateExecution (ex : Executor) (context : ExecutionContext)
  : Exec unit :=
  (iterations <- propagateLoop maxIterations ex context true 0 ;;
   if Nat.leb maxIterations iterations
   then engine_log "timeout" ERROR
          "Workflow execution timeout - possible infinite loop"
          (obj [("iterations", VNumber (number_of_nat iterations))])
   else ret tt)%exec.

(** *** A run *)

(** [new WorkflowExecutor(nodes, connections)] *)
Definition new_WorkflowExecutor (nodes : list WorkflowNode)
  (connections : list Connection) : Executor :=
  {| ex_nodes := List.filter (fun n => enabled n) nodes;
     ex_connections := connections |}.

(** The state of a new executor, and the one [execute] starts from. *)
Definition fresh_state : ExecState :=
  {| st_logs := []; st_executed := []; st_conditions := ∅ |}.

(** [this.logs = []; this.executedNodes = new Set(); this.nodeConditions =
    new Map()] *)
Definition reset : Exec unit := fun _ => (Ok tt, fresh_state).

(** The [for (const triggerNode of triggerNodes)] loop of [execute]. *)
Fixpoint executeTriggers (triggerNodes : list WorkflowNode) (event : TestEvent)
  (context : ExecutionContext) : Exec unit :=
  match triggerNodes with
  | [] => ret tt
  | triggerNode :: rest =>
      (fire <- lift (shouldExecuteTrigger triggerNode event) ;;
       (if fire then executeNode triggerNode context else ret tt) ;;
       executeTriggers rest event context)%exec
  end.

Definition execute (ex : Executor) (event : TestEvent) : Exec ExecutionResult :=
  (reset ;;
   let context :=
     {| ctx_event := event;
        ctx_data := or_else (prop_of event "data") (obj []);
        ctx_globals := or_else (prop_of event "globals") (obj []);
        ctx_variables := obj [] |} in
   let triggerNodes := findTriggerNodes ex in
   if Nat.eqb (List.length triggerNodes) 0
   then
     engine_log "no-trigger" ERROR "No enabled trigger nodes found"
       (obj [("event", prop_of event "type")]) ;;
     st <- get_state ;;
     ret {| success := false;
            logs := st_logs st;
            executedNodes := [];
            failedNode := None;
            error := Some "No trigger nodes found" |}
   else
     executeTriggers triggerNodes event context ;;
     propagateExecution ex context ;;
     st <- get_state ;;
     ret {| success := true;
            logs := st_logs st;
            executedNodes := st_executed st;
            failedNode := None;
            error := None |})%exec.

(** [executeWorkflow(nodes, connections, event)]: the outcome of the call
    (the value the promise resolves to, or the error it rejects with) and the
    state the executor is left in. *)
Definition executeWorkflow (nodes : list WorkflowNode)
  (connections : list Connection) (event : TestEvent)
  : result ExecutionResult * ExecState :=
  execute (new_WorkflowExecutor nodes connections) event fresh_state.

End Engine.

(* ===================================================================== *)
(** ** The validator: [validateWorkflow] *)
(* ===================================================================== *)

(** The two sets the cycle check shares between calls of [hasCycle]; neither
    is ever iterated. *)
Record DfsState : Type := {
  visited : gset string;
  recursionStack : gset string;
}.

(** The [for (const conn of outgoing)] loop of [hasCycle nodeId], over the
    connections still to scan; [recur] is [hasCycle] itself. *)
Fixpoint scanOutgoing (recur : string -> DfsState -> option (bool * DfsState))
  (nodeId : string) (outgoing : list Connection) (s : DfsState)
  : option (bool * DfsState) :=
  match outgoing with
  | [] =>
      Some (false, {| visited := visited s;
                      recursionStack := recursionStack s ∖ {[nodeId]} |})
  | conn :: rest =>
      if negb (bool_decide (targetId conn ∈ visited s)) then
        match recur (targetId conn) s with
        | None => None
        | Some (true, s') => Some (true, s')
        | Some (false, s') => scanOutgoing recur nodeId rest s'
        end
      else if bool_decide (targetId conn ∈ recursionStack s) then Some (true, s)
      else scanOutgoing recur nodeId rest s
  end.

(** The closure [hasCycle]; [None] when [fuel] nested calls were not enough. *)
Fixpoint hasCycle (fuel : nat) (connections : list Connection)
  (nodeId : string) (s : DfsState) : option (bool * DfsState) :=
  match fuel with
  | O => None
  | S fuel' =>
      let s1 := {| visited := {[nodeId]} ∪ visited s;
                   recursionStack := {[nodeId]} ∪ recursionStack s |} in
      let outgoing :=
        List.filter (fun c => String.eqb (sourceId c) nodeId) connections in
      scanOutgoing (hasCycle fuel' connections) nodeId outgoing s1
  end.

Definition cycleError : string := "Circular dependency detected in workflow".

(** The [for (const node of nodes)] loop around [hasCycle]: the errors it
    pushes; it breaks at the first cycle. *)
Fixpoint cycleScan (fuel : nat) (connections : list Connection)
  (nodes : list WorkflowNode) (s : DfsState) : option (list string) :=
  match nodes with
  | [] => Some []
  | node :: rest =>
      if negb (bool_decide (id node ∈ visited s)) then
        match hasCycle fuel connections (id node) s with
        | None => None
        | Some (true, _) => Some [cycleError]
        | Some (false, s') => cycleScan fuel connections rest s'
        end
      else cycleScan fuel connections rest s
  end.

(** A nested call of [hasCycle] enters a connection target not yet visited,
    so there are never more of them than connections. *)
Definition dfsFuel (connections : list Connection) : nat :=
  S (List.length connections).

Definition dquote : string := String (Ascii.ascii_of_nat 34) "".

Definition orphanError (node : WorkflowNode) : string :=
  "Node " ++ dquote ++ name node ++ dquote ++ " (" ++ id node ++ ") is not connected".

(** The first loop of [validateWorkflow]. *)
Definition orphanErrors (nodes : list WorkflowNode)
  (connections : list Connection) : list string :=
  let connectedNodeIds :=
    (List.map sourceId connections ++ List.map targetId connections)%list in
  List.map orphanError
    (List.filter (fun node => negb (NodeType_eqb (type node) TRIGGER)
                              && negb (set_has (id node) connectedNodeIds))
                 nodes).

Definition triggerErrors (nodes : list WorkflowNode) : list string :=
  let triggers := List.filter (fun n => NodeType_eqb (type n) TRIGGER) nodes in
  if Nat.eqb (List.length triggers) 0
  then ["No trigger node found in workflow"]
  else [].

Record ValidationResult : Type := {
  valid : bool;
  errors : list string;
}.

Definition validateWorkflow (nodes : list WorkflowNode)
  (connections : list Connection) : option ValidationResult :=
  match cycleScan (dfsFuel connections) connections nodes
          {| visited := ∅; recursionStack := ∅ |} with
  | None => None
  | Some cycleErrors =>
      let errors :=
        (orphanErrors nodes connections ++ cycleErrors ++ triggerErrors nodes)%list in
      Some {| valid := Nat.eqb (List.length errors) 0; errors := errors |}
  end.

(* ===================================================================== *)
(** ** A host to run examples on *)
(* ===================================================================== *)

(** [exampleHost] is exact on ASCII text, on whole numbers, on short decimal
    literals and on patterns made of literal characters, [.], [x*], a leading
    [^] and a trailing [$]; of the built-in objects it has the properties of
    [Object.prototype], which every value inherits, and the names of the
    functions among them.  It stands for no more of the built-ins than the
    examples below use.  The theorems do not mention it. *)
Module ExampleHost.

Definition lower_ascii (c : ascii) : ascii :=
  let n := nat_of_ascii c in
  if Nat.leb 65 n && Nat.leb n 90 then ascii_of_nat (n + 32) else c.

Fixpoint lower (s : string) : string :=
  match s with
  | EmptyString => ""
  | String c rest => String (lower_ascii c) (lower rest)
  end.

Definition is_space (c : ascii) : bool :=
  let n := nat_of_ascii c in
  Nat.eqb n 32 || (Nat.leb 9 n && Nat.leb n 13).

Fixpoint trim_start (cs : list ascii) : list ascii :=
  match cs with
  | c :: rest => if is_space c then trim_start rest else cs
  | [] => []
  end.

Definition trim_ascii (s : string) : string :=
  string_of_list_ascii
    (rev (trim_start (rev (trim_start (list_ascii_of_string s))))).

Definition digit_of (c : ascii) : option Z :=
  let n := nat_of_ascii c in
  if Nat.leb 48 n && Nat.leb n 57 then Some (Z.of_nat (n - 48)) else None.

(** The whole number a run of digits spells, [None] unless all are digits. *)
Fixpoint digits_value (acc : Z) (cs : list ascii) : option Z :=
  match cs with
  | [] => Some acc
  | c :: rest =>
      match digit_of c with
      | Some d => digits_value (10 * acc + d) rest
      | None => None
      end
  end.

Definition float_of_Z (z : Z) : number :=
  if Z.ltb z 0 then PrimFloat.opp (PrimFloat.of_uint63 (Uint63.of_Z (- z)))
  else PrimFloat.of_uint63 (Uint63.of_Z z).

(** [digits] and [digits.digits], unsigned. *)
Definition unsigned_literal (cs : list ascii) : number :=
  match split "." (string_of_list_ascii cs) with
  | [whole] =>
      match cs, digits_value 0 cs with
      | _ :: _, Some n => float_of_Z n
      | _, _ => PrimFloat.nan
      end
  | [whole; frac] =>
      let ws := list_ascii_of_string whole in
      let fs := list_ascii_of_string frac in
      match (ws ++ fs)%list, digits_value 0 (ws ++ fs)%list with
      | _ :: _, Some n =>
          PrimFloat.div (float_of_Z n) (float_of_Z (10 ^ Z.of_nat (List.length fs)))
      | _, _ => PrimFloat.nan
      end
  | _ => PrimFloat.nan
  end.

Definition parse_number (s : string) : number :=
  match list_ascii_of_string (trim_ascii s) with
  | [] => PrimFloat.zero
  | c :: rest =>
      if Ascii.eqb c "-" then PrimFloat.opp (unsigned_literal rest)
      else if Ascii.eqb c "+" then unsigned_literal rest
      else unsigned_literal (c :: rest)
  end.

(** A whole number prints in decimal; the examples print no other number. *)
Definition print_number (n : number) : string :=
  match Prim2SF n with
  | S754_nan => "NaN"
  | S754_infinity false => "Infinity"
  | S754_infinity true => "-Infinity"
  | S754_zero _ => "0"
  | S754_finite sign m e =>
      if Z.leb 0 e
      then (if sign then "-" else "") ++ Z_to_string (Z.pos m * 2 ^ e)
      else if Z.eqb (Z.pos m mod 2 ^ (- e)) 0
      then (if sign then "-" else "") ++ Z_to_string (Z.pos m / 2 ^ (- e))
      else ""
  end.

Definition is_meta (c : ascii) : bool :=
  existsb (Ascii.eqb c)
    (list_ascii_of_string "()[]{}+?|\").

(** A [*] needs something before it to repeat. *)
Fixpoint stars_ok (prev_repeatable : bool) (re : list ascii) : bool :=
  match re with
  | [] => true
  | c :: rest =>
      if Ascii.eqb c "*" then prev_repeatable && stars_ok false rest
      else stars_ok true rest
  end.

(** Does [re] match a prefix of the text? *)
Fixpoint match_here (re : list ascii) : list ascii -> bool :=
  match re with
  | [] => fun _ => true
  | c :: re' =>
      match re' with
      | star :: re'' =>
          if Ascii.eqb star "*" then
            fix repeat (text : list ascii) : bool :=
              match_here re'' text ||
              match text with
              | [] => false
              | t :: text' => (Ascii.eqb c "." || Ascii.eqb c t) && repeat text'
              end
          else fun text =>
                 match text with
                 | [] => false
                 | t :: text' =>
                     (Ascii.eqb c "." || Ascii.eqb c t) && match_here re' text'
                 end
      | [] =>
          fun text =>
            if Ascii.eqb c "$" then Nat.eqb (List.length text) 0
            else match text with
                 | [] => false
                 | t :: text' => Ascii.eqb c "." || Ascii.eqb c t
                 end
      end
  end.

Fixpoint match_anywhere (re text : list ascii) : bool :=
  match_here re text ||
  match text with
  | [] => false
  | _ :: text' => match_anywhere re text'
  end.

Definition test_pattern (pattern subject : string) : option bool :=
  let re := list_ascii_of_string pattern in
  let text := list_ascii_of_string subject in
  if existsb is_meta re then None
  else match re with
       | c :: re' =>
           if Ascii.eqb c "^"
           then if stars_ok false re' then Some (match_here re' text) else None
           else if stars_ok false re then Some (match_anywhere re text) else None
       | [] => Some true
       end.

(** The methods of [Object.prototype]. *)
Definition object_methods : list string :=
  ["hasOwnProperty"; "isPrototypeOf"; "propertyIsEnumerable"; "toLocaleString";
   "toString"; "valueOf"].

(** The constructor of the values of a kind. *)
Definition constructor_of (kd : kind) : string :=
  match kd with
  | KBoolean => "Boolean"
  | KNumber => "Number"
  | KString => "String"
  | KArray => "Array"
  | KObject => "Object"
  end.

(** Whether the prototype of the kind has a method of that name of its own,
    in place of the one of [Object.prototype]. *)
Definition overrides (kd : kind) (k : string) : bool :=
  match kd with
  | KObject => false
  | KArray => String.eqb k "toString" || String.eqb k "toLocaleString"
  | KNumber =>
      String.eqb k "toString" || String.eqb k "toLocaleString"
      || String.eqb k "valueOf"
  | KString | KBoolean => String.eqb k "toString" || String.eqb k "valueOf"
  end.

(** What every value inherits: its constructor, its prototype and the
    methods of [Object.prototype]. *)
Definition inherited_object (kd : kind) (k : string) : option string :=
  if String.eqb k "constructor" then Some (constructor_of kd)
  else if String.eqb k "__proto__" then Some (constructor_of kd ++ ".prototype")
  else if existsb (String.eqb k) object_methods
  then Some ((if overrides kd k then constructor_of kd else "Object")
               ++ ".prototype." ++ k)
  else None.

(** The name of a built-in function: that of a constructor, or the last
    part of the path of a method; a prototype is no function. *)
Definition function_name (b : string) : option string :=
  match split "." b with
  | [c] => Some c
  | [_; _; method] => Some method
  | _ => None
  end.

(** A built-in function has a [name]; reading its [caller] or its
    [arguments] throws. *)
Definition function_get (b k : string) : result reached :=
  match function_name b with
  | Some n =>
      if String.eqb k "caller" || String.eqb k "arguments"
      then Throw (TypeError
        ("'caller', 'callee', and 'arguments' properties may not be accessed"
         ++ " on strict mode functions or the arguments objects for calls to them"))
      else if String.eqb k "name" then Ok (Data (VString n))
      else Ok (Data VUndefined)
  | None => Ok (Data VUndefined)
  end.

(** A built-in function converts to its source text. *)
Definition function_to_primitive (h : hint) (b : string) : result prim :=
  Ok (PString (match function_name b with
               | Some n => "function " ++ n ++ "() { [native code] }"
               | None => "[object Object]"
               end)).

End ExampleHost.

Definition exampleHost : JSHost :=
  {| string_to_number := ExampleHost.parse_number;
     number_to_string := ExampleHost.print_number;
     toLowerCase := ExampleHost.lower;
     trim := ExampleHost.trim_ascii;
     regexp_test := ExampleHost.test_pattern;
     inherited := ExampleHost.inherited_object;
     builtin_get := ExampleHost.function_get;
     builtin_to_primitive := ExampleHost.function_to_primitive |}.

(** A clock that starts at 1700000000000 ms and ticks once per log entry. *)
Definition exampleClock : Clock :=
  {| now := fun k => (1700000000000 + Z.of_nat k)%Z;
     localeTime := fun k => "12:00:00" |}.

(* ===================================================================== *)
(** ** Notions the statements below are written with *)
(* ===================================================================== *)

(** [needle] occurs in [hay]. *)
Definition substring_of (needle hay : string) : Prop :=
  exists before after, hay = before ++ needle ++ after.

(** The operator tags that compare as numbers. *)
Definition orderingOperators : list string :=
  ["GT"; ">"; "LT"; "<"; "GTE"; ">="; "LTE"; "<="].

(** The operator tags the comparator gives a meaning to. *)
Definition documentedOperators : list string :=
  ["EQ"; "=="; "NEQ"; "!="; "GT"; ">"; "LT"; "<"; "GTE"; ">="; "LTE"; "<=";
   "CONTAINS"; "MATCHES"; "IN"; "NOT_IN"; "RANGE"].

(** [null] and [undefined]. *)
Definition nullish (v : value) : bool :=
  match v with
  | VUndefined | VNull => true
  | _ => false
  end.

(** The operands on which [v || ""] is either [v] itself or stands for a
    missing value: every truthy value, the empty string, [null] and
    [undefined].  Left out are [0], [NaN] and [false]. *)
Definition plainOperand (r : reached) : bool :=
  match r with
  | Data v => truthy v || nullish v || strict_eq v (VString "")
  | Builtin _ => true
  end.

(** A computation that returns. *)
Definition returns {A} (r : result A) : bool :=
  match r with
  | Ok _ => true
  | Throw _ => false
  end.

(** The operands that convert, to a number and to a string: of the data
    those that are [convertible], of the built-in objects those the host
    converts. *)
Definition converts `{JSHost} (r : reached) : bool :=
  match r with
  | Data v => convertible v
  | Builtin b =>
      returns (builtin_to_primitive HNumber b)
      && returns (builtin_to_primitive HString b)
  end.

(** The text of an operand that converts. *)
Definition text_of `{JSHost} (r : reached) : string :=
  match r with
  | Data v => string_of v
  | Builtin b =>
      match builtin_to_primitive HString b with
      | Ok p => prim_to_string p
      | Throw _ => ""
      end
  end.

(** The string form of an operand, a missing operand being the empty text. *)
Definition stringForm `{JSHost} (r : reached) : string :=
  match r with
  | Data v => if nullish v then "" else string_of v
  | Builtin _ => text_of r
  end.

(** [st] with further entries in its log. *)
Definition addLogs (st : ExecState) (new : list LogEntry) : ExecState :=
  {| st_logs := st_logs st ++ new;
     st_executed := st_executed st;
     st_conditions := st_conditions st |}.

(** A log entry without the time it was written at. *)
Definition eraseTime (entry : LogEntry) : string * LogLevel * string * value :=
  (log_type entry, level entry, message entry, details entry).

(** Two states that differ in nothing but the times in their logs. *)
Definition sameState (s1 s2 : ExecState) : Prop :=
  List.map eraseTime (st_logs s1) = List.map eraseTime (st_logs s2)
  /\ st_executed s1 = st_executed s2
  /\ st_conditions s1 = st_conditions s2.

(** Two methods that return the same and keep such states such. *)
Definition sameRun {A} (m1 m2 : Exec A) : Prop :=
  forall s1 s2, sameState s1 s2 ->
    fst (m1 s1) = fst (m2 s2) /\ sameState (snd (m1 s1)) (snd (m2 s2)).

(** What a caller can observe of a run, the times in the trace apart. *)
Definition outcome (run : result ExecutionResult * ExecState)
  : result (bool * list (string * LogLevel * string * value) * list string
            * option string * option string)
    * gmap string bool :=
  (match fst run with
   | Ok r => Ok (success r, List.map eraseTime (logs r), executedNodes r,
                 failedNode r, error r)
   | Throw e => Throw e
   end,
   st_conditions (snd run)).

(** The context [execute] derives from an event. *)
Definition contextOf (event : TestEvent) : ExecutionContext :=
  {| ctx_event := event;
     ctx_data := or_else (prop_of event "data") (obj []);
     ctx_globals := or_else (prop_of event "globals") (obj []);
     ctx_variables := obj [] |}.

(** The result of a run that found a trigger node and ended in state [st]. *)
Definition successResult (st : ExecState) : ExecutionResult :=
  {| success := true;
     logs := st_logs st;
     executedNodes := st_executed st;
     failedNode := None;
     error := None |}.

(** The node's kind-specific step raises whenever it is tried. *)
Definition alwaysRaises `{JSHost} (clock : Clock) (node : WorkflowNode)
  (context : ExecutionContext) : Prop :=
  forall st, exists e st', executeKind clock node context st = (Throw e, st').

(** The states in which the loop of [propagateExecution], started in [st0],
    tests its condition: [loopEntry ... st0 k changed st] when it does so for
    the [k]-th time after [k] passes, with the flag [changed], in state
    [st]. *)
Inductive loopEntry `{JSHost} (clock : Clock) (ex : Executor)
  (context : ExecutionContext) (st0 : ExecState)
  : nat -> bool -> ExecState -> Prop :=
| entry_first : loopEntry clock ex context st0 0 true st0
| entry_next (k : nat) (st : ExecState) (changed' : bool) (st' : ExecState) :
    loopEntry clock ex context st0 k true st ->
    k < maxIterations ->
    propagatePass clock ex context (ex_nodes ex) false st = (Ok changed', st') ->
    loopEntry clock ex context st0 (S k) changed' st'.

(** The entries that announce that a node of this kind and name is tried. *)
Definition announces (node : WorkflowNode) (entry : LogEntry) : bool :=
  match level entry with
  | INIT =>
      String.eqb (message entry)
        ("Executing " ++ NodeType_to_string (type node) ++ " node: " ++ name node)
  | _ => false
  end.

(** How many times the trace announces such a node. *)
Definition attempts (node : WorkflowNode) (entries : list LogEntry) : nat :=
  List.length (List.filter (announces node) entries).

(** The entry the loop logs when it stops at the iteration cap. *)
Definition isTimeout (entry : LogEntry) : Prop :=
  level entry = ERROR
  /\ message entry = "Workflow execution timeout - possible infinite loop".

(** The nodes that are enabled. *)
Definition enabledNodes (nodes : list WorkflowNode) : list WorkflowNode :=
  List.filter (fun n => enabled n) nodes.

(** [nodeId] is the id of an enabled node. *)
Definition isEnabledId (nodes : list WorkflowNode) (nodeId : string) : bool :=
  existsb (fun n => enabled n && String.eqb (id n) nodeId) nodes.

(** The connections whose target is enabled. *)
Definition intoEnabled (nodes : list WorkflowNode)
  (connections : list Connection) : list Connection :=
  List.filter (fun c => isEnabledId nodes (targetId c)) connections.

(** The connections whose source and target are both enabled. *)
Definition betweenEnabled (nodes : list WorkflowNode)
  (connections : list Connection) : list Connection :=
  List.filter (fun c => isEnabledId nodes (sourceId c)
                        && isEnabledId nodes (targetId c)) connections.

(** Every executed id is the id of one of the executor's nodes, and the
    target of the connection [blocker] is not among them. *)
Definition blockedBy (ex : Executor) (blocker : Connection) (st : ExecState)
  : Prop :=
  (forall x, set_has x (st_executed st) = true ->
             exists m, In m (ex_nodes ex) /\ id m = x)
  /\ set_has (targetId blocker) (st_executed st) = false.

(** Reading a property the way the specification walks a path: whatever is
    absent reads as [undefined]. *)
Definition read (v : value) (k : string) : value :=
  match get v k with
  | Ok x => x
  | Throw _ => VUndefined
  end.

(** The value a walk along [parts] reaches from [v] when every step reads
    what the value has itself. *)
Fixpoint reach (parts : list string) (v : value) : value :=
  match parts with
  | [] => v
  | part :: rest => reach rest (read v part)
  end.

(** No value inherits a property of the name [k]. *)
Definition notInherited `{JSHost} (k : string) : Prop :=
  forall kd, inherited kd k = None.

(** The merged view, key by key: [globals] first, then the event record,
    then the event's [data]. *)
Definition overlay (context : ExecutionContext) (k : string) : option value :=
  match lookup_prop k (own_props (ctx_globals context)) with
  | Some v => Some v
  | None =>
      match lookup_prop k (ctx_event context) with
      | Some v => Some v
      | None => lookup_prop k (own_props (ctx_data context))
      end
  end.

(** What the walk of a path starts from under the name [k]: what the
    overlays hold there or, when none holds anything, what an object
    inherits there. *)
Definition startOf `{JSHost} (context : ExecutionContext) (k : string)
  : reached :=
  match overlay context k with
  | Some v => Data v
  | None =>
      match inherited KObject k with
      | Some b => Builtin b
      | None => Data VUndefined
      end
  end.

(** The list of conditions and the logic of a grouped configuration, with
    the defaults the evaluator gives them: no condition, and [AND]. *)
Definition groupConditions (config : props) : value :=
  or_else (prop_of config "conditions") (VArray []).

Definition groupLogic (config : props) : value :=
  or_else (prop_of config "logic") (VString "AND").

(** A simple triple [{field, operator, value}]: an object whose [field] is a
    string, or is missing, in which case the evaluator reads it as the empty
    path. *)
Definition simpleTriple (cond : value) : bool :=
  match cond with
  | VObject ps =>
      match or_else (prop_of ps "field") (VString "") with
      | VString _ => true
      | _ => false
      end
  | _ => false
  end.

(** *** The graph of the connections *)

(** Some connection leads from [x] to [y]. *)
Definition edge (connections : list Connection) (x y : string) : Prop :=
  exists c, In c connections /\ sourceId c = x /\ targetId c = y.

(** A cycle can be reached from [x]: following connections from [x] one
    comes to a node from which one or more connections lead back to itself. *)
Definition cycleFrom (connections : list Connection) (x : string) : Prop :=
  exists y, rtc (edge connections) x y /\ tc (edge connections) y y.

(** The targets of the connections. *)
Definition targetsOf (connections : list Connection) : gset string :=
  list_to_set (List.map targetId connections).

(** The nodes the traversal is done with: visited and off the stack. *)
Definition finished (s : DfsState) : gset string :=
  visited s ∖ recursionStack s.

(** No connection leaves [done], and no node of [done] is on a cycle. *)
Definition closedAcyclic (connections : list Connection) (done : gset string)
  : Prop :=
  (forall x y, x ∈ done -> edge connections x y -> y ∈ done)
  /\ (forall x, x ∈ done -> ~ tc (edge connections) x x).

(** What holds when [hasCycle nodeId] is called in state [s]: the node is
    new, the stack is visited, the finished nodes are closed and free of
    cycles, and every node on the stack leads to [nodeId]. *)
Definition dfsPre (connections : list Connection) (nodeId : string)
  (s : DfsState) : Prop :=
  (nodeId ∉ visited s)
  /\ (recursionStack s ⊆ visited s)
  /\ closedAcyclic connections (finished s)
  /\ (forall g, g ∈ recursionStack s -> rtc (edge connections) g nodeId).

(** What holds when that call returns [r]: on [true] a cycle can be reached
    from [nodeId]; on [false] the node is visited, the stack is as it was and
    the finished nodes are still closed and free of cycles. *)
Definition dfsPost (connections : list Connection) (nodeId : string)
  (s : DfsState) (r : bool * DfsState) : Prop :=
  match r with
  | (true, _) => cycleFrom connections nodeId
  | (false, s') =>
      ({[nodeId]} ∪ visited s ⊆ visited s')
      /\ recursionStack s' = recursionStack s
      /\ closedAcyclic connections (finished s')
  end.

(** The connection [c] leads from the node [x] to the node [y]. *)
Definition connects (c : Connection) (x y : WorkflowNode) : Prop :=
  sourceId c = id x /\ targetId c = id y.

(** How many times the cycle error stands in a list of errors. *)
Definition cycleErrorCount (errs : list string) : nat :=
  List.count_occ string_dec errs cycleError.

(** *** Example inputs *)

Definition examplePosition : NodePosition :=
  {| pos_x := 0%float; pos_y := 0%float |}.

Definition exampleNode (nodeId : string) (kind : NodeType) (config : value)
  (on : bool) : WorkflowNode :=
  {| id := nodeId; type := kind; name := nodeId; subtitle := "";
     position := examplePosition; data := config; enabled := on |}.

Definition exampleConnection (source target : string) : Connection :=
  {| conn_id := source ++ "-" ++ target; sourceId := source; targetId := target |}.

(** [{type: "e1", data: {coins: 500, type: "gift"}, globals: {coins: 7}}] *)
Definition exampleEvent : TestEvent :=
  [("type", VString "e1");
   ("data", obj [("coins", VNumber 500%float); ("type", VString "gift")]);
   ("globals", obj [("coins", VNumber 7%float)])].

Definition exampleContext : ExecutionContext :=
  {| ctx_event := exampleEvent;
     ctx_data := prop_of exampleEvent "data";
     ctx_globals := prop_of exampleEvent "globals";
     ctx_variables := obj [] |}.

(** [{logic, conditions: [coins >= 5, type == "e1"]}] *)
Definition exampleGroup (logic : string) : props :=
  [("mode", VString "GROUP");
   ("logic", VString logic);
   ("conditions",
    VArray [obj [("field", VString "coins"); ("operator", VString "GTE");
                 ("value", VNumber 5%float)];
            obj [("field", VString "type"); ("operator", VString "EQ");
                 ("value", VString "e1")]])].

(** [{logic: "OR", conditions: [coins >= 5, coins == {toString: "x"}]}]: the
    value of the second condition has a property [toString] of its own. *)
Definition shadowedGroup : props :=
  [("logic", VString "OR");
   ("conditions",
    VArray [obj [("field", VString "coins"); ("operator", VString "GTE");
                 ("value", VNumber 5%float)];
            obj [("field", VString "coins"); ("operator", VString "EQ");
                 ("value", obj [("toString", VString "x")])]])].

(** An action node whose configuration is [null]. *)
Definition brokenNode : WorkflowNode := exampleNode "B" ACTION VNull true.

(** A trigger that fires on every event. *)
Definition anyTrigger : WorkflowNode :=
  exampleNode "T" TRIGGER (obj [("eventType", VString "any")]) true.

(** A trigger whose event type is the number 5. *)
Definition numericTrigger : WorkflowNode :=
  exampleNode "T" TRIGGER (obj [("eventType", VNumber 5%float)]) true.

(** A trigger whose event type is an opening parenthesis and a star: the
    pattern built from it has a group that is never closed. *)
Definition unclosedGroupTrigger : WorkflowNode :=
  exampleNode "T" TRIGGER (obj [("eventType", VString ("(" ++ "*"))]) true.

(** The trigger [T] connected to the action [B] whose step raises. *)
Definition stuckExecutor : Executor :=
  new_WorkflowExecutor [anyTrigger; brokenNode] [exampleConnection "T" "B"].

(** The state once [T] has been executed. *)
Definition afterTrigger : ExecState :=
  {| st_logs := []; st_executed := ["T"]; st_conditions := {["T" := true]} |}.

(** A disabled node, and an action with no actions to perform. *)
Definition disabledNode : WorkflowNode :=
  exampleNode "D" TRIGGER (obj [("eventType", VString "any")]) false.

Definition idleAction : WorkflowNode :=
  exampleNode "A" ACTION (obj [("actions", VArray [])]) true.

(** [T] and the disabled [D] are both parents of [A]. *)
Definition halfDisabledNodes : list WorkflowNode :=
  [anyTrigger; disabledNode; idleAction].

Definition halfDisabledConnections : list Connection :=
  [exampleConnection "T" "A"; exampleConnection "D" "A"].

(** The value a computation returned, if it returned. *)
Definition result_value {A} (r : result A) : option A :=
  match r with
  | Ok a => Some a
  | Throw _ => None
  end.

(** The graph of the end-to-end scenarios: a trigger on [e1], a filter
    [data.coins >= 100] and a group of two actions in sequence. *)
Definition scenarioNodes : list WorkflowNode :=
  [exampleNode "T" TRIGGER (obj [("eventType", VString "e1")]) true;
   exampleNode "F" CONDITION
     (obj [("mode", VString "SIMPLE"); ("field", VString "data.coins");
           ("operator", VString "GTE"); ("value", VNumber 100%float)]) true;
   exampleNode "G" ACTION
     (obj [("mode", VString "SEQUENCE");
           ("actions", VArray [obj [("type", VString "STATE_SET")];
                               obj [("type", VString "NOTIFY")]])]) true].

Definition scenarioConnections : list Connection :=
  [exampleConnection "T" "F"; exampleConnection "F" "G"].

Definition scenarioEvent (coins : number) : TestEvent :=
  [("type", VString "e1"); ("data", obj [("coins", VNumber coins)])].

(** The levels of the entries of a trace. *)
Definition levels (entries : list LogEntry) : list LogLevel :=
  List.map level entries.

(* ===================================================================== *)
(** ** Notions of the further properties *)
(* ===================================================================== *)

(** *** What a run leaves behind *)

(** The value [executeCondition] computes as [passed] for a filter with the
    configuration [config]. *)
Definition conditionOutcome `{JSHost} (config : value)
  (context : ExecutionContext) : result bool :=
  (md <- get config "mode" ;;
   let mode := or_else md (VString "SIMPLE") in
   if is_string mode "SIMPLE" then evaluateSimpleCondition config context
   else if is_string mode "GROUP" then evaluateGroupCondition config context
   else Ok false)%js.

(** The outcome the step of a node records when it returns: that of its
    condition for a filter, [true] for a trigger and for an action group. *)
Definition verdict `{JSHost} (context : ExecutionContext) (m : WorkflowNode)
  : result bool :=
  match type m with
  | CONDITION => conditionOutcome (data m) context
  | TRIGGER | ACTION => Ok true
  end.

(** The state once the node [m] has been executed with the outcome [b],
    having logged [new]. *)
Definition afterNode (st : ExecState) (m : WorkflowNode) (b : bool)
  (new : list LogEntry) : ExecState :=
  {| st_logs := st_logs st ++ new;
     st_executed := set_add (id m) (st_executed st);
     st_conditions := <[id m := b]> (st_conditions st) |}.

(** [x] stands before an occurrence of [y] in [l]. *)
Definition before (l : list string) (x y : string) : Prop :=
  exists l1 l2, l = (l1 ++ y :: l2)%list /\ In x l1.

(** A trigger whose matcher accepts the event. *)
Definition fired `{JSHost} (event : TestEvent) (m : WorkflowNode) : Prop :=
  type m = TRIGGER /\ shouldExecuteTrigger m event = Ok true.

(** A node that is no trigger, has a connection into it, has the source of
    every connection into it executed before it, and the source of one of
    them passed. *)
Definition released (ex : Executor) (st : ExecState) (m : WorkflowNode) : Prop :=
  type m <> TRIGGER
  /\ parentConnections ex m <> []
  /\ (forall c, In c (parentConnections ex m) ->
        before (st_executed st) (sourceId c) (id m))
  /\ (exists c, In c (parentConnections ex m)
                /\ nodePassedCondition ex (sourceId c) st = true).

(** The executed id [x] is that of a node of the executor whose outcome is
    the one recorded for [x], and which fired or was released. *)
Definition accounted `{JSHost} (ex : Executor) (event : TestEvent)
  (st : ExecState) (x : string) : Prop :=
  exists m b,
    In m (ex_nodes ex) /\ id m = x
    /\ verdict (contextOf event) m = Ok b
    /\ st_conditions st !! x = Some b
    /\ (fired event m \/ released ex st m).

(** Every executed id is accounted for, none is listed twice, and outcomes
    are recorded for executed ids only. *)
Definition wellAccounted `{JSHost} (ex : Executor) (event : TestEvent)
  (st : ExecState) : Prop :=
  List.NoDup (st_executed st)
  /\ (forall x, In x (st_executed st) -> accounted ex event st x)
  /\ (forall x, is_Some (st_conditions st !! x) -> In x (st_executed st)).

(** The executed ids are ids of nodes of the executor, each listed once. *)
Definition withinNodes (ex : Executor) (st : ExecState) : Prop :=
  List.NoDup (st_executed st)
  /\ incl (st_executed st) (List.map id (ex_nodes ex)).

(** The trace holds the entry of the iteration cap. *)
Definition timeoutLogged (entries : list LogEntry) : bool :=
  existsb (fun entry =>
             String.eqb (message entry)
               "Workflow execution timeout - possible infinite loop")
          entries.

(** Following connections from a node that lies on a cycle one comes to
    [z]. *)
Definition afterCycle (connections : list Connection) (z : string) : Prop :=
  exists x, tc (edge connections) x x /\ rtc (edge connections) x z.

(** One step of the loop of [sanitizeData] over the sensitive fields. *)
Definition redactField (acc : props) (field : string) : props :=
  if negb (strict_eq (prop_of acc field) VUndefined)
  then set_prop field (VString "***REDACTED***") acc
  else acc.

(** The messages of the entries [executeActions] logs for [items], the
    first of which has the index [i]. *)
Fixpoint actionMessages `{JSHost} (i : nat) (items : list value) : list string :=
  match items with
  | [] => []
  | action :: rest =>
      ("Executing action [" ++ nat_to_string (i + 1) ++ "]: "
         ++ string_of (read action "type"))
        :: actionMessages (S i) rest
  end.

(** What the validator reads of a node. *)
Definition signature (n : WorkflowNode) : string * NodeType * string :=
  (id n, type n, name n).

(** Some connection starts or ends at the node. *)
Definition connected (connections : list Connection) (n : WorkflowNode) : Prop :=
  exists c, In c connections /\ (sourceId c = id n \/ targetId c = id n).

(* ===================================================================== *)
(** ** The callers: [simulateWorkflow] of [App] and [handleRun] of the test
    editor *)
(* ===================================================================== *)

(** [error.message] *)
Definition exn_message (e : exn) : string :=
  match e with
  | TypeError msg | SyntaxError msg => msg
  end.

(** What a click on the run button of the test editor comes to: the event
    handed to [onRunTest], if one was, and the error the editor shows. *)
Record RunRequest : Type := {
  handed : option value;
  editor_error : option string;
}.

(** [handleRun], given how [yaml.load(content)] ended: with the value the
    text denotes, or with an error, of which the handler reads the message
    and nothing else. *)
Definition handleRun (loaded : result value) : RunRequest :=
  match loaded with
  | Throw e => {| handed := None; editor_error := Some (exn_message e) |}
  | Ok parsed =>
      match get parsed "type" with
      | Throw e => {| handed := None; editor_error := Some (exn_message e) |}
      | Ok ty =>
          if negb (truthy ty)
          then {| handed := None; editor_error := Some "Event type is required" |}
          else {| handed := Some parsed; editor_error := None |}
      end
  end.

(** The state of [App] that [simulateWorkflow] reads and writes. *)
Record AppState : Type := {
  app_nodes : list WorkflowNode;
  app_connections : list Connection;
  app_logs : list LogEntry;
  isDeploying : bool;
  showDebugger : bool;
}.

(** The event of a simulation started without one. *)
Definition defaultTestEvent : TestEvent :=
  [("type", VString "tiktok.gift_received");
   ("data",
    obj [("gift", obj [("id", VNumber 16%float); ("name", VString "Galaxy");
                       ("coins", VNumber 500%float); ("type", VString "gift")]);
         ("user", obj [("username", VString "test_user");
                       ("id", VString "123456")]);
         ("coins", VNumber 500%float)]);
   ("globals", obj [])].

(** A log entry of the application; [k] counts the entries the call has
    made before this one. *)
Definition app_log (uiClock : Clock) (k : nat) (prefix suffix : string)
  (lvl : LogLevel) (kind msg : string) (det : value) : LogEntry :=
  {| log_id := prefix ++ Z_to_string (now uiClock k) ++ suffix;
     timestamp := localeTime uiClock k;
     log_type := kind;
     level := lvl;
     message := msg;
     details := det |}.

(** The event a simulation runs on. *)
Definition eventToExecute (testEvent : option TestEvent) : TestEvent :=
  match testEvent with
  | Some event => event
  | None => defaultTestEvent
  end.

(** The entry that announces a simulation.  The type of a [TestEvent] is
    declared a string, which prints as itself. *)
Definition initLog `{JSHost} (uiClock : Clock) (testEvent : option TestEvent)
  : LogEntry :=
  let eventType :=
    or_else (prop_of (eventToExecute testEvent) "type")
            (VString "simulation.default") in
  app_log uiClock 0 "l-" ""
    (match testEvent with Some _ => TEST | None => INIT end)
    "SIMULATION"
    (match testEvent with
     | Some _ => "Starting test run for event: " ++ string_of eventType
     | None => "Starting engine simulation..."
     end)
    (obj [("eventType", eventType);
          ("eventData", prop_of (eventToExecute testEvent) "data")]).

(** The entry that closes a run of the engine. *)
Definition completeLog (uiClock : Clock) (result : ExecutionResult) : LogEntry :=
  app_log uiClock 1 "exec-" "-complete"
    (if success result then SUCCESS else ERROR)
    "ENGINE"
    (if success result then "Workflow execution completed successfully"
     else "Workflow execution failed")
    (obj [("success", VBool (success result));
          ("executedNodes",
           VNumber (number_of_nat (List.length (executedNodes result))));
          ("error", match error result with
                    | Some msg => VString msg
                    | None => VUndefined
                    end)]).

(** The entries of the two ways a simulation ends without a result. *)
Definition validationFailedLog (uiClock : Clock) (errs : list string) : LogEntry :=
  app_log uiClock 1 "err-" "" ERROR "SYSTEM" "Workflow validation failed"
    (obj [("errors", VArray (List.map VString errs))]).

Definition engineFailedLog (uiClock : Clock) (e : exn) : LogEntry :=
  app_log uiClock 1 "err-" "" ERROR "SYSTEM" "Engine execution failed"
    (obj [("error", VString (exn_message e))]).

(** [simulateWorkflow(testEvent)]: the state once every update it queued is
    applied; [None] when the validator did not return. *)
Definition simulateWorkflow `{JSHost} (uiClock engineClock : Clock)
  (testEvent : option TestEvent) (app : AppState) : option AppState :=
  let logs1 := initLog uiClock testEvent :: app_logs app in
  let finish (entries : list LogEntry) :=
    Some {| app_nodes := app_nodes app;
            app_connections := app_connections app;
            app_logs := entries;
            isDeploying := false;
            showDebugger := true |} in
  match validateWorkflow (app_nodes app) (app_connections app) with
  | None => None
  | Some validation =>
      if negb (valid validation)
      then finish (logs1 ++ [validationFailedLog uiClock (errors validation)])%list
      else
        match fst (executeWorkflow engineClock (app_nodes app)
                     (app_connections app) (eventToExecute testEvent)) with
        | Ok result =>
            finish (logs result ++ completeLog uiClock result :: logs1)%list
        | Throw e => finish (logs1 ++ [engineFailedLog uiClock e])%list
        end
  end.

(** *** Further example inputs *)

(** The trigger, the filter and the action group of the scenarios. *)
Definition scenarioTrigger : WorkflowNode :=
  exampleNode "T" TRIGGER (obj [("eventType", VString "e1")]) true.

Definition scenarioFilter : WorkflowNode :=
  exampleNode "F" CONDITION
    (obj [("mode", VString "SIMPLE"); ("field", VString "data.coins");
          ("operator", VString "GTE"); ("value", VNumber 100%float)]) true.

Definition scenarioGroup : WorkflowNode :=
  exampleNode "G" ACTION
    (obj [("mode", VString "SEQUENCE");
          ("actions", VArray [obj [("type", VString "STATE_SET")];
                              obj [("type", VString "NOTIFY")]])]) true.

(** An event of a type no scenario trigger listens to. *)
Definition otherEvent : TestEvent := [("type", VString "other")].

(** [T -> A], [A -> B] and [B -> A]: a cycle behind a trigger. *)
Definition loopNodes : list WorkflowNode :=
  [anyTrigger; idleAction;
   exampleNode "B" ACTION (obj [("actions", VArray [])]) true].

Definition loopConnections : list Connection :=
  [exampleConnection "T" "A"; exampleConnection "A" "B";
   exampleConnection "B" "A"].

(** An event whose data hold a password beside the coins. *)
Definition secretEvent : TestEvent :=
  [("type", VString "e1");
   ("data", obj [("coins", VNumber 500%float);
                 ("password", VString "hunter2")])].

(** A group under a logic that is neither [AND] nor [OR]. *)
Definition xorGroup : props :=
  [("logic", VString "XOR");
   ("conditions",
    VArray [obj [("field", VString "coins"); ("operator", VString "GTE");
                 ("value", VNumber 5%float)]])].

(** A group whose second condition is [null], and a condition whose field is
    the number 5. *)
Definition nullGroup : props :=
  [("logic", VString "OR");
   ("conditions",
    VArray [obj [("field", VString "coins"); ("operator", VString "GTE");
                 ("value", VNumber 5%float)];
            VNull])].

Definition numericField : props :=
  [("field", VNumber 5%float); ("operator", VString "EQ");
   ("value", VNumber 5%float)].

(** An application that has logged nothing yet. *)
Definition exampleApp (nodes : list WorkflowNode)
  (connections : list Connection) : AppState :=
  {| app_nodes := nodes;
     app_connections := connections;
     app_logs := [];
     isDeploying := false;
     showDebugger := false |}.

(* ===================================================================== *)
(** * Properties *)
(* ===================================================================== *)

(** ** Strings *)

Lemma prefix_spec (p s : string) :
  String.prefix p s = true <-> exists after, s = p ++ after.
Proof.
  revert s; induction p as [|c p IH]; intros s.
  - split; [intros _; exists s; reflexivity | now destruct s].
  - destruct s as [|d s]; simpl.
    + split; [discriminate | intros [after Ha]; discriminate].
    + destruct (Ascii.ascii_dec c d) as [->|Hne].
      * rewrite IH. split; intros [after Ha]; exists after.
        -- now rewrite Ha.
        -- now injection Ha.
      * split; [discriminate|]. intros [after Ha]. injection Ha as Hc _.
        now subst.
Qed.

Lemma includes_spec (hay needle : string) :
  includes hay needle = true <-> substring_of needle hay.
Proof.
  unfold substring_of.
  induction hay as [|c hay IH].
  - change (includes "" needle) with (String.prefix needle "" || false).
    rewrite orb_false_r, prefix_spec. split.
    + intros [after Ha]. exists "", after. exact Ha.
    + intros [before [after Ha]].
      destruct before; simpl in Ha; [|discriminate].
      exists after. exact Ha.
  - change (includes (String c hay) needle)
      with (String.prefix needle (String c hay) || includes hay needle).
    rewrite orb_true_iff, prefix_spec, IH. split.
    + intros [[after Ha]|[before [after Ha]]].
      * exists "", after. exact Ha.
      * exists (String c before), after. simpl. now rewrite Ha.
    + intros [before [after Ha]]. destruct before as [|d before]; simpl in Ha.
      * left. exists after. exact Ha.
      * right. injection Ha as _ Ha. exists before, after. exact Ha.
Qed.

(** ** Conversions *)

Section ConversionFacts.
Context `{JSHost}.

Lemma to_string_convertible (v : value) :
  convertible v = true -> to_string v = Ok (string_of v).
Proof. unfold to_string. now intros ->. Qed.

Lemma to_string_unconvertible (v : value) :
  convertible v = false -> to_string v = Throw conversion_error.
Proof. unfold to_string. now intros ->. Qed.

Lemma to_string_returns (v : value) (s : string) :
  to_string v = Ok s -> convertible v = true /\ s = string_of v.
Proof.
  unfold to_string. destruct (convertible v); [|discriminate].
  intros Hs. injection Hs as <-. now split.
Qed.

Lemma to_primitive_convertible (v : value) :
  convertible v = true -> exists p, to_primitive v = Ok p.
Proof.
  intros Hv. destruct v; try (eexists; reflexivity);
    unfold to_primitive; rewrite (to_string_convertible _ Hv);
    eexists; reflexivity.
Qed.

Lemma to_primitive_unconvertible (v : value) :
  convertible v = false -> to_primitive v = Throw conversion_error.
Proof.
  intros Hv. destruct v; try discriminate;
    unfold to_primitive; now rewrite (to_string_unconvertible _ Hv).
Qed.

Lemma to_number_convertible (v : value) :
  convertible v = true -> exists n, to_number v = Ok n.
Proof.
  intros Hv. destruct (to_primitive_convertible v Hv) as [p Hp].
  unfold to_number. rewrite Hp. eexists. reflexivity.
Qed.

Lemma to_number_unconvertible (v : value) :
  convertible v = false -> to_number v = Throw conversion_error.
Proof.
  intros Hv. unfold to_number. now rewrite (to_primitive_unconvertible v Hv).
Qed.

Lemma loose_eq_convertible (a b : value) :
  convertible a = true -> convertible b = true ->
  exists r, loose_eq a b = Ok r.
Proof.
  intros Ha Hb.
  destruct (to_primitive_convertible a Ha) as [p Hp].
  destruct (to_primitive_convertible b Hb) as [q Hq].
  unfold loose_eq.
  destruct a, b; try (eexists; reflexivity);
    rewrite Hp; cbn [bind]; rewrite Hq; eexists; reflexivity.
Qed.

Lemma or_else_convertible (v : value) :
  convertible v = true -> convertible (or_else v (VString "")) = true.
Proof. unfold or_else. now destruct (truthy v). Qed.

(** What converts converts to a number and to its text. *)
Lemma converts_number (r : reached) :
  converts r = true -> exists n, reached_to_number r = Ok n.
Proof.
  destruct r as [v|b]; simpl.
  - apply to_number_convertible.
  - destruct (builtin_to_primitive HNumber b); [|discriminate].
    intros _. eexists. reflexivity.
Qed.

Lemma converts_string (r : reached) :
  converts r = true -> reached_to_string r = Ok (text_of r).
Proof.
  destruct r as [v|b]; simpl.
  - apply to_string_convertible.
  - destruct (builtin_to_primitive HNumber b); [|discriminate].
    destruct (builtin_to_primitive HString b); [|discriminate].
    reflexivity.
Qed.

Lemma converts_or_else (r : reached) :
  converts r = true ->
  reached_to_string (reached_or_else r (VString ""))
  = Ok (if reached_truthy r then text_of r else "").
Proof.
  intros Hr. unfold reached_or_else.
  destruct (reached_truthy r); [apply converts_string, Hr | reflexivity].
Qed.

Lemma convertible_or_else (v : value) :
  convertible v = true ->
  to_string (or_else v (VString ""))
  = Ok (if truthy v then string_of v else "").
Proof.
  intros Hv. unfold or_else.
  destruct (truthy v); [apply to_string_convertible, Hv | reflexivity].
Qed.

Lemma converts_loose_eq (r : reached) (b : value) :
  converts r = true -> convertible b = true ->
  exists e, reached_loose_eq r b = Ok e.
Proof.
  destruct r as [v|name]; simpl.
  - apply loose_eq_convertible.
  - intros Hr Hb. destruct (to_primitive_convertible b Hb) as [q Hq].
    destruct (builtin_to_primitive HNumber name); [|discriminate].
    destruct b; try (eexists; reflexivity);
      cbn [bind]; rewrite Hq; eexists; reflexivity.
Qed.

(** What does not convert makes one of the two conversions that open the
    comparator throw. *)
Lemma unconverted_throws (r : reached) :
  converts r = false ->
  (exists e, reached_to_number r = Throw e)
  \/ (exists e, reached_to_string (reached_or_else r (VString "")) = Throw e).
Proof.
  destruct r as [v|b]; simpl.
  - intros Hv. left. exists conversion_error. now apply to_number_unconvertible.
  - destruct (builtin_to_primitive HNumber b) as [p|e]; simpl.
    + destruct (builtin_to_primitive HString b) as [q|e] eqn:Hq; [discriminate|].
      intros _. right. exists e. reflexivity.
    + intros _. left. exists e. reflexivity.
Qed.

End ConversionFacts.

(** ** Comparator *)

(** The comparator once its four conversions have returned. *)
Ltac converted Hx Hy Ha He :=
  unfold compareValues;
  rewrite Hx; cbn [bind]; rewrite Hy; cbn [bind];
  rewrite (converts_or_else _ Ha); cbn [bind];
  rewrite (convertible_or_else _ He); cbn [bind].

Section ComparatorFacts.
Context `{JSHost}.

Lemma switch_case_documented (operator : value) (c : OperatorCase) :
  switch_case operator = Some c ->
  exists op, operator = VString op /\ In op documentedOperators.
Proof.
  destruct operator as [| | | |op| |]; simpl; try discriminate.
  intros Hc. exists op. split; [reflexivity|].
  unfold documentedOperators.
  repeat match type of Hc with
         | (if ?a || ?b then _ else _) = _ =>
             let Ha := fresh "Ha" in let Hb := fresh "Hb" in
             destruct a eqn:Ha; [apply String.eqb_eq in Ha; subst; simpl; tauto|];
             destruct b eqn:Hb; [apply String.eqb_eq in Hb; subst; simpl; tauto|];
             simpl in Hc
         | (if ?a then _ else _) = _ =>
             let Ha := fresh "Ha" in
             destruct a eqn:Ha; [apply String.eqb_eq in Ha; subst; simpl; tauto|]
         end.
  discriminate.
Qed.

Lemma switch_case_ordering (op : string) :
  In op orderingOperators ->
  exists c, switch_case (VString op) = Some c /\
            (c = OpGT \/ c = OpLT \/ c = OpGTE \/ c = OpLTE).
Proof.
  unfold orderingOperators. simpl.
  intros [<-|[<-|[<-|[<-|[<-|[<-|[<-|[<-|[]]]]]]]]]; eexists; (split; [reflexivity|]); tauto.
Qed.

Lemma bounds_convert (bounds : list string) (i : nat) :
  exists n,
    to_number (List.nth i (List.map (fun s => VNumber (string_to_number s)) bounds)
                 VUndefined) = Ok n.
Proof.
  apply to_number_convertible.
  revert i; induction bounds as [|b bounds IH]; intros [|i]; simpl;
    try reflexivity; apply IH.
Qed.

Lemma compareValues_returns (actual : reached) (operator expected : value) :
  converts actual = true -> convertible expected = true ->
  exists b, compareValues actual operator expected = Ok b.
Proof.
  intros Ha He.
  destruct (converts_number actual Ha) as [x Hx].
  destruct (to_number_convertible expected He) as [y Hy].
  destruct (converts_loose_eq actual expected Ha He) as [e Heq].
  converted Hx Hy Ha He.
  destruct (switch_case operator) as [[]|]; try (eexists; reflexivity).
  - rewrite Heq. eexists. reflexivity.
  - rewrite Heq. eexists. reflexivity.
  - unfold RegExp_test. destruct (regexp_test _ _); eexists; reflexivity.
  - rewrite (to_string_convertible _ He); cbn [bind].
    rewrite (converts_string _ Ha). eexists. reflexivity.
  - rewrite (to_string_convertible _ He); cbn [bind].
    rewrite (converts_string _ Ha). eexists. reflexivity.
  - rewrite (to_string_convertible _ He); cbn [bind].
    destruct (bounds_convert (split "," (string_of expected)) 0) as [lo ->].
    destruct (bounds_convert (split "," (string_of expected)) 1) as [hi ->].
    eexists. reflexivity.
Qed.

Lemma compareValues_raises (actual : reached) (operator expected : value) :
  converts actual = false \/ convertible expected = false ->
  exists e,
    compareValues actual operator expected = Throw e
    /\ (forall v, actual = Data v -> e = conversion_error).
Proof.
  intros Hno. unfold compareValues.
  destruct (reached_to_number actual) as [x|e] eqn:Hx; cbn [bind].
  2:{ exists e. split; [reflexivity|]. intros v ->. simpl in Hx.
      destruct (convertible v) eqn:Hv.
      - destruct (to_number_convertible v Hv) as [n Hn]. congruence.
      - rewrite (to_number_unconvertible v Hv) in Hx. congruence. }
  destruct (convertible expected) eqn:He.
  - destruct Hno as [Ha|Hne]; [|discriminate].
    destruct (to_number_convertible expected He) as [y ->]. cbn [bind].
    destruct (unconverted_throws actual Ha) as [[e Hthrow]|[e Hthrow]].
    + rewrite Hthrow in Hx. discriminate.
    + rewrite Hthrow. exists e. split; [reflexivity|]. intros v ->.
      simpl in Ha, Hx. rewrite (to_number_unconvertible v Ha) in Hx.
      discriminate.
  - rewrite (to_number_unconvertible expected He). eexists.
    split; reflexivity.
Qed.

End ComparatorFacts.

(** C4, as amended.  On operands that convert, [compareValues] returns a
    boolean: an ordering operator ([GT], [LT], [GTE], [LTE] and their
    symbols) gives [false] as soon as the numeric coercion of either operand
    is NaN, and an operator outside the documented tags gives [false].  On an
    operand that does not convert it raises, whatever the operator: the
    conversions are made before the operator is looked at.  Between values
    of the data the error is the [TypeError] of the conversion. *)
Theorem compareValues_total `{JSHost} (actual : reached)
  (operator expected : value) :
  (converts actual = true -> converts expected = true ->
   (exists b, compareValues actual operator expected = Ok b)
   /\ (forall op x y, operator = VString op -> In op orderingOperators ->
         reached_to_number actual = Ok x ->
         reached_to_number expected = Ok y ->
         isNaN x = true \/ isNaN y = true ->
         compareValues actual operator expected = Ok false)
   /\ ((forall op, In op documentedOperators -> operator <> VString op) ->
         compareValues actual operator expected = Ok false))
  /\ (converts actual = false \/ converts expected = false ->
      exists e,
        compareValues actual operator expected = Throw e
        /\ (forall v, actual = Data v -> e = conversion_error)).
Proof.
  split; [|apply compareValues_raises].
  intros Ha He. simpl in He.
  split; [now apply compareValues_returns|]. split.
  - intros op x y -> Hop Hx Hy Hnan. simpl in Hy.
    destruct (switch_case_ordering op Hop) as [c [Hc Hkind]].
    converted Hx Hy Ha He. rewrite Hc.
    destruct Hkind as [-> | [-> | [-> | ->]]]; f_equal;
      destruct Hnan as [-> | ->]; simpl; try reflexivity;
      now rewrite andb_false_r.
  - intros Hout.
    destruct (converts_number actual Ha) as [x Hx].
    destruct (to_number_convertible expected He) as [y Hy].
    converted Hx Hy Ha He.
    destruct (switch_case operator) as [c|] eqn:Hc; [|reflexivity].
    destruct (switch_case_documented _ _ Hc) as [op [-> Hin]].
    now destruct (Hout op Hin).
Qed.

Section ComparatorExamples.
#[local] Existing Instance exampleHost.

Lemma compareValues_total_witness :
  compareValues (VString "abc") (VString "GT") (VNumber 5%float)
    = Ok false
  /\ compareValues (VNumber 1%float) (VString "AFTER")
       (VNumber 1%float) = Ok false.
Proof.
  split.
  - apply (proj1 (proj2 (proj1 (compareValues_total
                                  (VString "abc") (VString "GT") (VNumber 5%float))
                           eq_refl eq_refl))
             "GT" (string_to_number "abc") 5%float).
    + reflexivity.
    + simpl. tauto.
    + reflexivity.
    + reflexivity.
    + left. vm_compute. reflexivity.
  - apply (proj2 (proj2 (proj1 (compareValues_total
                                  (VNumber 1%float) (VString "AFTER")
                                  (VNumber 1%float))
                           eq_refl eq_refl))).
    intros op Hin Heq. injection Heq as <-.
    simpl in Hin. intuition discriminate.
Defined.

(** C4, as stated, fails on an operand that does not convert to a primitive:
    an object that has a property [toString] of its own, which in data is no
    function, or an array that holds one.  [Number] and [String] throw on it
    before the operator is looked at, so the comparator raises under every
    operator, documented or not, and on either side. *)
Lemma compareValues_unconvertible_counterexample :
  compareValues (obj [("toString", VString "x")]) (VString "EQ")
    (VNumber 1%float)
  = Throw (TypeError "Cannot convert object to primitive value")
  /\ compareValues (VNumber 1%float) (VString "GT")
       (VArray [obj [("toString", VNull)]])
     = Throw (TypeError "Cannot convert object to primitive value")
  /\ compareValues (obj [("toString", VString "x")]) (VString "AFTER")
       (VNumber 1%float)
     = Throw (TypeError "Cannot convert object to primitive value").
Proof. repeat split; vm_compute; reflexivity. Qed.

End ComparatorExamples.

Section ContainsFacts.
Context `{JSHost}.

Lemma plainOperand_stringForm (r : reached) :
  plainOperand r = true ->
  (if reached_truthy r then text_of r else "") = stringForm r.
Proof.
  destruct r as [v|b]; [|reflexivity].
  unfold plainOperand, stringForm, reached_truthy, text_of.
  destruct v as [| |b|n|s|items|ps]; simpl; try reflexivity.
  - destruct b; [reflexivity | discriminate].
  - destruct (negb _); [reflexivity | discriminate].
  - rewrite orb_false_r. destruct (String.eqb s "") eqn:Hs; simpl.
    + intros _. apply String.eqb_eq in Hs. now subst.
    + reflexivity.
Qed.

End ContainsFacts.

(** C5, as amended.  On operands that convert and are truthy, the empty
    string, [null] or [undefined], [CONTAINS] returns [true] exactly when the
    lower-cased string form of [expected] occurs in the lower-cased string
    form of [actual], the string form of [null] and [undefined] being the
    empty text. *)
Theorem contains_is_substring_test `{JSHost} (actual : reached)
  (expected : value) :
  plainOperand actual = true ->
  plainOperand expected = true ->
  converts actual = true ->
  converts expected = true ->
  exists b,
    compareValues actual (VString "CONTAINS") expected = Ok b
    /\ (b = true <->
        substring_of (toLowerCase (stringForm expected))
                     (toLowerCase (stringForm actual))).
Proof.
  intros Hpa Hpe Ha He. simpl in He.
  destruct (converts_number actual Ha) as [x Hx].
  destruct (to_number_convertible expected He) as [y Hy].
  converted Hx Hy Ha He.
  change (switch_case (VString "CONTAINS")) with (Some OpCONTAINS). cbv iota.
  rewrite (plainOperand_stringForm actual Hpa).
  change (if truthy expected then string_of expected else "")
    with (if reached_truthy expected then text_of expected else "").
  rewrite (plainOperand_stringForm expected Hpe).
  eexists. split; [reflexivity|]. apply includes_spec.
Qed.

Section ContainsExamples.
#[local] Existing Instance exampleHost.

Lemma contains_is_substring_test_witness :
  exists b,
    compareValues (VString "Galaxy Gift") (VString "CONTAINS")
      (VString "GIFT") = Ok b
    /\ (b = true <->
        substring_of (toLowerCase (stringForm (VString "GIFT")))
                     (toLowerCase (stringForm (VString "Galaxy Gift")))).
Proof.
  apply (contains_is_substring_test
           (VString "Galaxy Gift") (VString "GIFT")); reflexivity.
Defined.

(** C5, as stated, fails on falsy operands: [false], [0] and [null] print as
    [false], [0] and [null], which contain the expected text, yet [CONTAINS]
    answers [false], because [actual || ""] turns each into the empty text
    before it is printed. *)
Lemma contains_falsy_counterexample :
  (compareValues (VBool false) (VString "CONTAINS") (VString "false") = Ok false
   /\ to_string (VBool false) = Ok "false"
   /\ substring_of (toLowerCase "false") (toLowerCase "false"))
  /\ (compareValues (VNumber 0%float) (VString "CONTAINS") (VString "0") = Ok false
      /\ to_string (VNumber 0%float) = Ok "0"
      /\ substring_of (toLowerCase "0") (toLowerCase "0"))
  /\ (compareValues VNull (VString "CONTAINS") (VString "null") = Ok false
      /\ to_string VNull = Ok "null"
      /\ substring_of (toLowerCase "null") (toLowerCase "null")).
Proof.
  repeat split; try (vm_compute; reflexivity);
    apply includes_spec; vm_compute; reflexivity.
Qed.

End ContainsExamples.

(** ** Field resolver *)

Lemma lookup_set_prop (k k' : string) (v : value) (ps : props) :
  lookup_prop k (set_prop k' v ps)
  = if String.eqb k' k then Some v else lookup_prop k ps.
Proof.
  induction ps as [|[k0 v0] ps IH]; simpl.
  - reflexivity.
  - destruct (lookup_prop k' ps) eqn:Hk'; simpl.
    + rewrite IH. destruct (String.eqb k' k) eqn:Hkk; [reflexivity|].
      reflexivity.
    + destruct (String.eqb k0 k') eqn:H0; simpl.
      * apply String.eqb_eq in H0. subst k0.
        destruct (String.eqb k' k) eqn:Hkk.
        -- apply String.eqb_eq in Hkk. subst k. now rewrite Hk'.
        -- reflexivity.
      * rewrite IH. destruct (String.eqb k' k) eqn:Hkk; [|reflexivity].
        reflexivity.
Qed.

Lemma lookup_assign (k : string) (source target : props) :
  lookup_prop k (assign target source)
  = match lookup_prop k source with
    | Some v => Some v
    | None => lookup_prop k target
    end.
Proof.
  unfold assign. revert target.
  induction source as [|[k0 v0] source IH]; intros target; simpl.
  - reflexivity.
  - rewrite IH. destruct (lookup_prop k source); [reflexivity|].
    rewrite lookup_set_prop. now destruct (String.eqb k0 k).
Qed.

Lemma merged_view_overlay (context : ExecutionContext) (k : string) :
  lookup_prop k (merged_view context) = overlay context k.
Proof.
  unfold merged_view, overlay. rewrite !lookup_assign. simpl.
  destruct (lookup_prop k (own_props (ctx_globals context))); [reflexivity|].
  destruct (lookup_prop k (ctx_event context)); [reflexivity|].
  now destruct (lookup_prop k (own_props (ctx_data context))).
Qed.

Lemma split_nonempty (sep : ascii) (s : string) : split sep s <> [].
Proof.
  destruct s as [|c s]; simpl; [discriminate|].
  destruct (Ascii.eqb c sep); [discriminate|].
  destruct (split sep s); discriminate.
Qed.

Lemma split_app (sep : ascii) (a b : string) :
  split sep (a ++ String sep b) = (split sep a ++ split sep b)%list.
Proof.
  induction a as [|c a IH]; simpl.
  - now rewrite Ascii.eqb_refl.
  - destruct (Ascii.eqb c sep); [now rewrite IH|].
    rewrite IH. pose proof (split_nonempty sep a) as Hne.
    destruct (split sep a); [contradiction | reflexivity].
Qed.

Lemma reach_undefined (parts : list string) : reach parts VUndefined = VUndefined.
Proof. induction parts; simpl; [reflexivity | assumption]. Qed.

Lemma reach_nullish (parts : list string) (v : value) :
  nullish v = true -> parts <> [] -> reach parts v = VUndefined.
Proof.
  intros Hv Hparts. destruct parts as [|part rest]; [contradiction|].
  destruct v; try discriminate; simpl; apply reach_undefined.
Qed.

Lemma reach_app (parts1 parts2 : list string) (v : value) :
  reach (parts1 ++ parts2)%list v = reach parts2 (reach parts1 v).
Proof. revert v; induction parts1; intros v; simpl; [reflexivity | apply IHparts1]. Qed.

Lemma get_defined (v : value) (k : string) :
  nullish v = false -> get v k = Ok (read v k).
Proof.
  unfold read. destruct v; simpl; try discriminate; try reflexivity; intros _.
  - now destruct (String.eqb k "length").
  - now destruct (String.eqb k "length").
Qed.

(** A property the value has itself is the one [get] reads. *)
Lemma own_property_read (v : value) (k : string) :
  read v k = match own_property v k with
             | Some x => x
             | None => VUndefined
             end.
Proof.
  unfold read. destruct v; simpl; try reflexivity.
  - destruct (String.eqb k "length"); [reflexivity|].
    now destruct (index_of_key k _).
  - destruct (String.eqb k "length"); [reflexivity|].
    now destruct (index_of_key k _).
Qed.

Section ResolverFacts.
Context `{JSHost}.

(** Under a name that nothing inherits, a step of the walk reads what the
    value has itself. *)
Lemma member_own (v : value) (k : string) :
  nullish v = false -> notInherited k ->
  member (Data v) k = Ok (Data (read v k)).
Proof.
  intros Hv Hk. rewrite own_property_read. unfold member.
  destruct (kind_of v) as [kd|] eqn:Hkd.
  - destruct (own_property v k); [reflexivity|]. now rewrite (Hk kd).
  - destruct v; discriminate.
Qed.

(** Under such a name [member] is [get]: this is how the engine's own
    reads, of names that no prototype defines, are read with [get]. *)
Lemma member_get (v : value) (k : string) :
  notInherited k ->
  member (Data v) k = bind (get v k) (fun x => Ok (Data x)).
Proof.
  intros Hk. destruct (nullish v) eqn:Hv.
  - now destruct v.
  - now rewrite (member_own v k Hv Hk), (get_defined v k Hv).
Qed.

Lemma walk_path_undefined (parts : list string) :
  walk_path parts (Data VUndefined) = Ok (Data VUndefined).
Proof. destruct parts; reflexivity. Qed.

Lemma walk_path_nullish (parts : list string) (v : value) :
  nullish v = true -> parts <> [] ->
  walk_path parts (Data v) = Ok (Data VUndefined).
Proof.
  intros Hv Hparts. destruct parts; [contradiction|].
  destruct v; try discriminate; reflexivity.
Qed.

(** The walk of a path goes on where the walk of its first part stopped. *)
Lemma walk_path_app (parts1 parts2 : list string) (r : reached) :
  walk_path (parts1 ++ parts2)%list r
  = bind (walk_path parts1 r) (walk_path parts2).
Proof.
  revert r; induction parts1 as [|part rest IH]; intros r; [reflexivity|].
  assert (Hstep :
    bind (member r part) (walk_path (rest ++ parts2)%list)
    = bind (bind (member r part) (walk_path rest)) (walk_path parts2)).
  { destruct (member r part) as [x|e]; [apply IH | reflexivity]. }
  destruct r as [[| | | | | |]|b]; simpl;
    try exact Hstep; now rewrite walk_path_undefined.
Qed.

(** The loop of [getValueFromPath] never reads a property of [null] or
    [undefined]; along names that nothing inherits it stays in the data. *)
Lemma walk_path_reach (parts : list string) (v : value) :
  Forall notInherited parts ->
  walk_path parts (Data v) = Ok (Data (reach parts v)).
Proof.
  intros Hparts. revert v.
  induction Hparts as [|part rest Hpart _ IH]; intros v; [reflexivity|].
  destruct (nullish v) eqn:Hv.
  - destruct v; try discriminate; simpl; now rewrite reach_undefined.
  - assert (Hstep : walk_path (part :: rest) (Data v)
                    = bind (member (Data v) part) (walk_path rest))
      by (destruct v; try discriminate; reflexivity).
    rewrite Hstep, (member_own v part Hv Hpart). apply IH.
Qed.

Lemma append_dot_nonempty (a b : string) :
  String.eqb (a ++ "." ++ b) "" = false.
Proof. destruct a; reflexivity. Qed.

Lemma getValueFromPath_parts (path : string) (context : ExecutionContext) :
  path <> "" ->
  getValueFromPath (VString path) context
  = walk_path (split "." path) (Data (obj (merged_view context))).
Proof.
  intros Hpath. unfold getValueFromPath. simpl.
  destruct (String.eqb path "") eqn:He; [|reflexivity].
  apply String.eqb_eq in He. contradiction.
Qed.

(** On a path whose parts nothing inherits, the resolver returns what the
    walk reaches in the data. *)
Lemma getValueFromPath_walk (path : string) (context : ExecutionContext) :
  Forall notInherited (split "." path) ->
  getValueFromPath (VString path) context
  = Ok (Data (if String.eqb path "" then VUndefined
              else reach (split "." path) (obj (merged_view context)))).
Proof.
  intros Hparts. unfold getValueFromPath. simpl.
  destruct (String.eqb path ""); simpl; [reflexivity | now apply walk_path_reach].
Qed.

(** The first step of the walk reads the overlays, and past them what an
    object inherits. *)
Lemma getValueFromPath_start (path : string) (context : ExecutionContext)
  (k : string) (rest : list string) :
  path <> "" -> split "." path = k :: rest ->
  getValueFromPath (VString path) context = walk_path rest (startOf context k).
Proof.
  intros Hpath Hsplit. rewrite (getValueFromPath_parts path context Hpath), Hsplit.
  unfold startOf. rewrite <- merged_view_overlay. simpl.
  destruct (lookup_prop k (merged_view context)); [reflexivity|].
  now destruct (inherited KObject k).
Qed.

Lemma getValueFromPath_prefix (context : ExecutionContext)
  (before after : string) (v : value) :
  before <> "" ->
  getValueFromPath (VString before) context = Ok (Data v) ->
  nullish v = true ->
  getValueFromPath (VString (before ++ "." ++ after)) context
  = Ok (Data VUndefined).
Proof.
  intros Hbefore Hwalk Hv.
  rewrite (getValueFromPath_parts before context Hbefore) in Hwalk.
  rewrite getValueFromPath_parts
    by (intros Hempty; apply (f_equal (fun s => String.eqb s "")) in Hempty;
        now rewrite append_dot_nonempty in Hempty).
  change (before ++ "." ++ after) with (before ++ String "." after).
  rewrite split_app, walk_path_app, Hwalk. simpl bind.
  apply walk_path_nullish; [assumption | apply split_nonempty].
Qed.

End ResolverFacts.


Section ResolverExamples.
#[local] Existing Instance exampleHost.

Lemma coins_not_inherited : Forall notInherited (split "." "coins").
Proof. repeat constructor. Qed.



(** On a shared key [globals] wins over the event record, which wins over
    [data]. *)
Example getValueFromPath_precedence :
  getValueFromPath (VString "coins") exampleContext = Ok (Data (VNumber 7%float))
  /\ getValueFromPath (VString "type") exampleContext = Ok (Data (VString "e1"))
  /\ getValueFromPath (VString "data.type") exampleContext
     = Ok (Data (VString "gift")).
Proof. repeat split; reflexivity. Qed.

End ResolverExamples.

(** ** Condition evaluator *)

Section EvaluatorFacts.
Context `{JSHost}.

Lemma mapM_Forall2 {A B} (f : A -> result B) (xs : list A) (ys : list B) :
  Forall2 (fun x y => f x = Ok y) xs ys -> mapM f xs = Ok ys.
Proof.
  induction 1 as [|x y xs ys Hxy _ IH]; simpl; [reflexivity|].
  now rewrite Hxy, IH.
Qed.

Lemma mapM_raises {A B} (f : A -> result B) (xs : list A) :
  Exists (fun x => exists e, f x = Throw e) xs ->
  exists e, mapM f xs = Throw e.
Proof.
  induction 1 as [x xs [e He]|x xs _ [e IH]]; simpl.
  - rewrite He. exists e. reflexivity.
  - destruct (f x) as [y|e']; simpl; [|exists e'; reflexivity].
    rewrite IH. exists e. reflexivity.
Qed.

Lemma conditions_evaluate (conditions : list value) (context : ExecutionContext) :
  Forall (fun c => exists r, evaluateSimpleCondition c context = Ok r) conditions ->
  exists results,
    Forall2 (fun c r => evaluateSimpleCondition c context = Ok r) conditions results.
Proof.
  induction 1 as [|c cs [r Hr] _ [rs IH]].
  - exists []. constructor.
  - exists (r :: rs). now constructor.
Qed.

Lemma all_true_results (context : ExecutionContext) (conditions : list value)
  (results : list bool) :
  Forall2 (fun c r => evaluateSimpleCondition c context = Ok r) conditions results ->
  forallb (fun r => Bool.eqb r true) results = true
  <-> Forall (fun c => evaluateSimpleCondition c context = Ok true) conditions.
Proof.
  induction 1 as [|c r cs rs Hcr _ IH]; simpl.
  - split; [constructor | reflexivity].
  - rewrite andb_true_iff, IH. split.
    + intros [Hr Hall]. destruct r; [|discriminate]. now constructor.
    + intros Hall. inversion Hall as [|? ? Hc Hcs]; subst.
      rewrite Hcr in Hc. injection Hc as ->. now split.
Qed.

Lemma some_true_result (context : ExecutionContext) (conditions : list value)
  (results : list bool) :
  Forall2 (fun c r => evaluateSimpleCondition c context = Ok r) conditions results ->
  existsb (fun r => Bool.eqb r true) results = true
  <-> Exists (fun c => evaluateSimpleCondition c context = Ok true) conditions.
Proof.
  induction 1 as [|c r cs rs Hcr _ IH]; simpl.
  - split; [discriminate | intros Hex; inversion Hex].
  - rewrite orb_true_iff, IH. split.
    + intros [Hr|Hex]; [left | now right].
      destruct r; [assumption | discriminate].
    + intros Hex. inversion Hex as [? ? Hc|? ? Hcs]; subst; [left | now right].
      rewrite Hcr in Hc. now injection Hc as ->.
Qed.

(** A group with conditions comes to evaluating each of them, in order. *)
Lemma evaluateGroupCondition_conditions (config : props)
  (context : ExecutionContext) (c : value) (cs : list value) :
  groupConditions config = VArray (c :: cs) ->
  evaluateGroupCondition (obj config) context
  = bind (mapM (fun cond => evaluateSimpleCondition cond context) (c :: cs))
      (fun results =>
         if is_string (groupLogic config) "AND"
         then Ok (forallb (fun r => Bool.eqb r true) results)
         else if is_string (groupLogic config) "OR"
         then Ok (existsb (fun r => Bool.eqb r true) results)
         else Ok false).
Proof.
  intros Hconds. unfold evaluateGroupCondition. simpl.
  fold (prop_of config "logic"). fold (prop_of config "conditions").
  fold (groupLogic config). fold (groupConditions config).
  rewrite Hconds. reflexivity.
Qed.

Lemma evaluateGroupCondition_empty (config : props) (context : ExecutionContext) :
  groupConditions config = VArray [] ->
  evaluateGroupCondition (obj config) context = Ok true.
Proof.
  intros Hconds. unfold evaluateGroupCondition. simpl.
  fold (prop_of config "logic"). fold (prop_of config "conditions").
  fold (groupLogic config). fold (groupConditions config).
  rewrite Hconds. reflexivity.
Qed.

(** A condition that raises makes its group raise. *)
Lemma evaluateGroupCondition_raises (config : props)
  (context : ExecutionContext) (conditions : list value) :
  groupConditions config = VArray conditions ->
  Exists (fun c => exists e, evaluateSimpleCondition c context = Throw e)
    conditions ->
  exists e, evaluateGroupCondition (obj config) context = Throw e.
Proof.
  intros Hconds Hex.
  destruct conditions as [|c cs]; [inversion Hex|].
  rewrite (evaluateGroupCondition_conditions config context c cs Hconds).
  destruct (mapM_raises _ _ Hex) as [e ->]. exists e. reflexivity.
Qed.

End EvaluatorFacts.

(** C7, as amended.  A grouped configuration with no condition evaluates to
    [true].  When every condition of the list evaluates, as a simple
    condition, without raising, the group returns a boolean: under [AND],
    [true] exactly when every one of them is true, and under [OR] exactly when
    at least one is.  When one of them raises, the group raises, whatever the
    logic and whatever the others give. *)
Theorem evaluateGroupCondition_logic `{JSHost} (config : props)
  (context : ExecutionContext) (conditions : list value) :
  groupConditions config = VArray conditions ->
  (conditions = [] -> evaluateGroupCondition (obj config) context = Ok true)
  /\ (Forall (fun c => exists r, evaluateSimpleCondition c context = Ok r)
        conditions ->
      exists b,
        evaluateGroupCondition (obj config) context = Ok b
        /\ (conditions <> [] -> groupLogic config = VString "AND" ->
            (b = true <->
             Forall (fun c => evaluateSimpleCondition c context = Ok true)
               conditions))
        /\ (conditions <> [] -> groupLogic config = VString "OR" ->
            (b = true <->
             Exists (fun c => evaluateSimpleCondition c context = Ok true)
               conditions)))
  /\ (Exists (fun c => exists e, evaluateSimpleCondition c context = Throw e)
        conditions ->
      exists e, evaluateGroupCondition (obj config) context = Throw e).
Proof.
  intros Hconds. split; [|split].
  - intros ->. now apply evaluateGroupCondition_empty.
  - intros Hreturn.
    destruct (conditions_evaluate conditions context Hreturn) as [results Hres].
    destruct conditions as [|c cs].
    + exists true. split; [now apply evaluateGroupCondition_empty|].
      split; intros; congruence.
    + rewrite (evaluateGroupCondition_conditions config context c cs Hconds).
      rewrite (mapM_Forall2 _ _ _ Hres). cbn [bind].
      destruct (is_string (groupLogic config) "AND") eqn:Hand.
      * eexists. split; [reflexivity|]. split.
        -- intros _ _. apply (all_true_results context (c :: cs) results Hres).
        -- intros _ Hor. rewrite Hor in Hand. discriminate.
      * destruct (is_string (groupLogic config) "OR") eqn:Hor.
        -- eexists. split; [reflexivity|]. split.
           ++ intros _ Hl. rewrite Hl in Hand. discriminate.
           ++ intros _ _. apply (some_true_result context (c :: cs) results Hres).
        -- eexists. split; [reflexivity|]. split.
           ++ intros _ Hl. rewrite Hl in Hand. discriminate.
           ++ intros _ Hl. rewrite Hl in Hor. discriminate.
  - now apply evaluateGroupCondition_raises.
Qed.

Section EvaluatorExamples.
#[local] Existing Instance exampleHost.

Lemma evaluateGroupCondition_logic_witness :
  exists b,
    evaluateGroupCondition (obj (exampleGroup "AND")) exampleContext = Ok b
    /\ (b = true <->
        Forall (fun c => evaluateSimpleCondition c exampleContext = Ok true)
          [obj [("field", VString "coins"); ("operator", VString "GTE");
                ("value", VNumber 5%float)];
           obj [("field", VString "type"); ("operator", VString "EQ");
                ("value", VString "e1")]]).
Proof.
  destruct (proj1 (proj2 (evaluateGroupCondition_logic (exampleGroup "AND")
                            exampleContext _ eq_refl))
              ltac:(repeat constructor; eexists; vm_compute; reflexivity))
    as [b [Hb [Hand _]]].
  exists b. split; [exact Hb|]. apply Hand; [discriminate | reflexivity].
Defined.

(** C7, as stated, fails when a condition raises.  Both conditions of
    [shadowedGroup] are simple triples and the first is true, so that under
    [OR] the group should be true; but the value of the second does not
    convert to a primitive, its comparison raises, and the group, which
    evaluates every condition before it combines them, raises with it. *)
Lemma evaluateGroupCondition_raising_counterexample :
  groupLogic shadowedGroup = VString "OR"
  /\ (exists c1 c2,
        groupConditions shadowedGroup = VArray [c1; c2]
        /\ simpleTriple c1 = true /\ simpleTriple c2 = true
        /\ evaluateSimpleCondition c1 exampleContext = Ok true)
  /\ evaluateGroupCondition (obj shadowedGroup) exampleContext
     = Throw (TypeError "Cannot convert object to primitive value").
Proof.
  split; [reflexivity|]. split.
  - eexists. eexists. split; [reflexivity|]. repeat split; vm_compute; reflexivity.
  - vm_compute. reflexivity.
Qed.

Example evaluateGroupCondition_examples :
  evaluateGroupCondition (obj (exampleGroup "AND")) exampleContext = Ok true
  /\ evaluateGroupCondition (obj (exampleGroup "OR")) exampleContext = Ok true
  /\ evaluateGroupCondition (obj [("logic", VString "OR"); ("conditions", VArray [])])
       exampleContext = Ok true
  /\ evaluateGroupCondition
       (obj [("logic", VString "AND");
             ("conditions",
              VArray [obj [("field", VString "coins"); ("operator", VString "LT");
                           ("value", VNumber 5%float)]])])
       exampleContext = Ok false.
Proof. repeat split; vm_compute; reflexivity. Qed.

End EvaluatorExamples.

(** ** Node execution *)

Section NodeFacts.
Context `{JSHost}.
Variable clock : Clock.

Lemma engine_log_addLogs (suffix : string) (lvl : LogLevel) (msg : string)
  (det : value) (st : ExecState) :
  exists entry,
    engine_log clock suffix lvl msg det st = (Ok tt, addLogs st [entry])
    /\ level entry = lvl /\ message entry = msg /\ details entry = det.
Proof. eexists. split; [reflexivity|]. repeat split. Qed.

Lemma addLogs_addLogs (st : ExecState) (l1 l2 : list LogEntry) :
  addLogs (addLogs st l1) l2 = addLogs st (l1 ++ l2)%list.
Proof. unfold addLogs. simpl. now rewrite <- app_assoc. Qed.

Lemma addLogs_nil (st : ExecState) : addLogs st [] = st.
Proof. destruct st. unfold addLogs. simpl. now rewrite app_nil_r. Qed.

(** A property read that succeeded was not on [null] or [undefined], and
    then no property read fails. *)
Lemma get_Ok_all (v : value) (k : string) (x : value) :
  get v k = Ok x -> forall k', get v k' = Ok (read v k').
Proof.
  intros Hget k'. apply get_defined. now destruct v.
Qed.

Lemma get_Throw_all (v : value) (k : string) (e : exn) :
  get v k = Throw e -> forall k', exists e', get v k' = Throw e'.
Proof.
  destruct v; simpl; try discriminate.
  - intros _ k'. eexists. reflexivity.
  - intros _ k'. eexists. reflexivity.
  - destruct (String.eqb k "length"); discriminate.
  - destruct (String.eqb k "length"); discriminate.
Qed.

Lemma mapM_defined {B} (f : value -> result B) (items : list value) (ys : list B) :
  (forall a, nullish a = true -> exists e, f a = Throw e) ->
  mapM f items = Ok ys -> Forall (fun a => nullish a = false) items.
Proof.
  intros Hf. revert ys. induction items as [|a items IH]; intros ys; simpl.
  - constructor.
  - destruct (f a) as [y|e] eqn:Hfa; simpl; [|discriminate].
    destruct (mapM f items) as [ys'|e] eqn:Hrest; simpl; [|discriminate].
    intros _. constructor; [|now apply (IH ys')].
    destruct (nullish a) eqn:Hn; [|reflexivity].
    destruct (Hf a Hn) as [e He]. congruence.
Qed.

(** The entries of the engine other than that of the iteration cap. *)
Lemma timeoutLogged_app (l1 l2 : list LogEntry) :
  timeoutLogged (l1 ++ l2) = timeoutLogged l1 || timeoutLogged l2.
Proof. apply existsb_app. Qed.

(** The loop over the actions logs one entry per action, until the type of
    one fails to print. *)
Lemma executeActions_effect (items : list value) (i : nat)
  (context : ExecutionContext) (st : ExecState) :
  exists r new,
    timeoutLogged new = false
    /\ executeActions clock items i context st = (r, addLogs st new).
Proof.
  revert i st. induction items as [|a items IH]; intros i st; simpl.
  - exists (Ok tt), []. now rewrite addLogs_nil.
  - unfold executeSingleAction, bindE, lift.
    destruct (get a "type") as [ty|e] eqn:Hty;
      [|exists (Throw e), []; now rewrite addLogs_nil].
    destruct (to_string ty) as [shown|e];
      [|exists (Throw e), []; now rewrite addLogs_nil].
    rewrite !(get_Ok_all _ _ _ Hty).
    unfold engine_log, addLog.
    match goal with
    | |- context [executeActions clock items (S i) context ?s] =>
        destruct (IH (S i) s) as [r [new [Hcap Hrun]]]
    end.
    rewrite Hrun. exists r. eexists. split; cycle 1.
    + unfold addLogs. simpl. rewrite <- app_assoc. reflexivity.
    + simpl. exact Hcap.
Qed.

(** What the kind-specific step of a node does to the state: it raises,
    having at most logged, or it returns, having logged and recorded the
    node's outcome. *)
Lemma executeKind_effect (node : WorkflowNode) (context : ExecutionContext)
  (st : ExecState) :
  (exists e new,
      timeoutLogged new = false
      /\ executeKind clock node context st = (Throw e, addLogs st new))
  \/ (exists b new,
        executeKind clock node context st
        = (Ok tt, {| st_logs := st_logs st ++ new;
                     st_executed := st_executed st;
                     st_conditions := <[id node := b]> (st_conditions st) |})).
Proof.
  assert (Hraise : forall e, exists e' new,
            timeoutLogged new = false
            /\ (@Throw unit e, st) = (Throw e', addLogs st new)).
  { intros e. exists e, []. now rewrite addLogs_nil. }
  unfold executeKind. destruct (type node).
  - (* TRIGGER *)
    unfold executeTrigger, bindE, lift.
    destruct (get (data node) "eventType") as [et|e] eqn:Het; [|left; apply Hraise].
    rewrite !(get_Ok_all _ _ _ Het).
    destruct (to_string (read (data node) "name")); [|left; apply Hraise].
    right. exists true. eexists. reflexivity.
  - (* CONDITION *)
    unfold executeCondition, bindE, lift.
    destruct (get (data node) "mode") as [md|e] eqn:Hmd; [|left; apply Hraise].
    match goal with
    | |- context [match ?r with Ok _ => _ | Throw _ => _ end] =>
        destruct r as [passed|e]
    end; [|left; apply Hraise].
    right. exists passed. eexists. reflexivity.
  - (* ACTION *)
    unfold executeAction, bindE, lift.
    destruct (get (data node) "actions") as [acts|e] eqn:Hacts; [|left; apply Hraise].
    rewrite !(get_Ok_all _ _ _ Hacts).
    destruct (or_else acts (VArray [])) as [| | | | |items|];
      try (left;
           repeat match goal with
                  | |- context [match ?r with Ok _ => _ | Throw _ => _ end] =>
                      destruct r
                  end; apply Hraise).
    destruct (to_string _) as [shown|e]; [|left; apply Hraise].
    match goal with
    | |- context [mapM ?f items] => destruct (mapM f items) as [summary|e] eqn:Hmap
    end; [|left; apply Hraise].
    unfold engine_log at 1. unfold addLog. simpl.
    match goal with
    | |- context [executeActions clock items 0 context ?s] =>
        destruct (executeActions_effect items 0 context s) as [r [new [Hcap Hnew]]];
        rewrite Hnew
    end.
    destruct r as [[]|e].
    + right. exists true. eexists. unfold engine_log, addLog, set_condition, addLogs.
      simpl. rewrite <- !app_assoc. reflexivity.
    + left. exists e. eexists. split; cycle 1.
      * unfold addLogs. simpl. rewrite <- app_assoc. reflexivity.
      * simpl. exact Hcap.
Qed.

(** [executeNode] returns, whatever the node does. *)
Lemma executeNode_effect (node : WorkflowNode) (context : ExecutionContext)
  (st : ExecState) :
  (exists e new,
      timeoutLogged new = false
      /\ executeKind clock node context (snd (logStart clock node st))
         = (Throw e, addLogs (snd (logStart clock node st)) new)
      /\ executeNode clock node context st
         = (Ok tt, snd (logError clock node e
                          (addLogs (snd (logStart clock node st)) new))))
  \/ (exists b new st1,
        executeKind clock node context (snd (logStart clock node st)) = (Ok tt, st1)
        /\ executeNode clock node context st
           = (Ok tt, {| st_logs := st_logs st ++ new;
                        st_executed := set_add (id node) (st_executed st);
                        st_conditions := <[id node := b]> (st_conditions st) |})).
Proof.
  unfold executeNode, bindE, try_catchE.
  destruct (logStart clock node st) as [r st1] eqn:Hstart.
  assert (Hst1 : r = Ok tt /\ exists entry, st1 = addLogs st [entry]).
  { unfold logStart, engine_log, addLog in Hstart. injection Hstart as <- <-.
    split; [reflexivity|]. eexists. reflexivity. }
  destruct Hst1 as [-> [entry ->]]. simpl snd.
  destruct (executeKind_effect node context (addLogs st [entry]))
    as [[e [new [Hcap He]]]|[b [new Hok]]].
  - left. exists e, new. split; [exact Hcap|]. split; [exact He|]. rewrite He.
    unfold logError, engine_log, addLog. reflexivity.
  - right. rewrite Hok. exists b, (entry :: new). eexists.
    split; [reflexivity|].
    unfold add_executed. simpl. rewrite <- app_assoc. reflexivity.
Qed.

Lemma executeNode_returns (node : WorkflowNode) (context : ExecutionContext)
  (st : ExecState) :
  exists st', executeNode clock node context st = (Ok tt, st').
Proof.
  destruct (executeNode_effect node context st)
    as [[e [new [_ [_ ->]]]]|[b [new [st1 [_ ->]]]]]; eexists; reflexivity.
Qed.

(** *** Propagation never raises *)

Lemma propagatePass_returns (ex : Executor) (context : ExecutionContext)
  (nodes : list WorkflowNode) (changed : bool) (st : ExecState) :
  exists changed' st',
    propagatePass clock ex context nodes changed st = (Ok changed', st').
Proof.
  revert changed st. induction nodes as [|node rest IH]; intros changed st; simpl.
  - now exists changed, st.
  - unfold bindE, get_state. destruct (ready ex node st); [|apply IH].
    destruct (executeNode_returns node context st) as [st1 ->]. apply IH.
Qed.

Lemma propagateLoop_returns (fuel : nat) (ex : Executor)
  (context : ExecutionContext) (changed : bool) (iterations : nat)
  (st : ExecState) :
  exists iterations' st',
    propagateLoop clock fuel ex context changed iterations st
    = (Ok iterations', st').
Proof.
  revert changed iterations st.
  induction fuel as [|fuel IH]; intros changed iterations st; simpl.
  - now exists iterations, st.
  - destruct (changed && Nat.ltb iterations maxIterations).
    + unfold bindE.
      destruct (propagatePass_returns ex context (ex_nodes ex) false st)
        as [changed' [st1 ->]]. apply IH.
    + now exists iterations, st.
Qed.

Lemma propagateExecution_returns (ex : Executor) (context : ExecutionContext)
  (st : ExecState) :
  exists st', propagateExecution clock ex context st = (Ok tt, st').
Proof.
  unfold propagateExecution, bindE.
  destruct (propagateLoop_returns maxIterations ex context true 0 st)
    as [iterations [st1 ->]].
  destruct (Nat.leb maxIterations iterations); eexists; reflexivity.
Qed.

(** The trigger loop raises only when a trigger matcher does. *)
Lemma executeTriggers_returns (triggerNodes : list WorkflowNode)
  (event : TestEvent) (context : ExecutionContext) (st : ExecState) :
  (forall t, In t triggerNodes -> exists b, shouldExecuteTrigger t event = Ok b) ->
  exists st', executeTriggers clock triggerNodes event context st = (Ok tt, st').
Proof.
  revert st. induction triggerNodes as [|t rest IH]; intros st Hmatch; simpl.
  - now exists st.
  - unfold bindE, lift.
    destruct (Hmatch t (or_introl eq_refl)) as [fire ->].
    assert (Hrest : forall t', In t' rest ->
                      exists b, shouldExecuteTrigger t' event = Ok b).
    { intros t' Ht'. apply Hmatch. now right. }
    destruct fire.
    + destruct (executeNode_returns t context st) as [st1 ->]. now apply IH.
    + simpl. now apply IH.
Qed.

(** ... and it does raise when one does. *)
Lemma executeTriggers_raises (triggerNodes : list WorkflowNode)
  (event : TestEvent) (context : ExecutionContext) (st : ExecState) :
  (exists t e, In t triggerNodes /\ shouldExecuteTrigger t event = Throw e) ->
  exists e st', executeTriggers clock triggerNodes event context st = (Throw e, st').
Proof.
  revert st. induction triggerNodes as [|t rest IH]; intros st [t0 [e0 [Hin Hraise]]].
  - destruct Hin.
  - simpl. unfold bindE, lift.
    destruct (shouldExecuteTrigger t event) as [fire|e] eqn:Hmatch.
    + assert (Hrest : exists t1 e1, In t1 rest /\ shouldExecuteTrigger t1 event = Throw e1).
      { destruct Hin as [<-|Hin]; [congruence|]. now exists t0, e0. }
      destruct fire.
      * destruct (executeNode_returns t context st) as [st1 ->]. now apply IH.
      * simpl. now apply IH.
    + now exists e, st.
Qed.

End NodeFacts.

(** C3.  When the kind-specific step of a node raises, [executeNode] catches
    the error: it returns, the trace gains one entry, of level [ERROR], after
    what it held when the step raised, and the executed set and the recorded
    outcomes are as they were before the node was tried.  The propagation
    loop built on it never raises either, and a run returns a result as soon
    as no trigger matcher raises. *)
Theorem executeNode_contains_errors `{JSHost} (clock : Clock)
  (node : WorkflowNode) (context : ExecutionContext) (st : ExecState) :
  (exists st',
      executeNode clock node context st = (Ok tt, st')
      /\ forall e st1,
           executeKind clock node context (snd (logStart clock node st))
           = (Throw e, st1) ->
           (exists entry,
               st_logs st' = (st_logs st1 ++ [entry])%list
               /\ level entry = ERROR)
           /\ st_executed st' = st_executed st
           /\ st_conditions st' = st_conditions st)
  /\ (forall ex, exists st', propagateExecution clock ex context st = (Ok tt, st'))
  /\ (forall ex event,
        (forall t, In t (findTriggerNodes ex) ->
                   exists b, shouldExecuteTrigger t event = Ok b) ->
        exists r st', execute clock ex event st = (Ok r, st')).
Proof.
  split; [|split].
  - destruct (executeNode_effect clock node context st)
      as [[e0 [new [_ [Hkind Hnode]]]]|[b [new [st2 [Hkind Hnode]]]]].
    + eexists. split; [exact Hnode|].
      intros e st1 Hthrow. rewrite Hkind in Hthrow.
      injection Hthrow as <- <-. split; [|split; reflexivity].
      eexists. split; reflexivity.
    + eexists. split; [exact Hnode|].
      intros e st1 Hthrow. rewrite Hkind in Hthrow. discriminate.
  - intros ex. apply propagateExecution_returns.
  - intros ex event Hmatch. unfold execute, bindE, reset.
    destruct (Nat.eqb (List.length (findTriggerNodes ex)) 0).
    + eexists. eexists. reflexivity.
    + match goal with
      | |- context [executeTriggers clock ?ts ?ev ?ctx ?s] =>
          destruct (executeTriggers_returns clock ts ev ctx s Hmatch) as [st1 ->]
      end.
      destruct (propagateExecution_returns clock ex
                  {| ctx_event := event;
                     ctx_data := or_else (prop_of event "data") (obj []);
                     ctx_globals := or_else (prop_of event "globals") (obj []);
                     ctx_variables := obj [] |} st1) as [st2 ->].
      eexists. eexists. reflexivity.
Qed.


Section NodeExamples.
#[local] Existing Instance exampleHost.

Lemma executeNode_contains_errors_witness :
  exists st',
    executeNode exampleClock brokenNode exampleContext fresh_state = (Ok tt, st')
    /\ st_executed st' = []
    /\ exists entry, last (st_logs st') = Some entry /\ level entry = ERROR.
Proof.
  destruct (proj1 (executeNode_contains_errors exampleClock brokenNode
                     exampleContext fresh_state)) as [st' [Hrun Hcatch]].
  exists st'. split; [exact Hrun|].
  edestruct Hcatch as [[entry [Hlogs Hlevel]] [Hexecuted _]]; [reflexivity|].
  split; [exact Hexecuted|].
  exists entry. split; [|exact Hlevel].
  rewrite Hlogs. apply last_snoc.
Defined.

End NodeExamples.

(** ** The outcome of a run *)

Section RunFacts.
Context `{JSHost}.
Variable clock : Clock.

Lemma execute_without_trigger (ex : Executor) (event : TestEvent)
  (st : ExecState) :
  findTriggerNodes ex = [] ->
  exists r st',
    execute clock ex event st = (Ok r, st')
    /\ success r = false
    /\ error r = Some "No trigger nodes found"
    /\ executedNodes r = [].
Proof.
  intros Hnone. unfold execute, bindE, reset. rewrite Hnone.
  eexists. eexists. split; [reflexivity|]. repeat split.
Qed.

Lemma execute_with_trigger (ex : Executor) (event : TestEvent) (st : ExecState) :
  findTriggerNodes ex <> [] ->
  execute clock ex event st
  = bindE (executeTriggers clock (findTriggerNodes ex) event (contextOf event))
      (fun _ => bindE (propagateExecution clock ex (contextOf event))
                  (fun _ => bindE get_state (fun st' => ret (successResult st'))))
      fresh_state.
Proof.
  intros Hsome. unfold execute, bindE, reset.
  destruct (findTriggerNodes ex) as [|t ts]; [contradiction | reflexivity].
Qed.

End RunFacts.

(** C2, as amended.  Without an enabled trigger node a run returns
    [success = false], the error [No trigger nodes found] and no executed
    node.  A run that returns has [success = false] exactly in that case.
    With an enabled trigger node, a run returns, and with [success = true],
    whenever no trigger matcher raises; when one raises, so does the run. *)
Theorem execute_success `{JSHost} (clock : Clock) (nodes : list WorkflowNode)
  (connections : list Connection) (event : TestEvent) :
  (findTriggerNodes (new_WorkflowExecutor nodes connections) = [] ->
   exists r st',
     executeWorkflow clock nodes connections event = (Ok r, st')
     /\ success r = false
     /\ error r = Some "No trigger nodes found"
     /\ executedNodes r = [])
  /\ (forall r st',
        executeWorkflow clock nodes connections event = (Ok r, st') ->
        (success r = false
         <-> findTriggerNodes (new_WorkflowExecutor nodes connections) = []))
  /\ (findTriggerNodes (new_WorkflowExecutor nodes connections) <> [] ->
      (forall t, In t (findTriggerNodes (new_WorkflowExecutor nodes connections)) ->
                 exists b, shouldExecuteTrigger t event = Ok b) ->
      exists r st',
        executeWorkflow clock nodes connections event = (Ok r, st')
        /\ success r = true)
  /\ ((exists t e,
         In t (findTriggerNodes (new_WorkflowExecutor nodes connections))
         /\ shouldExecuteTrigger t event = Throw e) ->
      exists e st',
        executeWorkflow clock nodes connections event = (Throw e, st')).
Proof.
  unfold executeWorkflow.
  destruct (findTriggerNodes (new_WorkflowExecutor nodes connections))
    as [|t ts] eqn:Htriggers.
  - pose proof (execute_without_trigger clock _ event fresh_state Htriggers)
      as [r [st' [Hrun Hr]]].
    split; [|split; [|split]].
    + intros _. now exists r, st'.
    + intros r0 st0. rewrite Hrun. intros Heq. injection Heq as <- _.
      destruct Hr as [-> _]. tauto.
    + intros Hne. now destruct Hne.
    + intros [t [e [[] _]]].
  - assert (Hne : findTriggerNodes (new_WorkflowExecutor nodes connections) <> [])
      by (rewrite Htriggers; discriminate).
    rewrite (execute_with_trigger clock _ event fresh_state Hne), Htriggers.
    unfold bindE. split; [discriminate|]. split; [|split].
    + intros r st'.
      destruct (executeTriggers clock (t :: ts) event (contextOf event) fresh_state)
        as [[[]|e] st1]; [|discriminate].
      destruct (propagateExecution_returns clock (new_WorkflowExecutor nodes connections)
                  (contextOf event) st1) as [st2 ->].
      unfold get_state, ret. intros Hrun. injection Hrun as <- _. simpl.
      split; discriminate.
    + intros _ Hmatch.
      destruct (executeTriggers_returns clock (t :: ts) event (contextOf event)
                  fresh_state Hmatch) as [st1 ->].
      destruct (propagateExecution_returns clock (new_WorkflowExecutor nodes connections)
                  (contextOf event) st1) as [st2 ->].
      eexists. eexists. split; reflexivity.
    + intros Hraise.
      destruct (executeTriggers_raises clock (t :: ts) event (contextOf event)
                  fresh_state Hraise) as [e [st1 ->]].
      now exists e, st1.
Qed.

(** A trigger whose event type is a number makes the run raise, on any host
    and at any time. *)
Lemma numeric_trigger_run `{JSHost} (clock : Clock) :
  fst (executeWorkflow clock [numericTrigger] [] exampleEvent)
  = Throw (TypeError "eventType.includes is not a function").
Proof. vm_compute. reflexivity. Qed.

Section RunExamples.
#[local] Existing Instance exampleHost.

Lemma execute_success_witness :
  exists r st',
    executeWorkflow exampleClock [anyTrigger] [] exampleEvent = (Ok r, st')
    /\ success r = true.
Proof.
  apply (proj1 (proj2 (proj2 (execute_success exampleClock [anyTrigger] []
                                exampleEvent)))).
  - discriminate.
  - intros t [<-|[]]. eexists. reflexivity.
Defined.

(** C2, as stated, fails when a trigger matcher raises: nothing catches the
    error, and the run ends with it instead of a result.  A trigger whose
    event type is a number has no [includes]; one whose pattern is not a
    regular expression makes [new RegExp] raise. *)
Lemma execute_matcher_counterexample :
  findTriggerNodes (new_WorkflowExecutor [numericTrigger] []) <> []
  /\ fst (executeWorkflow exampleClock [numericTrigger] [] exampleEvent)
     = Throw (TypeError "eventType.includes is not a function")
  /\ fst (executeWorkflow exampleClock [unclosedGroupTrigger] [] exampleEvent)
     = Throw (SyntaxError "Invalid regular expression: /^(.*$/").
Proof.
  split; [discriminate|]. split.
  - exact (numeric_trigger_run exampleClock).
  - vm_compute. reflexivity.
Qed.

End RunExamples.

(** ** The propagation loop *)

Section LoopFacts.
Context `{JSHost}.
Variable clock : Clock.
Variable ex : Executor.
Variable context : ExecutionContext.

(** The loop never runs out of fuel: once the fuel covers the passes that
    [maxIterations] still allows, more of it changes nothing. *)
Lemma propagateLoop_fuel (fuel fuel' : nat) (changed : bool) (iterations : nat)
  (st : ExecState) :
  maxIterations <= iterations + fuel ->
  maxIterations <= iterations + fuel' ->
  propagateLoop clock fuel ex context changed iterations st
  = propagateLoop clock fuel' ex context changed iterations st.
Proof.
  revert fuel' changed iterations st.
  induction fuel as [|fuel IH]; intros fuel' changed iterations st Hfuel Hfuel'.
  - destruct fuel' as [|fuel']; [reflexivity|]. cbn [propagateLoop].
    rewrite (proj2 (Nat.ltb_ge iterations maxIterations)) by lia.
    now rewrite andb_false_r.
  - cbn [propagateLoop].
    destruct (changed && Nat.ltb iterations maxIterations) eqn:Htest.
    + destruct fuel' as [|fuel'].
      * apply andb_true_iff in Htest. destruct Htest as [_ Hlt].
        apply Nat.ltb_lt in Hlt. lia.
      * cbn [propagateLoop]. rewrite Htest. unfold bindE.
        apply andb_true_iff in Htest. destruct Htest as [_ Hlt].
        apply Nat.ltb_lt in Hlt.
        destruct (propagatePass clock ex context (ex_nodes ex) false st)
          as [[changed'|e] st1]; [|reflexivity].
        apply IH; lia.
    + destruct fuel' as [|fuel']; [reflexivity|]. cbn [propagateLoop].
      now rewrite Htest.
Qed.

Lemma set_has_set_add (x y : string) (s : list string) :
  set_has x (set_add y s) = String.eqb x y || set_has x s.
Proof.
  unfold set_add, set_has.
  destruct (existsb (String.eqb y) s) eqn:Hy.
  - destruct (String.eqb x y) eqn:Hxy; [|reflexivity].
    apply String.eqb_eq in Hxy. subst. now rewrite Hy.
  - rewrite existsb_app. simpl. rewrite orb_false_r. apply orb_comm.
Qed.

Lemma ready_true (node : WorkflowNode) (st : ExecState) :
  ready ex node st = true <->
  set_has (id node) (st_executed st) = false
  /\ NodeType_eqb (type node) TRIGGER = false
  /\ parentConnections ex node <> []
  /\ forallb (fun c => set_has (sourceId c) (st_executed st))
             (parentConnections ex node) = true
  /\ existsb (fun c => nodePassedCondition ex (sourceId c) st)
             (parentConnections ex node) = true.
Proof.
  unfold ready.
  destruct (set_has (id node) (st_executed st)); [intuition discriminate|].
  destruct (NodeType_eqb (type node) TRIGGER); [intuition discriminate|].
  destruct (parentConnections ex node) as [|c cs] eqn:Hparents.
  - simpl. intuition (discriminate || congruence).
  - change (Nat.eqb (List.length (c :: cs)) 0) with false.
    generalize (forallb (fun c0 => set_has (sourceId c0) (st_executed st)) (c :: cs)).
    generalize (existsb (fun c0 => nodePassedCondition ex (sourceId c0) st) (c :: cs)).
    intros [] []; simpl; intuition easy.
Qed.

(** The gates read the executed set and the recorded outcomes, not the
    trace. *)
Lemma ready_ext (node : WorkflowNode) (s1 s2 : ExecState) :
  st_executed s1 = st_executed s2 ->
  st_conditions s1 = st_conditions s2 ->
  ready ex node s1 = ready ex node s2.
Proof.
  intros He Hc. unfold ready, nodePassedCondition. now rewrite He, Hc.
Qed.

(** Once a node's gates are clear, executing a node with another id leaves
    them clear: the executed set only grows, and the outcome of an executed
    parent is no longer written. *)
Lemma ready_after_other (node : WorkflowNode) (st : ExecState)
  (other : string) (b : bool) (new : list LogEntry) :
  ready ex node st = true ->
  set_has other (st_executed st) = false ->
  other <> id node ->
  ready ex node {| st_logs := st_logs st ++ new;
                   st_executed := set_add other (st_executed st);
                   st_conditions := <[other := b]> (st_conditions st) |} = true.
Proof.
  rewrite !ready_true. simpl.
  intros [Hnew [Hkind [Hparents [Hall Hsome]]]] Hother Hne.
  split; [|split; [assumption|split; [assumption|split]]].
  - rewrite set_has_set_add, Hnew, orb_false_r.
    apply String.eqb_neq. congruence.
  - rewrite forallb_forall in *. intros c Hc.
    rewrite set_has_set_add, (Hall c Hc). apply orb_true_r.
  - rewrite existsb_exists in *. destruct Hsome as [c [Hc Hpassed]].
    exists c. split; [assumption|].
    rewrite forallb_forall in Hall. specialize (Hall c Hc).
    assert (Hsrc : other <> sourceId c) by (intros ->; congruence).
    unfold nodePassedCondition in *. simpl.
    destruct (List.find _ (ex_nodes ex)); [|discriminate].
    destruct (_ || _); [reflexivity|].
    now rewrite lookup_insert_ne.
Qed.

Lemma attempts_app (node : WorkflowNode) (l1 l2 : list LogEntry) :
  attempts node (l1 ++ l2)%list = attempts node l1 + attempts node l2.
Proof. unfold attempts. now rewrite List.filter_app, List.length_app. Qed.

Lemma logStart_announces (m : WorkflowNode) (st : ExecState) :
  exists entry,
    logStart clock m st = (Ok tt, addLogs st [entry])
    /\ announces m entry = true.
Proof.
  eexists. split; [reflexivity|]. unfold announces. simpl.
  apply String.eqb_refl.
Qed.

Variable node : WorkflowNode.
Hypothesis node_listed : In node (ex_nodes ex).
Hypothesis node_raises :
  forall m, In m (ex_nodes ex) -> id m = id node -> alwaysRaises clock m context.

(** One visit of the loop to some node keeps the gates of [node] clear and
    loses no announcement; a visit to [node] itself adds one. *)
Lemma executeNode_keeps_ready (m : WorkflowNode) (st : ExecState) :
  In m (ex_nodes ex) ->
  ready ex node st = true ->
  ready ex m st = true ->
  exists st',
    executeNode clock m context st = (Ok tt, st')
    /\ ready ex node st' = true
    /\ attempts node (st_logs st) <= attempts node (st_logs st')
    /\ (m = node -> attempts node (st_logs st) < attempts node (st_logs st')).
Proof.
  intros Hm Hnode Hready.
  destruct (executeNode_effect clock m context st)
    as [[e [raised [_ [_ Hrun]]]]|[b [new [st1 [Hkind Hrun]]]]].
  - destruct (logStart_announces m st) as [entry [Hstart Hentry]].
    rewrite Hstart in Hrun. simpl snd in Hrun.
    eexists. split; [exact Hrun|].
    unfold logError, engine_log, addLog. simpl. split; [|split].
    + rewrite <- Hnode. now apply ready_ext.
    + rewrite !attempts_app. lia.
    + intros Hsame. rewrite Hsame in *. rewrite !attempts_app.
      assert (attempts node [entry] = 1) as ->; [|lia].
      unfold attempts. simpl. now rewrite Hentry.
  - destruct (String.eqb (id m) (id node)) eqn:Hid.
    + apply String.eqb_eq in Hid.
      destruct (node_raises m Hm Hid (snd (logStart clock m st))) as [e [st2 He]].
      congruence.
    + apply String.eqb_neq in Hid.
      eexists. split; [exact Hrun|]. split; [|split].
      * apply ready_after_other; [assumption| |assumption].
        now apply ready_true in Hready.
      * simpl. rewrite attempts_app. lia.
      * intros ->. now destruct Hid.
Qed.

Lemma propagatePass_keeps_ready (nodes : list WorkflowNode) (changed : bool)
  (st : ExecState) :
  Forall (fun m => In m (ex_nodes ex)) nodes ->
  ready ex node st = true ->
  exists changed' st',
    propagatePass clock ex context nodes changed st = (Ok changed', st')
    /\ ready ex node st' = true
    /\ (changed = true -> changed' = true)
    /\ attempts node (st_logs st) <= attempts node (st_logs st')
    /\ (In node nodes ->
        changed' = true
        /\ attempts node (st_logs st) < attempts node (st_logs st')).
Proof.
  intros Hnodes. revert changed st.
  induction Hnodes as [|m rest Hm _ IH]; intros changed st Hnode; simpl.
  - exists changed, st. split; [reflexivity|]. split; [assumption|].
    split; [tauto|]. split; [lia|]. intros [].
  - unfold bindE, get_state. destruct (ready ex m st) eqn:Hready.
    + destruct (executeNode_keeps_ready m st Hm Hnode Hready)
        as [st1 [-> [Hnode1 [Hle Hlt]]]].
      destruct (IH true st1 Hnode1) as [changed' [st' [Hrun [Hnode' [Htrue [Hle' Hin]]]]]].
      exists changed', st'. split; [exact Hrun|]. split; [exact Hnode'|].
      rewrite (Htrue eq_refl). split; [reflexivity|]. split; [lia|].
      intros [->|Hrest]; (split; [reflexivity|]).
      * specialize (Hlt eq_refl). lia.
      * destruct (Hin Hrest). lia.
    + destruct (IH changed st Hnode) as [changed' [st' [Hrun [Hnode' [Htrue [Hle' Hin]]]]]].
      exists changed', st'. split; [exact Hrun|]. split; [exact Hnode'|].
      split; [exact Htrue|]. split; [exact Hle'|].
      intros [->|Hrest]; [congruence | now apply Hin].
Qed.

Lemma propagateLoop_exhausts (fuel iterations : nat) (st : ExecState) :
  iterations + fuel = maxIterations ->
  ready ex node st = true ->
  exists st',
    propagateLoop clock fuel ex context true iterations st
    = (Ok maxIterations, st')
    /\ ready ex node st' = true
    /\ attempts node (st_logs st) + fuel <= attempts node (st_logs st').
Proof.
  revert iterations st.
  induction fuel as [|fuel IH]; intros iterations st Hsum Hnode; simpl.
  - exists st. rewrite <- Hsum, Nat.add_0_r. split; [reflexivity|].
    split; [assumption | lia].
  - assert (Hlt : Nat.ltb iterations maxIterations = true)
      by (apply Nat.ltb_lt; lia).
    rewrite Hlt. unfold bindE.
    destruct (propagatePass_keeps_ready (ex_nodes ex) false st)
      as [changed' [st1 [-> [Hnode1 [_ [_ Hin]]]]]];
      [apply List.Forall_forall; now intros | assumption |].
    destruct (Hin node_listed) as [-> Hmore].
    destruct (IH (S iterations) st1) as [st' [Hrun [Hnode' Hcount]]];
      [lia | assumption |].
    exists st'. split; [exact Hrun|]. split; [exact Hnode'|]. lia.
Qed.

Lemma propagatePass_flag (nodes : list WorkflowNode) (st : ExecState)
  (changed' : bool) (st' : ExecState) :
  propagatePass clock ex context nodes true st = (Ok changed', st') ->
  changed' = true.
Proof.
  revert st. induction nodes as [|m rest IH]; intros st; simpl.
  - unfold ret. now intros [= <- _].
  - unfold bindE, get_state. destruct (ready ex m st); [|apply IH].
    destruct (executeNode_returns clock m context st) as [st1 ->]. apply IH.
Qed.

(** A pass that changed nothing found no node ready, and left the state as
    it was. *)
Lemma propagatePass_unchanged (nodes : list WorkflowNode) (st st' : ExecState) :
  propagatePass clock ex context nodes false st = (Ok false, st') ->
  st' = st /\ Forall (fun m => ready ex m st = false) nodes.
Proof.
  induction nodes as [|m rest IH]; simpl.
  - unfold ret. intros [= <-]. now split.
  - unfold bindE, get_state. destruct (ready ex m st) eqn:Hready.
    + destruct (executeNode_returns clock m context st) as [st1 ->].
      intros Hpass. now apply propagatePass_flag in Hpass.
    + intros Hpass. destruct (IH Hpass) as [-> Hrest]. split; [reflexivity|].
      now constructor.
Qed.

(** The loop started in [st0] goes on from each of its entries. *)
Lemma propagateLoop_from_entry (st0 : ExecState) (k : nat) (changed : bool)
  (st : ExecState) :
  loopEntry clock ex context st0 k changed st ->
  k <= maxIterations
  /\ propagateLoop clock maxIterations ex context true 0 st0
     = propagateLoop clock (maxIterations - k) ex context changed k st.
Proof.
  induction 1 as [|k st changed' st' _ [Hle IH] Hlt Hpass].
  - split; [lia|]. now rewrite Nat.sub_0_r.
  - split; [lia|]. rewrite IH.
    replace (maxIterations - k) with (S (maxIterations - S k)) by lia.
    cbn [propagateLoop]. rewrite (proj2 (Nat.ltb_lt _ _) Hlt). cbn [andb].
    unfold bindE. now rewrite Hpass.
Qed.

End LoopFacts.

(** C10.  Let some enabled node have its gates clear (it is not executed and
    is no trigger, all its parents are executed and one of them passed) when
    the loop of a run tests its condition, at the start or after some passes,
    and let its step raise at every attempt.  Then the loop makes all
    [maxIterations] passes, tries the node again in every pass that remains,
    and appends the timeout entry, of level [ERROR], to the trace; the node is
    still not executed.  Nothing is asked of the shape of the graph. *)
Theorem raising_node_exhausts_iterations `{JSHost} (clock : Clock)
  (ex : Executor) (context : ExecutionContext) (node : WorkflowNode)
  (st0 : ExecState) (k : nat) (changed : bool) (st : ExecState) :
  In node (ex_nodes ex) ->
  (forall m, In m (ex_nodes ex) -> id m = id node ->
             alwaysRaises clock m context) ->
  loopEntry clock ex context st0 k changed st ->
  ready ex node st = true ->
  exists st',
    propagateExecution clock ex context st0 = (Ok tt, st')
    /\ fst (propagateLoop clock maxIterations ex context true 0 st0)
       = Ok maxIterations
    /\ attempts node (st_logs st) + (maxIterations - k)
       <= attempts node (st_logs st')
    /\ (exists entry, last (st_logs st') = Some entry /\ isTimeout entry)
    /\ set_has (id node) (st_executed st') = false.
Proof.
  intros Hlisted Hraises Hentry Hready.
  assert (Hchanged : changed = true).
  { destruct Hentry as [|k st1 changed' st' _ _ Hpass]; [reflexivity|].
    destruct changed'; [reflexivity|].
    destruct (propagatePass_unchanged clock ex context _ _ _ Hpass) as [-> Hnone].
    rewrite List.Forall_forall in Hnone. rewrite (Hnone node Hlisted) in Hready.
    discriminate. }
  subst changed.
  destruct (propagateLoop_from_entry clock ex context st0 k true st Hentry)
    as [Hle Hloop].
  destruct (propagateLoop_exhausts clock ex context node Hlisted Hraises
              (maxIterations - k) k st ltac:(lia) Hready)
    as [st1 [Hrest [Hready1 Hcount]]].
  unfold propagateExecution, bindE. rewrite Hloop, Hrest.
  rewrite Nat.leb_refl. unfold engine_log, addLog.
  eexists. split; [reflexivity|]. simpl.
  split; [reflexivity|]. split; [|split].
  - rewrite attempts_app. lia.
  - eexists. split; [apply last_snoc|]. split; reflexivity.
  - now apply ready_true in Hready1.
Qed.

Section LoopExamples.
#[local] Existing Instance exampleHost.

Lemma raising_node_exhausts_iterations_witness :
  exists st',
    propagateExecution exampleClock stuckExecutor exampleContext afterTrigger
    = (Ok tt, st')
    /\ fst (propagateLoop exampleClock maxIterations stuckExecutor exampleContext
              true 0 afterTrigger) = Ok maxIterations
    /\ attempts brokenNode (st_logs afterTrigger) + (maxIterations - 0)
       <= attempts brokenNode (st_logs st')
    /\ (exists entry, last (st_logs st') = Some entry /\ isTimeout entry)
    /\ set_has (id brokenNode) (st_executed st') = false.
Proof.
  apply (raising_node_exhausts_iterations exampleClock stuckExecutor
           exampleContext brokenNode afterTrigger 0 true afterTrigger).
  - simpl. tauto.
  - intros m [<-|[<-|[]]] Hid; [discriminate|].
    intros st. eexists. eexists. reflexivity.
  - constructor.
  - reflexivity.
Defined.

(** The whole run on that graph: the trigger, then a hundred attempts at
    [B], each announced and each ending in an error entry, then the timeout
    entry; the run still succeeds. *)
Example stuck_run :
  exists r st',
    executeWorkflow exampleClock [anyTrigger; brokenNode]
      [exampleConnection "T" "B"] exampleEvent = (Ok r, st')
    /\ success r = true
    /\ executedNodes r = ["T"]
    /\ List.length (logs r) = 2 + 2 * maxIterations + 1
    /\ option_map message (last (logs r))
       = Some "Workflow execution timeout - possible infinite loop".
Proof. eexists. eexists. split; [vm_compute; reflexivity|]. repeat split. Qed.

End LoopExamples.

(** ** Disabled nodes *)

Section DisabledFacts.
Context `{JSHost}.
Variable clock : Clock.

(** Two executors over the same nodes, whose connections into each of these
    nodes are the same, run alike. *)
Section SameParents.
Variables ex ex' : Executor.
Hypothesis same_nodes : ex_nodes ex' = ex_nodes ex.
Hypothesis same_parents :
  forall m, In m (ex_nodes ex) -> parentConnections ex' m = parentConnections ex m.

Lemma nodePassedCondition_same (nodeId : string) (st : ExecState) :
  nodePassedCondition ex' nodeId st = nodePassedCondition ex nodeId st.
Proof. unfold nodePassedCondition. now rewrite same_nodes. Qed.

Lemma ready_same (m : WorkflowNode) (st : ExecState) :
  In m (ex_nodes ex) -> ready ex' m st = ready ex m st.
Proof.
  intros Hm. unfold ready. rewrite (same_parents m Hm).
  assert (Hsome : forall cs,
             existsb (fun c => nodePassedCondition ex' (sourceId c) st) cs
             = existsb (fun c => nodePassedCondition ex (sourceId c) st) cs).
  { induction cs as [|c cs IH]; simpl; [reflexivity|].
    now rewrite nodePassedCondition_same, IH. }
  now rewrite Hsome.
Qed.

Lemma propagatePass_same (context : ExecutionContext)
  (nodes : list WorkflowNode) (changed : bool) (st : ExecState) :
  Forall (fun m => In m (ex_nodes ex)) nodes ->
  propagatePass clock ex' context nodes changed st
  = propagatePass clock ex context nodes changed st.
Proof.
  intros Hnodes. revert changed st.
  induction Hnodes as [|m rest Hm _ IH]; intros changed st; simpl.
  - reflexivity.
  - unfold bindE, get_state. rewrite (ready_same m st Hm).
    destruct (ready ex m st); [|apply IH].
    destruct (executeNode clock m context st) as [[[]|e] st1]; [apply IH | reflexivity].
Qed.

Lemma propagateLoop_same (fuel : nat) (context : ExecutionContext)
  (changed : bool) (iterations : nat) (st : ExecState) :
  propagateLoop clock fuel ex' context changed iterations st
  = propagateLoop clock fuel ex context changed iterations st.
Proof.
  revert changed iterations st.
  induction fuel as [|fuel IH]; intros changed iterations st; simpl.
  - reflexivity.
  - destruct (changed && Nat.ltb iterations maxIterations); [|reflexivity].
    unfold bindE. rewrite same_nodes, propagatePass_same.
    + destruct (propagatePass clock ex context (ex_nodes ex) false st)
        as [[changed'|e] st1]; [apply IH | reflexivity].
    + apply List.Forall_forall. now intros.
Qed.

Lemma execute_same (event : TestEvent) (st : ExecState) :
  execute clock ex' event st = execute clock ex event st.
Proof.
  unfold execute, propagateExecution, findTriggerNodes.
  rewrite same_nodes. unfold bindE.
  destruct (reset st) as [[[]|e] st0]; [|reflexivity].
  destruct (Nat.eqb _ 0); [reflexivity|].
  destruct (executeTriggers clock _ event _ st0) as [[[]|e] st1]; [|reflexivity].
  now rewrite propagateLoop_same.
Qed.

End SameParents.

Lemma isEnabledId_true (nodes : list WorkflowNode) (m : WorkflowNode) :
  In m (enabledNodes nodes) -> isEnabledId nodes (id m) = true.
Proof.
  unfold enabledNodes, isEnabledId. rewrite List.filter_In. intros [Hin Hon].
  apply existsb_exists. exists m. split; [assumption|].
  now rewrite Hon, String.eqb_refl.
Qed.

Lemma isEnabledId_false (nodes : list WorkflowNode) (nodeId : string) :
  isEnabledId nodes nodeId = false ->
  forall m, In m (enabledNodes nodes) -> id m <> nodeId.
Proof.
  intros Hoff m Hm <-. now rewrite (isEnabledId_true nodes m Hm) in Hoff.
Qed.

Lemma enabledNodes_idempotent (nodes : list WorkflowNode) :
  enabledNodes (enabledNodes nodes) = enabledNodes nodes.
Proof.
  unfold enabledNodes. induction nodes as [|n nodes IH]; simpl; [reflexivity|].
  destruct (enabled n) eqn:Hn; simpl; [now rewrite Hn, IH | exact IH].
Qed.

Lemma intoEnabled_parents (nodes : list WorkflowNode)
  (connections : list Connection) (m : WorkflowNode) :
  In m (enabledNodes nodes) ->
  List.filter (fun c => String.eqb (targetId c) (id m))
    (intoEnabled nodes connections)
  = List.filter (fun c => String.eqb (targetId c) (id m)) connections.
Proof.
  intros Hm. unfold intoEnabled.
  induction connections as [|c cs IH]; simpl; [reflexivity|].
  destruct (String.eqb (targetId c) (id m)) eqn:Hc.
  - apply String.eqb_eq in Hc. rewrite Hc, (isEnabledId_true nodes m Hm). simpl.
    rewrite Hc, String.eqb_refl. now rewrite IH.
  - destruct (isEnabledId nodes (targetId c)); simpl; [now rewrite Hc, IH | exact IH].
Qed.

(** *** What a connection from outside the enabled nodes does *)

Section Blocked.
Variable ex : Executor.
Variable context : ExecutionContext.
Variable blocker : Connection.
Hypothesis blocker_listed : In blocker (ex_connections ex).
Hypothesis source_off : forall m, In m (ex_nodes ex) -> id m <> sourceId blocker.
Hypothesis no_such_trigger :
  forall m, In m (ex_nodes ex) -> type m = TRIGGER -> id m <> targetId blocker.

Lemma blocked_ext (s1 s2 : ExecState) :
  st_executed s2 = st_executed s1 -> blockedBy ex blocker s1 -> blockedBy ex blocker s2.
Proof. unfold blockedBy. now intros ->. Qed.

Lemma executeNode_blocked (m : WorkflowNode) (st : ExecState) :
  In m (ex_nodes ex) ->
  id m <> targetId blocker ->
  blockedBy ex blocker st ->
  exists st', executeNode clock m context st = (Ok tt, st') /\ blockedBy ex blocker st'.
Proof.
  intros Hm Hid Hst.
  destruct (executeNode_effect clock m context st)
    as [[e [raised [_ [_ Hrun]]]]|[b [new [st1 [_ Hrun]]]]];
    (eexists; split; [exact Hrun|]).
  - now apply (blocked_ext st).
  - destruct Hst as [Hknown Hout]. split; simpl.
    + intros x. rewrite set_has_set_add, orb_true_iff.
      intros [Hx|Hx]; [|now apply Hknown].
      apply String.eqb_eq in Hx. subst x. now exists m.
    + rewrite set_has_set_add, Hout, orb_false_r.
      apply String.eqb_neq. congruence.
Qed.

Lemma not_ready_when_blocked (m : WorkflowNode) (st : ExecState) :
  blockedBy ex blocker st -> id m = targetId blocker -> ready ex m st = false.
Proof.
  intros [Hknown _] Hid.
  destruct (ready ex m st) eqn:Hready; [|reflexivity].
  apply ready_true in Hready. destruct Hready as [_ [_ [_ [Hall _]]]].
  rewrite forallb_forall in Hall.
  assert (Hin : In blocker (parentConnections ex m)).
  { unfold parentConnections. apply List.filter_In.
    split; [assumption|]. rewrite Hid. apply String.eqb_refl. }
  destruct (Hknown _ (Hall blocker Hin)) as [n [Hn Hsrc]].
  now destruct (source_off n Hn).
Qed.

Lemma propagatePass_blocked (nodes : list WorkflowNode) (changed : bool)
  (st : ExecState) :
  Forall (fun m => In m (ex_nodes ex)) nodes ->
  blockedBy ex blocker st ->
  exists changed' st',
    propagatePass clock ex context nodes changed st = (Ok changed', st')
    /\ blockedBy ex blocker st'.
Proof.
  intros Hnodes. revert changed st.
  induction Hnodes as [|m rest Hm _ IH]; intros changed st Hst; simpl.
  - now exists changed, st.
  - unfold bindE, get_state. destruct (ready ex m st) eqn:Hready; [|now apply IH].
    destruct (executeNode_blocked m st Hm) as [st1 [-> Hst1]]; [|assumption|now apply IH].
    intros Hid. now rewrite (not_ready_when_blocked m st Hst Hid) in Hready.
Qed.

Lemma propagateLoop_blocked (fuel : nat) (changed : bool) (iterations : nat)
  (st : ExecState) :
  blockedBy ex blocker st ->
  exists iterations' st',
    propagateLoop clock fuel ex context changed iterations st
    = (Ok iterations', st')
    /\ blockedBy ex blocker st'.
Proof.
  revert changed iterations st.
  induction fuel as [|fuel IH]; intros changed iterations st Hst; simpl.
  - now exists iterations, st.
  - destruct (changed && Nat.ltb iterations maxIterations);
      [|now exists iterations, st].
    unfold bindE.
    destruct (propagatePass_blocked (ex_nodes ex) false st)
      as [changed' [st1 [-> Hst1]]];
      [apply List.Forall_forall; now intros | assumption | now apply IH].
Qed.

Lemma propagateExecution_blocked (st : ExecState) :
  blockedBy ex blocker st ->
  exists st', propagateExecution clock ex context st = (Ok tt, st') /\ blockedBy ex blocker st'.
Proof.
  intros Hst. unfold propagateExecution, bindE.
  destruct (propagateLoop_blocked maxIterations true 0 st Hst)
    as [iterations [st1 [-> Hst1]]].
  destruct (Nat.leb maxIterations iterations).
  - eexists. split; [reflexivity|]. now apply (blocked_ext st1).
  - now exists st1.
Qed.

Lemma executeTriggers_blocked (triggerNodes : list WorkflowNode)
  (event : TestEvent) (st : ExecState) :
  Forall (fun m => In m (ex_nodes ex) /\ type m = TRIGGER) triggerNodes ->
  blockedBy ex blocker st ->
  blockedBy ex blocker (snd (executeTriggers clock triggerNodes event context st)).
Proof.
  intros Htriggers. revert st.
  induction Htriggers as [|t rest [Ht Hkind] _ IH]; intros st Hst; simpl.
  - assumption.
  - unfold bindE, lift.
    destruct (shouldExecuteTrigger t event) as [[|]|e]; simpl.
    + destruct (executeNode_blocked t st Ht (no_such_trigger t Ht Hkind) Hst)
        as [st1 [-> Hst1]]. now apply IH.
    + now apply IH.
    + assumption.
Qed.

End Blocked.

Lemma findTriggerNodes_listed (ex : Executor) :
  Forall (fun m => In m (ex_nodes ex) /\ type m = TRIGGER) (findTriggerNodes ex).
Proof.
  apply List.Forall_forall. intros m Hm.
  apply List.filter_In in Hm. destruct Hm as [Hin Hkind].
  split; [assumption|]. now destruct (type m).
Qed.

End DisabledFacts.

(** C1, as amended.  Disabled nodes take no part in a run, and neither do
    the connections into them: a run over [(nodes, connections)] is the run
    over the enabled nodes and the connections whose target is enabled.
    Connections are not filtered by their source: a connection whose source
    is not an enabled node stays among the parents of its target, which, unless
    it is a trigger, is then never executed, whatever its other parents did. *)
Theorem disabled_nodes_excluded `{JSHost} (clock : Clock)
  (nodes : list WorkflowNode) (connections : list Connection)
  (event : TestEvent) :
  executeWorkflow clock nodes connections event
  = executeWorkflow clock (enabledNodes nodes) (intoEnabled nodes connections) event
  /\ (forall blocker r st',
        In blocker connections ->
        isEnabledId nodes (sourceId blocker) = false ->
        (forall m, In m (enabledNodes nodes) -> type m = TRIGGER ->
                   id m <> targetId blocker) ->
        executeWorkflow clock nodes connections event = (Ok r, st') ->
        set_has (targetId blocker) (executedNodes r) = false).
Proof.
  split.
  - unfold executeWorkflow. symmetry. apply execute_same.
    + apply enabledNodes_idempotent.
    + intros m Hm. apply (intoEnabled_parents nodes connections m Hm).
  - intros blocker r st' Hlisted Hoff Htrigger.
    unfold executeWorkflow.
    set (ex := new_WorkflowExecutor nodes connections).
    assert (Hsource : forall m, In m (ex_nodes ex) -> id m <> sourceId blocker)
      by (apply isEnabledId_false; assumption).
    assert (Hstart : blockedBy ex blocker fresh_state).
    { split; [intros x Hx; discriminate | reflexivity]. }
    destruct (findTriggerNodes ex) as [|t ts] eqn:Htriggers.
    + destruct (execute_without_trigger clock ex event fresh_state Htriggers)
        as [r0 [st0 [-> [_ [_ Hnone]]]]].
      intros Hrun. injection Hrun as <- _. now rewrite Hnone.
    + rewrite execute_with_trigger by (rewrite Htriggers; discriminate).
      unfold bindE.
      pose proof (executeTriggers_blocked clock ex (contextOf event) blocker
                    Htrigger (findTriggerNodes ex) event fresh_state
                    (findTriggerNodes_listed ex) Hstart) as Hfired.
      destruct (executeTriggers clock (findTriggerNodes ex) event
                  (contextOf event) fresh_state) as [[[]|e] st1];
        [|discriminate].
      simpl in Hfired.
      destruct (propagateExecution_blocked clock ex (contextOf event) blocker
                  Hlisted Hsource st1 Hfired) as [st2 [-> [_ Hout]]].
      unfold get_state, ret. intros Hrun. injection Hrun as <- _. exact Hout.
Qed.

(** The run over [T], the disabled [D] and [A] with its two parents, and
    the run over the enabled nodes and the connections between them, on any
    host and at any time. *)
Lemma disabled_parent_runs `{JSHost} (clock : Clock) :
  option_map executedNodes
    (result_value (fst (executeWorkflow clock halfDisabledNodes
                          halfDisabledConnections exampleEvent)))
  = Some ["T"]
  /\ option_map executedNodes
       (result_value
          (fst (executeWorkflow clock (enabledNodes halfDisabledNodes)
                  (betweenEnabled halfDisabledNodes halfDisabledConnections)
                  exampleEvent)))
     = Some ["T"; "A"].
Proof. split; vm_compute; reflexivity. Qed.

Section DisabledExamples.
#[local] Existing Instance exampleHost.

Lemma disabled_nodes_excluded_witness :
  exists r st',
    executeWorkflow exampleClock halfDisabledNodes halfDisabledConnections
      exampleEvent = (Ok r, st')
    /\ set_has "A" (executedNodes r) = false.
Proof.
  destruct (executeWorkflow exampleClock halfDisabledNodes
              halfDisabledConnections exampleEvent) as [[r|e] st'] eqn:Hrun.
  - exists r, st'. split; [reflexivity|].
    apply (proj2 (disabled_nodes_excluded exampleClock halfDisabledNodes
                    halfDisabledConnections exampleEvent)
             (exampleConnection "D" "A") r st').
    + simpl. tauto.
    + reflexivity.
    + intros m [<-|[<-|[]]]; discriminate.
    + exact Hrun.
  - vm_compute in Hrun. discriminate.
Defined.

(** C1, as stated, fails: [A] has the enabled trigger [T] and the disabled
    [D] as parents.  The run leaves [A] out, waiting for [D]; the run over the
    enabled nodes and the connections between them executes it. *)
Lemma disabled_parent_counterexample :
  option_map executedNodes
    (result_value (fst (executeWorkflow exampleClock halfDisabledNodes
                          halfDisabledConnections exampleEvent)))
  = Some ["T"]
  /\ option_map executedNodes
       (result_value
          (fst (executeWorkflow exampleClock (enabledNodes halfDisabledNodes)
                  (betweenEnabled halfDisabledNodes halfDisabledConnections)
                  exampleEvent)))
     = Some ["T"; "A"].
Proof. exact (disabled_parent_runs exampleClock). Qed.

End DisabledExamples.

(** ** Determinism *)

Section SameRuns.
Context `{JSHost}.
Variables clock1 clock2 : Clock.

Lemma sameRun_ret {A} (a : A) : sameRun (ret a) (ret a).
Proof. intros s1 s2 Hs. now split. Qed.

Lemma sameRun_raise {A} (e : exn) : sameRun (@raise A e) (raise e).
Proof. intros s1 s2 Hs. now split. Qed.

Lemma sameRun_lift {A} (r : result A) : sameRun (lift r) (lift r).
Proof. intros s1 s2 Hs. now split. Qed.

Lemma sameRun_bind {A B} (m1 m2 : Exec A) (k1 k2 : A -> Exec B) :
  sameRun m1 m2 -> (forall a, sameRun (k1 a) (k2 a)) ->
  sameRun (bindE m1 k1) (bindE m2 k2).
Proof.
  intros Hm Hk s1 s2 Hs. unfold bindE.
  destruct (Hm s1 s2 Hs) as [Hr Hs'].
  destruct (m1 s1) as [r1 s1'], (m2 s2) as [r2 s2']. simpl in Hr, Hs'. subst r2.
  destruct r1 as [a|e]; [now apply Hk | now split].
Qed.

Lemma sameRun_try_catch {A} (m1 m2 : Exec A) (h1 h2 : exn -> Exec A) :
  sameRun m1 m2 -> (forall e, sameRun (h1 e) (h2 e)) ->
  sameRun (try_catchE m1 h1) (try_catchE m2 h2).
Proof.
  intros Hm Hh s1 s2 Hs. unfold try_catchE.
  destruct (Hm s1 s2 Hs) as [Hr Hs'].
  destruct (m1 s1) as [r1 s1'], (m2 s2) as [r2 s2']. simpl in Hr, Hs'. subst r2.
  destruct r1 as [a|e]; [now split | now apply Hh].
Qed.

Lemma sameRun_engine_log (suffix : string) (lvl : LogLevel) (msg : string)
  (det : value) :
  sameRun (engine_log clock1 suffix lvl msg det)
          (engine_log clock2 suffix lvl msg det).
Proof.
  intros s1 s2 [Hlogs [Hexecuted Hconditions]].
  split; [reflexivity|]. unfold sameState. simpl.
  rewrite !List.map_app, Hlogs. now repeat split.
Qed.

Lemma sameRun_set_condition (nodeId : string) (passed : bool) :
  sameRun (set_condition nodeId passed) (set_condition nodeId passed).
Proof.
  intros s1 s2 [Hlogs [Hexecuted Hconditions]].
  split; [reflexivity|]. unfold sameState. simpl. now rewrite Hconditions.
Qed.

Lemma sameRun_add_executed (nodeId : string) :
  sameRun (add_executed nodeId) (add_executed nodeId).
Proof.
  intros s1 s2 [Hlogs [Hexecuted Hconditions]].
  split; [reflexivity|]. unfold sameState. simpl. now rewrite Hexecuted.
Qed.

(** Taking apart a method built from the pieces above. *)
Ltac same_run :=
  repeat first
    [ apply sameRun_engine_log
    | apply sameRun_set_condition
    | apply sameRun_add_executed
    | apply sameRun_lift
    | apply sameRun_ret
    | apply sameRun_raise
    | apply sameRun_bind; [|intros ?]
    | apply sameRun_try_catch; [|intros ?] ].

Lemma sameRun_executeActions (items : list value) (i : nat)
  (context : ExecutionContext) :
  sameRun (executeActions clock1 items i context)
          (executeActions clock2 items i context).
Proof.
  revert i. induction items as [|a items IH]; intros i; simpl.
  - apply sameRun_ret.
  - apply sameRun_bind; [|intros ?; apply IH].
    unfold executeSingleAction. same_run.
Qed.

Lemma sameRun_executeKind (node : WorkflowNode) (context : ExecutionContext) :
  sameRun (executeKind clock1 node context) (executeKind clock2 node context).
Proof.
  unfold executeKind. destruct (type node).
  - unfold executeTrigger. same_run.
  - unfold executeCondition. same_run.
  - unfold executeAction. same_run.
    match goal with
    | |- context [or_else ?a ?b] => destruct (or_else a b)
    end; same_run.
    apply sameRun_executeActions.
Qed.

Lemma sameRun_executeNode (node : WorkflowNode) (context : ExecutionContext) :
  sameRun (executeNode clock1 node context) (executeNode clock2 node context).
Proof.
  unfold executeNode, logStart, logError. same_run.
  apply sameRun_executeKind.
Qed.

Lemma sameRun_propagatePass (ex : Executor) (context : ExecutionContext)
  (nodes : list WorkflowNode) (changed : bool) :
  sameRun (propagatePass clock1 ex context nodes changed)
          (propagatePass clock2 ex context nodes changed).
Proof.
  revert changed. induction nodes as [|node rest IH]; intros changed.
  - apply sameRun_ret.
  - intros s1 s2 Hs.
    change (propagatePass clock1 ex context (node :: rest) changed s1)
      with ((if ready ex node s1
             then bindE (executeNode clock1 node context)
                    (fun _ => propagatePass clock1 ex context rest true)
             else propagatePass clock1 ex context rest changed) s1).
    change (propagatePass clock2 ex context (node :: rest) changed s2)
      with ((if ready ex node s2
             then bindE (executeNode clock2 node context)
                    (fun _ => propagatePass clock2 ex context rest true)
             else propagatePass clock2 ex context rest changed) s2).
    rewrite (ready_ext ex node s1 s2 (proj1 (proj2 Hs)) (proj2 (proj2 Hs))).
    destruct (ready ex node s2).
    + apply sameRun_bind; [apply sameRun_executeNode | intros ?; apply IH |].
      exact Hs.
    + now apply IH.
Qed.

Lemma sameRun_propagateLoop (fuel : nat) (ex : Executor)
  (context : ExecutionContext) (changed : bool) (iterations : nat) :
  sameRun (propagateLoop clock1 fuel ex context changed iterations)
          (propagateLoop clock2 fuel ex context changed iterations).
Proof.
  revert changed iterations.
  induction fuel as [|fuel IH]; intros changed iterations; simpl.
  - apply sameRun_ret.
  - destruct (changed && Nat.ltb iterations maxIterations); [|apply sameRun_ret].
    apply sameRun_bind; [apply sameRun_propagatePass | intros ?; apply IH].
Qed.

Lemma sameRun_propagateExecution (ex : Executor) (context : ExecutionContext) :
  sameRun (propagateExecution clock1 ex context)
          (propagateExecution clock2 ex context).
Proof.
  unfold propagateExecution.
  apply sameRun_bind; [apply sameRun_propagateLoop|].
  intros iterations. destruct (Nat.leb maxIterations iterations); same_run.
Qed.

Lemma sameRun_executeTriggers (triggerNodes : list WorkflowNode)
  (event : TestEvent) (context : ExecutionContext) :
  sameRun (executeTriggers clock1 triggerNodes event context)
          (executeTriggers clock2 triggerNodes event context).
Proof.
  induction triggerNodes as [|t rest IH]; simpl.
  - apply sameRun_ret.
  - apply sameRun_bind; [apply sameRun_lift|]. intros fire.
    apply sameRun_bind; [|intros ?; apply IH].
    destruct fire; [apply sameRun_executeNode | apply sameRun_ret].
Qed.

Lemma sameState_fresh : sameState fresh_state fresh_state.
Proof. now repeat split. Qed.

Lemma bindE_assoc {A B C} (m : Exec A) (k : A -> Exec B) (h : B -> Exec C)
  (st : ExecState) :
  bindE (bindE m k) h st = bindE m (fun x => bindE (k x) h) st.
Proof. unfold bindE. now destruct (m st) as [[a|e] st']. Qed.

(** Two runs that went alike return alike. *)
Lemma outcome_finish (m1 m2 : Exec unit) (s1 s2 : ExecState) :
  sameRun m1 m2 -> sameState s1 s2 ->
  outcome (bindE m1 (fun _ => bindE get_state (fun st => ret (successResult st))) s1)
  = outcome (bindE m2 (fun _ => bindE get_state (fun st => ret (successResult st))) s2).
Proof.
  intros Hm Hs. destruct (Hm s1 s2 Hs) as [Hr Hs'].
  unfold outcome, bindE, get_state, ret.
  destruct (m1 s1) as [[[]|e1] s1'], (m2 s2) as [[[]|e2] s2'];
    simpl in *; try discriminate; destruct Hs' as [Hlogs [Hexecuted Hconditions]].
  - now rewrite Hlogs, Hexecuted, Hconditions.
  - injection Hr as ->. now rewrite Hconditions.
Qed.

End SameRuns.

(** C9.  A run is a function of the graph and the event.  Whatever the clock
    reads, and whatever state earlier runs left the executor in, two runs
    over the same nodes, connections and event end the same way, return the
    same [success], executed nodes and error, record the same outcome for
    every condition, and write the same trace up to the times in its
    entries. *)
Theorem execute_deterministic `{JSHost} (clock1 clock2 : Clock)
  (nodes : list WorkflowNode) (connections : list Connection)
  (event : TestEvent) (st1 st2 : ExecState) :
  outcome (execute clock1 (new_WorkflowExecutor nodes connections) event st1)
  = outcome (execute clock2 (new_WorkflowExecutor nodes connections) event st2).
Proof.
  set (ex := new_WorkflowExecutor nodes connections).
  destruct (findTriggerNodes ex) as [|t ts] eqn:Htriggers.
  - unfold outcome, execute, bindE, reset. rewrite Htriggers. reflexivity.
  - rewrite !execute_with_trigger by (rewrite Htriggers; discriminate).
    rewrite <- (bindE_assoc
                  (executeTriggers clock1 (findTriggerNodes ex) event (contextOf event))
                  (fun _ => propagateExecution clock1 ex (contextOf event))).
    rewrite <- (bindE_assoc
                  (executeTriggers clock2 (findTriggerNodes ex) event (contextOf event))
                  (fun _ => propagateExecution clock2 ex (contextOf event))).
    apply outcome_finish; [|apply sameState_fresh].
    apply sameRun_bind; [apply sameRun_executeTriggers|].
    intros ?. apply sameRun_propagateExecution.
Qed.

(** ** The cycle check *)

#[local] Set Warnings "-clear-no-such-hyp".

Section CycleCheck.
Variable connections : list Connection.

Lemma outgoing_In (nodeId : string) (c : Connection) :
  In c (List.filter (fun c => String.eqb (sourceId c) nodeId) connections)
  <-> In c connections /\ sourceId c = nodeId.
Proof. rewrite List.filter_In, String.eqb_eq. tauto. Qed.

Lemma closed_rtc (done : gset string) (x y : string) :
  closedAcyclic connections done ->
  x ∈ done -> rtc (edge connections) x y -> y ∈ done.
Proof.
  intros [Hclosed _] Hx Hxy. induction Hxy as [|x y z Hedge _ IH]; [assumption|].
  apply IH. now apply (Hclosed x y).
Qed.

Lemma target_In (c : Connection) :
  In c connections -> targetId c ∈ targetsOf connections.
Proof.
  intros Hc. unfold targetsOf. apply elem_of_list_to_set, list_elem_of_In.
  now apply List.in_map.
Qed.

Lemma targets_size : size (targetsOf connections) <= List.length connections.
Proof.
  unfold targetsOf. rewrite <- (List.length_map targetId connections).
  generalize (List.map targetId connections). intros l.
  induction l as [|x l IH].
  - change (list_to_set [] : gset string) with (∅ : gset string).
    rewrite size_empty. simpl. lia.
  - change (list_to_set (x :: l) : gset string)
      with ({[x]} ∪ list_to_set l : gset string).
    rewrite size_union_alt, size_singleton.
    assert (size (list_to_set l ∖ {[x]} : gset string)
            <= size (list_to_set l : gset string))
      by (apply subseteq_size; set_solver).
    simpl. lia.
Qed.

(** *** The scan of the outgoing connections of one node *)

Section Scan.
Variable fuel : nat.
Hypothesis hasCycle_fuel :
  forall nodeId s,
    dfsPre connections nodeId s ->
    size (targetsOf connections ∖ ({[nodeId]} ∪ visited s)) < fuel ->
    exists r, hasCycle fuel connections nodeId s = Some r
              /\ dfsPost connections nodeId s r.
Variable nodeId : string.
Variable stack0 : gset string.
Hypothesis fresh_on_stack : nodeId ∉ stack0.

Lemma scanOutgoing_spec (rest scanned : list Connection) (s : DfsState) :
  (forall c, In c connections /\ sourceId c = nodeId
             <-> In c (scanned ++ rest)%list) ->
  nodeId ∈ visited s ->
  recursionStack s = {[nodeId]} ∪ stack0 ->
  stack0 ⊆ visited s ->
  closedAcyclic connections (finished s) ->
  (forall g, g ∈ recursionStack s -> rtc (edge connections) g nodeId) ->
  Forall (fun c => targetId c ∈ finished s) scanned ->
  size (targetsOf connections ∖ visited s) <= fuel ->
  exists r,
    scanOutgoing (hasCycle fuel connections) nodeId rest s = Some r
    /\ match r with
       | (true, _) => cycleFrom connections nodeId
       | (false, s') =>
           visited s ⊆ visited s'
           /\ recursionStack s' = stack0
           /\ closedAcyclic connections (finished s')
       end.
Proof.
  revert scanned s.
  induction rest as [|c rest IH];
    intros scanned s Hout Hvisited Hstack Hstack0 Hdone Hleads Hscanned Hsize;
    simpl.
  - (* every outgoing connection leads to a finished node: the node is done *)
    eexists. split; [reflexivity|]. simpl. split; [reflexivity|].
    split; [rewrite Hstack; clear - fresh_on_stack; set_solver|].
    rewrite app_nil_r in Hout. rewrite List.Forall_forall in Hscanned.
    destruct Hdone as [Hclosed Hacyclic].
    assert (Hsplit : forall x,
               x ∈ visited s ∖ (recursionStack s ∖ {[nodeId]})
               -> x = nodeId \/ x ∈ finished s).
    { clear. intros x Hx. unfold finished.
      destruct (decide (x = nodeId)); [now left|]. right. set_solver. }
    assert (Hfrom : forall y, edge connections nodeId y -> y ∈ finished s).
    { intros y [c0 [Hc0 [Hsrc <-]]]. apply Hscanned, Hout. now split. }
    assert (Hnode : nodeId ∉ finished s).
    { unfold finished. rewrite Hstack. clear. set_solver. }
    assert (Hkeep : forall y,
               y ∈ finished s -> y ∈ visited s ∖ (recursionStack s ∖ {[nodeId]})).
    { clear. intros y. unfold finished. set_solver. }
    split.
    + intros x y Hx Hxy. apply Hkeep.
      destruct (Hsplit x Hx) as [->|Hx']; [now apply Hfrom|].
      now apply (Hclosed x y).
    + intros x Hx Hcycle.
      destruct (Hsplit x Hx) as [->|Hx']; [|now apply (Hacyclic x)].
      apply Hnode. inversion Hcycle as [? ? Hedge|? y ? Hedge Hback]; subst.
      * now apply Hfrom.
      * apply (closed_rtc (finished s) y nodeId); [now split| |now apply tc_rtc].
        now apply Hfrom.
  - assert (Hc : In c connections /\ sourceId c = nodeId).
    { apply Hout. apply List.in_or_app. right. now left. }
    destruct Hc as [Hc Hsrc].
    assert (Hedge : edge connections nodeId (targetId c)) by now exists c.
    assert (Hnext : forall c0, In c0 connections /\ sourceId c0 = nodeId
                               <-> In c0 ((scanned ++ [c]) ++ rest)%list)
      by (intros c0; now rewrite <- List.app_assoc).
    assert (Hsub : recursionStack s ⊆ visited s).
    { rewrite Hstack. clear - Hvisited Hstack0. set_solver. }
    destruct (bool_decide (targetId c ∈ visited s)) eqn:Hseen; simpl.
    + apply bool_decide_eq_true in Hseen.
      destruct (bool_decide (targetId c ∈ recursionStack s)) eqn:Hgrey.
      * (* the target is on the stack: it leads here, and here leads to it *)
        apply bool_decide_eq_true in Hgrey.
        eexists. split; [reflexivity|]. simpl.
        exists (targetId c). split; [now apply rtc_once|].
        eapply tc_rtc_l; [now apply Hleads | now apply tc_once].
      * apply bool_decide_eq_false in Hgrey.
        apply (IH (scanned ++ [c])%list s); try assumption.
        apply List.Forall_app. split; [assumption|].
        constructor; [|constructor]. unfold finished.
        clear - Hseen Hgrey. set_solver.
    + apply bool_decide_eq_false in Hseen.
      destruct (hasCycle_fuel (targetId c) s) as [[b s'] [Hcall Hpost]].
      * split; [assumption|]. split; [assumption|]. split; [assumption|].
        intros g Hg. eapply rtc_r; [now apply Hleads | assumption].
      * eapply Nat.lt_le_trans; [|exact Hsize].
        apply subset_size.
        pose proof (target_In c Hc) as Htarget.
        clear - Htarget Hseen. set_solver.
      * rewrite Hcall. destruct b; simpl in Hpost.
        -- eexists. split; [reflexivity|]. simpl.
           destruct Hpost as [y [Hreach Hcycle]].
           exists y. split; [|assumption]. now apply (rtc_l _ _ (targetId c)).
        -- destruct Hpost as [Hgrow [Hsame Hdone']].
           assert (Hgrow' : visited s ⊆ visited s')
             by (clear - Hgrow; set_solver).
           assert (Htarget : targetId c ∈ visited s')
             by (clear - Hgrow; set_solver).
           destruct (IH (scanned ++ [c])%list s') as [r [Hscan Hr]];
             try assumption.
           ++ now apply Hgrow'.
           ++ now rewrite Hsame.
           ++ now transitivity (visited s).
           ++ intros g Hg. apply Hleads. now rewrite <- Hsame.
           ++ apply List.Forall_app. split.
              ** eapply List.Forall_impl; [|exact Hscanned].
                 intros c0 Hc0. unfold finished in *. rewrite Hsame.
                 clear - Hc0 Hgrow'. set_solver.
              ** constructor; [|constructor].
                 unfold finished. rewrite Hsame.
                 clear - Htarget Hseen Hsub. set_solver.
           ++ etransitivity; [|exact Hsize].
              apply subseteq_size. clear - Hgrow'. set_solver.
           ++ exists r. split; [exact Hscan|].
              destruct r as [[|] s'']; [assumption|].
              destruct Hr as [Hgrow'' Hrest].
              split; [now transitivity (visited s') | assumption].
Qed.

End Scan.

(** [hasCycle] returns within its fuel, and what it returns is right. *)
Lemma hasCycle_spec (fuel : nat) (nodeId : string) (s : DfsState) :
  dfsPre connections nodeId s ->
  size (targetsOf connections ∖ ({[nodeId]} ∪ visited s)) < fuel ->
  exists r, hasCycle fuel connections nodeId s = Some r
            /\ dfsPost connections nodeId s r.
Proof.
  revert nodeId s. induction fuel as [|fuel IH]; intros nodeId s Hpre Hsize.
  - lia.
  - destruct Hpre as [Hnew [Hstack [Hdone Hleads]]]. simpl.
    assert (Hfresh : nodeId ∉ recursionStack s)
      by (clear - Hnew Hstack; set_solver).
    destruct (scanOutgoing_spec fuel IH nodeId (recursionStack s) Hfresh
                (List.filter (fun c => String.eqb (sourceId c) nodeId) connections)
                []
                {| visited := {[nodeId]} ∪ visited s;
                   recursionStack := {[nodeId]} ∪ recursionStack s |})
      as [r [Hscan Hr]]; simpl.
    + intros c. symmetry. apply outgoing_In.
    + clear. set_solver.
    + reflexivity.
    + clear - Hstack. set_solver.
    + assert (Hsame : finished {| visited := {[nodeId]} ∪ visited s;
                                  recursionStack := {[nodeId]} ∪ recursionStack s |}
                      = finished s)
        by (unfold finished; simpl; clear - Hnew; set_solver).
      now rewrite Hsame.
    + intros g Hg. apply elem_of_union in Hg. destruct Hg as [Hg|Hg].
      * apply elem_of_singleton in Hg. subst. apply rtc_refl.
      * now apply Hleads.
    + constructor.
    + lia.
    + exists r. split; [exact Hscan|].
      destruct r as [[|] s']; simpl; [assumption|].
      destruct Hr as [Hgrow [Hpop Hdone']]. simpl in Hgrow.
      split; [assumption|]. split; assumption.
Qed.

Lemma cycleScan_spec (nodes : list WorkflowNode) (s : DfsState) :
  recursionStack s = ∅ ->
  closedAcyclic connections (finished s) ->
  exists cycleErrors,
    cycleScan (dfsFuel connections) connections nodes s = Some cycleErrors
    /\ ((cycleErrors = [cycleError]
         /\ exists n, In n nodes /\ cycleFrom connections (id n))
        \/ (cycleErrors = []
            /\ exists s',
                recursionStack s' = ∅
                /\ closedAcyclic connections (finished s')
                /\ visited s ⊆ visited s'
                /\ forall n, In n nodes -> id n ∈ visited s')).
Proof.
  revert s. induction nodes as [|node rest IH]; intros s Hempty Hdone;
    cbn [cycleScan].
  - exists []. split; [reflexivity|]. right. split; [reflexivity|].
    exists s. split; [assumption|]. split; [assumption|]. split; [reflexivity|].
    intros n [].
  - destruct (bool_decide (id node ∈ visited s)) eqn:Hseen; cbn [negb].
    + apply bool_decide_eq_true in Hseen.
      destruct (IH s Hempty Hdone) as [errs [Hscan Herrs]].
      exists errs. split; [exact Hscan|].
      destruct Herrs as [[-> [n [Hn Hcycle]]]|[-> [s' [He [Hd [Hgrow Hall]]]]]].
      * left. split; [reflexivity|]. exists n. split; [now right | assumption].
      * right. split; [reflexivity|]. exists s'.
        split; [assumption|]. split; [assumption|]. split; [assumption|].
        intros n [<-|Hn]; [now apply Hgrow | now apply Hall].
    + apply bool_decide_eq_false in Hseen.
      destruct (hasCycle_spec (dfsFuel connections) (id node) s)
        as [[b s1] [Hcall Hpost]].
      * split; [assumption|]. split; [rewrite Hempty; apply empty_subseteq|].
        split; [assumption|]. intros g Hg. rewrite Hempty in Hg.
        now apply not_elem_of_empty in Hg.
      * unfold dfsFuel. apply Nat.lt_succ_r.
        etransitivity; [|apply targets_size].
        apply subseteq_size. clear. set_solver.
      * rewrite Hcall. destruct b; simpl in Hpost.
        -- exists [cycleError]. split; [reflexivity|]. left.
           split; [reflexivity|]. exists node. split; [now left | assumption].
        -- destruct Hpost as [Hgrow [Hsame Hdone1]].
           destruct (IH s1) as [errs [Hscan Herrs]];
             [now rewrite Hsame | assumption |].
           exists errs. split; [exact Hscan|].
           destruct Herrs as [[-> [n [Hn Hcycle]]]|[-> [s' [He [Hd [Hgrow' Hall]]]]]].
           ++ left. split; [reflexivity|]. exists n. split; [now right | assumption].
           ++ right. split; [reflexivity|]. exists s'.
              split; [assumption|]. split; [assumption|].
              split; [clear - Hgrow Hgrow'; set_solver|].
              intros n [<-|Hn]; [|now apply Hall].
              clear - Hgrow Hgrow'. set_solver.
Qed.

(** The outer loop reports a cycle exactly when one can be reached from a
    listed node. *)
Lemma cycleScan_correct (nodes : list WorkflowNode) :
  exists cycleErrors,
    cycleScan (dfsFuel connections) connections nodes
      {| visited := ∅; recursionStack := ∅ |} = Some cycleErrors
    /\ (cycleErrors = [cycleError] \/ cycleErrors = [])
    /\ (cycleErrors = [cycleError]
        <-> exists n, In n nodes /\ cycleFrom connections (id n)).
Proof.
  destruct (cycleScan_spec nodes {| visited := ∅; recursionStack := ∅ |})
    as [errs [Hscan Herrs]].
  - reflexivity.
  - unfold finished. simpl. split.
    + intros x y Hx. clear - Hx. set_solver.
    + intros x Hx. clear - Hx. set_solver.
  - exists errs. split; [exact Hscan|].
    destruct Herrs as [[-> Hcycle]|[-> [s' [Hempty [Hdone [_ Hall]]]]]].
    + split; [now left|]. tauto.
    + split; [now right|]. split; [discriminate|].
      intros [n [Hn [y [Hreach Hcycle]]]]. exfalso.
      assert (Hfin : id n ∈ finished s').
      { unfold finished. rewrite Hempty. specialize (Hall n Hn).
        clear - Hall. set_solver. }
      apply (proj2 Hdone y); [|assumption].
      now apply (closed_rtc (finished s') (id n) y).
Qed.

End CycleCheck.

Lemma orphanErrors_other (nodes : list WorkflowNode)
  (connections : list Connection) :
  cycleErrorCount (orphanErrors nodes connections) = 0.
Proof.
  unfold cycleErrorCount, orphanErrors.
  induction (List.filter _ nodes) as [|n l IH]; simpl; [reflexivity|].
  destruct (string_dec (orphanError n) cycleError) as [Heq|_]; [|exact IH].
  discriminate Heq.
Qed.

Lemma triggerErrors_other (nodes : list WorkflowNode) :
  cycleErrorCount (triggerErrors nodes) = 0.
Proof.
  unfold cycleErrorCount, triggerErrors.
  destruct (Nat.eqb _ 0); reflexivity.
Qed.

Lemma cycleErrorCount_app (l1 l2 : list string) :
  cycleErrorCount (l1 ++ l2)%list = cycleErrorCount l1 + cycleErrorCount l2.
Proof. apply List.count_occ_app. Qed.

(** The validator returns, and its errors hold the cycle error once when a
    cycle can be reached from a listed node, and not at all otherwise. *)
Lemma validateWorkflow_cycles (nodes : list WorkflowNode)
  (connections : list Connection) :
  exists r,
    validateWorkflow nodes connections = Some r
    /\ (cycleErrorCount (errors r) = 1
        /\ valid r = false
        /\ (exists n, In n nodes /\ cycleFrom connections (id n))
        \/ cycleErrorCount (errors r) = 0
           /\ ~ (exists n, In n nodes /\ cycleFrom connections (id n))).
Proof.
  unfold validateWorkflow.
  destruct (cycleScan_correct connections nodes) as [errs [-> [Hshape Hiff]]].
  eexists. split; [reflexivity|]. simpl.
  rewrite !cycleErrorCount_app, orphanErrors_other, triggerErrors_other.
  destruct Hshape as [-> | ->].
  - left. split; [reflexivity|]. split; [|now apply Hiff].
    rewrite !List.length_app. simpl. apply Nat.eqb_neq. lia.
  - right. split; [reflexivity|]. intros Hcycle. apply Hiff in Hcycle. discriminate.
Qed.

(** Along [A -> B -> C] with three distinct ids no walk comes back. *)
Lemma chain_acyclic (a b c : string) (c1 c2 : Connection) (x : string) :
  a <> b -> a <> c -> b <> c ->
  sourceId c1 = a -> targetId c1 = b ->
  sourceId c2 = b -> targetId c2 = c ->
  ~ tc (edge [c1; c2]) x x.
Proof.
  intros Hab Hac Hbc Hs1 Ht1 Hs2 Ht2.
  set (rank := fun y : string =>
                 if String.eqb y a then 0 else if String.eqb y b then 1 else 2).
  assert (Hedge : forall y z, edge [c1; c2] y z -> rank y < rank z).
  { intros y z [c0 [[<-|[<-|[]]] [<- <-]]]; unfold rank.
    - rewrite Hs1, Ht1, String.eqb_refl.
      rewrite (proj2 (String.eqb_neq b a)) by congruence.
      rewrite String.eqb_refl. lia.
    - rewrite Hs2, Ht2.
      rewrite (proj2 (String.eqb_neq b a)) by congruence.
      rewrite String.eqb_refl.
      rewrite (proj2 (String.eqb_neq c a)) by congruence.
      rewrite (proj2 (String.eqb_neq c b)) by congruence. lia. }
  assert (Hwalk : forall y z, tc (edge [c1; c2]) y z -> rank y < rank z).
  { intros y z Hyz. induction Hyz as [y z H1|y w z H1 _ IH].
    - now apply Hedge.
    - specialize (Hedge y w H1). lia. }
  intros Hcycle. specialize (Hwalk x x Hcycle). lia.
Qed.

(** C8.  The cycle check is a depth-first traversal: it returns for every
    node list and connection list, and it records the cycle error, once and
    with [valid = false], exactly when from some listed node the connections
    lead to a node that lies on a cycle, and not at all otherwise.  On two
    nodes joined by [A -> B] and [B -> A] the result is invalid and holds
    exactly one cycle error; on three nodes with distinct ids joined by
    [A -> B] and [B -> C] it holds none. *)
Theorem validateWorkflow_cycle_check :
  (forall nodes connections,
      exists r,
        validateWorkflow nodes connections = Some r
        /\ cycleErrorCount (errors r) <= 1
        /\ (cycleErrorCount (errors r) = 1
            <-> exists n, In n nodes /\ cycleFrom connections (id n))
        /\ (cycleErrorCount (errors r) = 1 -> valid r = false))
  /\ (forall a b c1 c2,
        connects c1 a b -> connects c2 b a ->
        exists r,
          validateWorkflow [a; b] [c1; c2] = Some r
          /\ valid r = false
          /\ cycleErrorCount (errors r) = 1)
  /\ (forall a b c c1 c2,
        id a <> id b -> id a <> id c -> id b <> id c ->
        connects c1 a b -> connects c2 b c ->
        exists r,
          validateWorkflow [a; b; c] [c1; c2] = Some r
          /\ cycleErrorCount (errors r) = 0).
Proof.
  split; [|split].
  - intros nodes connections.
    destruct (validateWorkflow_cycles nodes connections)
      as [r [Hr [[Hone [Hinvalid Hcycle]]|[Hnone Hfree]]]];
      exists r; (split; [exact Hr|]).
    + rewrite Hone. split; [lia|]. tauto.
    + rewrite Hnone. split; [lia|]. split; [|discriminate].
      split; [discriminate | intros Hcycle; now destruct Hfree].
  - intros a b c1 c2 [Hs1 Ht1] [Hs2 Ht2].
    destruct (validateWorkflow_cycles [a; b] [c1; c2])
      as [r [Hr [[Hone [Hinvalid _]]|[_ Hfree]]]].
    + now exists r.
    + exfalso. apply Hfree. exists a. split; [now left|].
      exists (id a). split; [apply rtc_refl|].
      apply (tc_l _ _ (id b)); [|apply tc_once].
      * exists c1. split; [now left | now split].
      * exists c2. split; [right; now left | now split].
  - intros a b c c1 c2 Hab Hac Hbc [Hs1 Ht1] [Hs2 Ht2].
    destruct (validateWorkflow_cycles [a; b; c] [c1; c2])
      as [r [Hr [[_ [_ [n [_ [y [_ Hcycle]]]]]]|[Hnone _]]]].
    + exfalso.
      now apply (chain_acyclic (id a) (id b) (id c) c1 c2 y).
    + now exists r.
Qed.

Lemma validateWorkflow_cycle_check_witness :
  (exists r,
      validateWorkflow [exampleNode "A" TRIGGER (obj []) true;
                        exampleNode "B" ACTION (obj []) true]
        [exampleConnection "A" "B"; exampleConnection "B" "A"] = Some r
      /\ valid r = false
      /\ cycleErrorCount (errors r) = 1)
  /\ (exists r,
        validateWorkflow [exampleNode "A" TRIGGER (obj []) true;
                          exampleNode "B" CONDITION (obj []) true;
                          exampleNode "C" ACTION (obj []) true]
          [exampleConnection "A" "B"; exampleConnection "B" "C"] = Some r
        /\ cycleErrorCount (errors r) = 0).
Proof.
  split.
  - apply (proj1 (proj2 validateWorkflow_cycle_check)); split; reflexivity.
  - apply (proj2 (proj2 validateWorkflow_cycle_check));
      try discriminate; split; reflexivity.
Defined.

(** The two graphs of the specification, run: the first gives the cycle
    error alone, the second no error at all. *)
Example validateWorkflow_examples :
  validateWorkflow [exampleNode "A" TRIGGER (obj []) true;
                    exampleNode "B" ACTION (obj []) true]
    [exampleConnection "A" "B"; exampleConnection "B" "A"]
  = Some {| valid := false; errors := [cycleError] |}
  /\ validateWorkflow [exampleNode "A" TRIGGER (obj []) true;
                       exampleNode "B" CONDITION (obj []) true;
                       exampleNode "C" ACTION (obj []) true]
       [exampleConnection "A" "B"; exampleConnection "B" "C"]
     = Some {| valid := true; errors := [] |}.
Proof. split; vm_compute; reflexivity. Qed.

(** ** The scenarios of the specification, run *)

Section Scenarios.
#[local] Existing Instance exampleHost.

(** 500 coins: the filter passes and the three nodes are executed. *)
Example scenario_pass :
  exists r st',
    executeWorkflow exampleClock scenarioNodes scenarioConnections
      (scenarioEvent 500%float) = (Ok r, st')
    /\ success r = true
    /\ executedNodes r = ["T"; "F"; "G"]
    /\ st_conditions st' !! "F" = Some true
    /\ levels (logs r)
       = [INIT; LTRIGGER; INIT; LCONDITION; INIT; LACTION; LACTION; LACTION; LACTION].
Proof. eexists. eexists. split; [vm_compute; reflexivity|]. repeat split. Qed.

(** 10 coins: the filter is executed and fails, the group never runs, and the
    run succeeds all the same. *)
Example scenario_fail :
  exists r st',
    executeWorkflow exampleClock scenarioNodes scenarioConnections
      (scenarioEvent 10%float) = (Ok r, st')
    /\ success r = true
    /\ executedNodes r = ["T"; "F"]
    /\ st_conditions st' !! "F" = Some false
    /\ levels (logs r) = [INIT; LTRIGGER; INIT; LCONDITION].
Proof. eexists. eexists. split; [vm_compute; reflexivity|]. repeat split. Qed.

(** No trigger node: the run fails at once. *)
Example scenario_no_trigger :
  exists r st',
    executeWorkflow exampleClock (List.tl scenarioNodes) scenarioConnections
      (scenarioEvent 500%float) = (Ok r, st')
    /\ success r = false
    /\ error r = Some "No trigger nodes found"
    /\ executedNodes r = []
    /\ levels (logs r) = [ERROR].
Proof. eexists. eexists. split; [vm_compute; reflexivity|]. repeat split. Qed.

(** A wildcard pattern matches the event types it is a prefix of. *)
Example wildcard_trigger :
  shouldExecuteTrigger
    (exampleNode "T" TRIGGER (obj [("eventType", VString "tiktok.*")]) true)
    [("type", VString "tiktok.gift_received")] = Ok true
  /\ shouldExecuteTrigger
       (exampleNode "T" TRIGGER (obj [("eventType", VString "twitch.*")]) true)
       [("type", VString "tiktok.gift_received")] = Ok false.
Proof. split; vm_compute; reflexivity. Qed.

(** An action group without any connection is reported as not connected;
    with one incoming connection it is not. *)
Example orphan_detection :
  orphanErrors [anyTrigger; idleAction] [] = [orphanError idleAction]
  /\ orphanErrors [anyTrigger; idleAction] [exampleConnection "T" "A"] = [].
Proof. split; reflexivity. Qed.

End Scenarios.

(* ===================================================================== *)
(** * Further properties *)
(* ===================================================================== *)

(** ** The steps of a run *)

Section StepFacts.
Context `{JSHost}.
Variable clock : Clock.

Lemma executeActions_trace (items : list value) (i : nat)
  (context : ExecutionContext) (st : ExecState) :
  Forall (fun a => nullish a = false /\ convertible (read a "type") = true)
    items ->
  exists new,
    executeActions clock items i context st = (Ok tt, addLogs st new)
    /\ levels new = repeat LACTION (List.length items)
    /\ List.map message new = actionMessages i items
    /\ timeoutLogged new = false.
Proof.
  intros Hitems. revert i st.
  induction Hitems as [|a items [Ha Hty] _ IH]; intros i st; simpl.
  - exists []. now rewrite addLogs_nil.
  - unfold executeSingleAction, bindE, lift.
    rewrite !(get_defined a _ Ha), (to_string_convertible _ Hty).
    unfold engine_log, addLog.
    match goal with
    | |- context [executeActions clock items (S i) context ?s] =>
        destruct (IH (S i) s) as [new [Hrun [Hlevels [Hmessages Hcap]]]]
    end.
    rewrite Hrun. eexists. split.
    + unfold addLogs. simpl. rewrite <- app_assoc. reflexivity.
    + simpl. now rewrite Hlevels, Hmessages, Hcap.
Qed.

(** Whether the loop over the actions raises, and with what, does not depend
    on the state. *)
Lemma executeActions_uniform (items : list value) (i : nat)
  (context : ExecutionContext) :
  exists r, forall st, exists new,
    timeoutLogged new = false
    /\ executeActions clock items i context st = (r, addLogs st new).
Proof.
  revert i. induction items as [|a items IH]; intros i; simpl.
  - exists (Ok tt). intros st. exists []. now rewrite addLogs_nil.
  - unfold executeSingleAction, bindE, lift.
    destruct (get a "type") as [ty|e] eqn:Hty;
      [|exists (Throw e); intros st; exists []; now rewrite addLogs_nil].
    destruct (to_string ty) as [shown|e];
      [|exists (Throw e); intros st; exists []; now rewrite addLogs_nil].
    rewrite !(get_Ok_all _ _ _ Hty).
    destruct (IH (S i)) as [r Hr]. exists r. intros st.
    unfold engine_log, addLog.
    match goal with
    | |- context [executeActions clock items (S i) context ?s] =>
        destruct (Hr s) as [new [Hcap Hrun]]
    end.
    rewrite Hrun. eexists. split; cycle 1.
    + unfold addLogs. simpl. rewrite <- app_assoc. reflexivity.
    + simpl. exact Hcap.
Qed.

(** Whether the step of a node raises does not depend on the state: it
    raises, having at most logged, or it returns, having logged and recorded
    the node's verdict. *)
Lemma executeKind_uniform (node : WorkflowNode) (context : ExecutionContext) :
  (exists e, forall st, exists new,
      timeoutLogged new = false
      /\ executeKind clock node context st = (Throw e, addLogs st new))
  \/ (exists b,
        verdict context node = Ok b
        /\ forall st, exists new,
             timeoutLogged new = false
             /\ executeKind clock node context st
                = (Ok tt, {| st_logs := st_logs st ++ new;
                             st_executed := st_executed st;
                             st_conditions := <[id node := b]> (st_conditions st) |})).
Proof.
  assert (Hraise : forall e (m : Exec unit),
            (forall st, m st = (Throw e, st)) ->
            exists e', forall st, exists new,
              timeoutLogged new = false /\ m st = (Throw e', addLogs st new)).
  { intros e m Hm. exists e. intros st. exists []. now rewrite addLogs_nil, Hm. }
  unfold executeKind, verdict. destruct (type node).
  - destruct (get (data node) "eventType") as [et|e] eqn:Het.
    + destruct (to_string (read (data node) "name")) as [shown|e] eqn:Hname.
      * right. exists true. split; [reflexivity|]. intros st.
        unfold executeTrigger, bindE, lift.
        rewrite !(get_Ok_all _ _ _ Het), Hname.
        eexists. split; [|reflexivity]. reflexivity.
      * left. apply (Hraise e). intros st. unfold executeTrigger, bindE, lift.
        now rewrite !(get_Ok_all _ _ _ Het), Hname.
    + left. apply (Hraise e). intros st. unfold executeTrigger, bindE, lift.
      now rewrite Het.
  - destruct (conditionOutcome (data node) context) as [passed|e] eqn:Hout.
    + right. exists passed. split; [reflexivity|]. intros st.
      unfold conditionOutcome, JS.bind in Hout.
      unfold executeCondition, bindE, lift.
      destruct (get (data node) "mode") as [md|e]; [|discriminate].
      rewrite Hout. eexists. split; [|reflexivity]. reflexivity.
    + left. apply (Hraise e). intros st.
      unfold conditionOutcome, JS.bind in Hout.
      unfold executeCondition, bindE, lift.
      destruct (get (data node) "mode") as [md|e']; [|congruence].
      now rewrite Hout.
  - destruct (get (data node) "actions") as [acts|e] eqn:Hacts.
    2:{ left. apply (Hraise e). intros st. unfold executeAction, bindE, lift.
        now rewrite Hacts. }
    destruct (or_else acts (VArray [])) as [| | | | |items|] eqn:Hitems.
    1-5,7:
      (left;
       assert (Hstep : exists e, forall st,
                 executeAction clock node context st = (Throw e, st));
       [unfold executeAction, bindE, lift;
        rewrite Hacts, !(get_Ok_all _ _ _ Hacts), Hitems;
        repeat match goal with
               | |- context [match ?r with Ok _ => _ | Throw _ => _ end] =>
                   destruct r
               end; eexists; intros st; reflexivity
       | destruct Hstep as [e He]; now apply (Hraise e)]).
    destruct (to_string (or_else (read (data node) "mode") (VString "SINGLE")))
      as [shown|e] eqn:Hmode.
    2:{ left. apply (Hraise e). intros st. unfold executeAction, bindE, lift.
        rewrite Hacts, !(get_Ok_all _ _ _ Hacts), Hitems, Hmode. reflexivity. }
    destruct (mapM (fun a => (ty <- get a "type" ;;
                              lb <- get a "label" ;;
                              Ok (obj [("type", ty);
                                       ("label", or_else lb (VString "Unnamed"))]))%js)
                   items) as [summary|e] eqn:Hmap.
    2:{ left. apply (Hraise e). intros st. unfold executeAction, bindE, lift.
        rewrite Hacts, !(get_Ok_all _ _ _ Hacts), Hitems, Hmode, Hmap. reflexivity. }
    destruct (executeActions_uniform items 0 context) as [[[]|e] Hr].
    + right. exists true. split; [reflexivity|]. intros st.
      unfold executeAction, bindE, lift.
      rewrite Hacts, !(get_Ok_all _ _ _ Hacts), Hitems, Hmode, Hmap.
      unfold engine_log at 1. unfold addLog. simpl.
      match goal with
      | |- context [executeActions clock items 0 context ?s] =>
          destruct (Hr s) as [new [Hcap Hnew]]; rewrite Hnew
      end.
      eexists. split; cycle 1.
      * unfold engine_log, addLog, set_condition, addLogs.
        simpl. rewrite <- !app_assoc. reflexivity.
      * unfold timeoutLogged in *. simpl. rewrite existsb_app, Hcap. reflexivity.
    + left. exists e. intros st.
      unfold executeAction, bindE, lift.
      rewrite Hacts, !(get_Ok_all _ _ _ Hacts), Hitems, Hmode, Hmap.
      unfold engine_log at 1. unfold addLog. simpl.
      match goal with
      | |- context [executeActions clock items 0 context ?s] =>
          destruct (Hr s) as [new [Hcap Hnew]]; rewrite Hnew
      end.
      eexists. split; cycle 1.
      * unfold addLogs. simpl. rewrite <- app_assoc. reflexivity.
      * simpl. exact Hcap.
Qed.

Lemma executeKind_verdict (node : WorkflowNode) (context : ExecutionContext)
  (st : ExecState) :
  (exists e new,
      timeoutLogged new = false
      /\ executeKind clock node context st = (Throw e, addLogs st new))
  \/ (exists b new,
        verdict context node = Ok b
        /\ timeoutLogged new = false
        /\ executeKind clock node context st
           = (Ok tt, {| st_logs := st_logs st ++ new;
                        st_executed := st_executed st;
                        st_conditions := <[id node := b]> (st_conditions st) |})).
Proof.
  destruct (executeKind_uniform node context) as [[e He]|[b [Hv Hok]]].
  - left. destruct (He st) as [new [Hcap Hrun]]. now exists e, new.
  - right. destruct (Hok st) as [new [Hcap Hrun]]. now exists b, new.
Qed.

(** A step that returns in one state returns in every state. *)
Lemma executeKind_returns_everywhere (node : WorkflowNode)
  (context : ExecutionContext) (st0 : ExecState) :
  (exists st1, executeKind clock node context st0 = (Ok tt, st1)) ->
  forall st, exists st', executeKind clock node context st = (Ok tt, st').
Proof.
  intros [st1 Hst0] st.
  destruct (executeKind_uniform node context) as [[e He]|[b [_ Hok]]].
  - destruct (He st0) as [new [_ Hrun]]. rewrite Hrun in Hst0. discriminate.
  - destruct (Hok st) as [new [_ ->]]. now eexists.
Qed.

(** [executeNode] either logs the start and the error of a step that raised,
    with what the step logged between them, or executes the node with its
    verdict. *)
Lemma executeNode_step (node : WorkflowNode) (context : ExecutionContext)
  (st : ExecState) :
  (exists e st1 new,
      executeKind clock node context (snd (logStart clock node st))
      = (Throw e, st1)
      /\ timeoutLogged new = false
      /\ executeNode clock node context st = (Ok tt, addLogs st new))
  \/ (exists b new,
        verdict context node = Ok b
        /\ timeoutLogged new = false
        /\ executeNode clock node context st = (Ok tt, afterNode st node b new)).
Proof.
  unfold executeNode, bindE, try_catchE.
  destruct (logStart clock node st) as [r st1] eqn:Hstart.
  assert (Hst1 : r = Ok tt
                 /\ exists entry, st1 = addLogs st [entry]
                                  /\ timeoutLogged [entry] = false).
  { unfold logStart, engine_log, addLog in Hstart. injection Hstart as <- <-.
    split; [reflexivity|]. eexists. split; reflexivity. }
  destruct Hst1 as [-> [entry [-> Hentry]]]. simpl snd.
  unfold timeoutLogged in Hentry. simpl in Hentry. rewrite orb_false_r in Hentry.
  destruct (executeKind_verdict node context (addLogs st [entry]))
    as [[e [raised [Hcap He]]]|[b [new [Hv [Hcap Hok]]]]].
  - left. exists e. eexists. eexists. split; [exact He|]. rewrite He. split; cycle 1.
    + unfold logError, engine_log, addLog, addLogs. simpl.
      rewrite <- !app_assoc. reflexivity.
    + unfold timeoutLogged in *. simpl.
      rewrite Hentry, existsb_app, Hcap. reflexivity.
  - right. rewrite Hok. exists b, (entry :: new). split; [exact Hv|]. split.
    + unfold timeoutLogged in *. simpl. now rewrite Hentry.
    + unfold add_executed, afterNode. simpl. rewrite <- app_assoc. reflexivity.
Qed.

(** The step of a trigger whose matcher returned reads its configuration
    again and prints its name: it does not raise when the name converts. *)
Lemma executeTrigger_returns (t : WorkflowNode) (event : TestEvent)
  (context : ExecutionContext) (st : ExecState) (b : bool) :
  type t = TRIGGER ->
  shouldExecuteTrigger t event = Ok b ->
  convertible (read (data t) "name") = true ->
  exists new,
    timeoutLogged new = false
    /\ executeNode clock t context st = (Ok tt, afterNode st t true new).
Proof.
  intros Htype Hmatch Hname.
  destruct (executeNode_step t context st)
    as [[e [st1 [new [He _]]]]|[b' [new [Hv [Hcap Hrun]]]]].
  - exfalso. unfold executeKind in He. rewrite Htype in He.
    unfold shouldExecuteTrigger, JS.bind in Hmatch.
    destruct (get (data t) "eventType") as [et|e'] eqn:Het; [|discriminate].
    unfold executeTrigger, bindE, lift in He.
    rewrite !(get_Ok_all _ _ _ Het), (to_string_convertible _ Hname) in He.
    discriminate.
  - exists new. unfold verdict in Hv. rewrite Htype in Hv.
    injection Hv as <-. now split.
Qed.

End StepFacts.

(** ** Properties every step of a run keeps *)

Section Preservation.
Context `{JSHost}.
Variable clock : Clock.
Variable ex : Executor.
Variable event : TestEvent.
Variable P : ExecState -> Prop.
Hypothesis P_logs :
  forall st new, timeoutLogged new = false -> P st -> P (addLogs st new).
Hypothesis P_release :
  forall m st b new,
    In m (ex_nodes ex) -> ready ex m st = true ->
    verdict (contextOf event) m = Ok b -> timeoutLogged new = false ->
    P st -> P (afterNode st m b new).
Hypothesis P_fire :
  forall t st new,
    In t (ex_nodes ex) -> type t = TRIGGER ->
    shouldExecuteTrigger t event = Ok true -> timeoutLogged new = false ->
    P st -> P (afterNode st t true new).
Hypothesis P_cap : forall st entry, P st -> P (addLogs st [entry]).

Lemma propagatePass_preserves (nodes : list WorkflowNode) (changed : bool)
  (st : ExecState) :
  Forall (fun m => In m (ex_nodes ex)) nodes ->
  P st ->
  P (snd (propagatePass clock ex (contextOf event) nodes changed st)).
Proof.
  intros Hnodes. revert changed st.
  induction Hnodes as [|m rest Hm _ IH]; intros changed st HP; simpl.
  - exact HP.
  - unfold bindE, get_state. destruct (ready ex m st) eqn:Hready; [|now apply IH].
    destruct (executeNode_step clock m (contextOf event) st)
      as [[e [st1 [new [_ [Hcap ->]]]]]|[b [new [Hv [Hcap ->]]]]]; apply IH.
    + now apply P_logs.
    + now apply P_release.
Qed.

Lemma propagateLoop_preserves (fuel : nat) (changed : bool) (iterations : nat)
  (st : ExecState) :
  P st ->
  P (snd (propagateLoop clock fuel ex (contextOf event) changed iterations st)).
Proof.
  revert changed iterations st.
  induction fuel as [|fuel IH]; intros changed iterations st HP; simpl.
  - exact HP.
  - destruct (changed && Nat.ltb iterations maxIterations); [|exact HP].
    unfold bindE.
    pose proof (propagatePass_preserves (ex_nodes ex) false st
                  ltac:(now apply List.Forall_forall) HP) as Hpass.
    destruct (propagatePass clock ex (contextOf event) (ex_nodes ex) false st)
      as [[changed'|e] st1]; [|exact Hpass].
    now apply IH.
Qed.

Lemma propagateExecution_preserves (st : ExecState) :
  P st -> P (snd (propagateExecution clock ex (contextOf event) st)).
Proof.
  intros HP. unfold propagateExecution, bindE.
  pose proof (propagateLoop_preserves maxIterations true 0 st HP) as Hloop.
  destruct (propagateLoop clock maxIterations ex (contextOf event) true 0 st)
    as [[iterations|e] st1]; [|exact Hloop].
  destruct (Nat.leb maxIterations iterations); [|exact Hloop].
  now apply (P_cap st1).
Qed.

Lemma executeTriggers_preserves (triggerNodes : list WorkflowNode)
  (st : ExecState) :
  Forall (fun m => In m (ex_nodes ex) /\ type m = TRIGGER) triggerNodes ->
  P st ->
  P (snd (executeTriggers clock triggerNodes event (contextOf event) st)).
Proof.
  intros Hts. revert st.
  induction Hts as [|t rest [Hin Htype] _ IH]; intros st HP; simpl.
  - exact HP.
  - unfold bindE, lift.
    destruct (shouldExecuteTrigger t event) as [[|]|e] eqn:Hmatch.
    + destruct (executeNode_step clock t (contextOf event) st)
        as [[e [st1 [new [_ [Hcap ->]]]]]|[b [new [Hv [Hcap ->]]]]]; apply IH.
      * now apply P_logs.
      * unfold verdict in Hv. rewrite Htype in Hv. injection Hv as <-.
        now apply P_fire.
    + now apply IH.
    + exact HP.
Qed.

(** A run ends in a state with the property, and returns what that state
    holds. *)
Lemma execute_preserves (st : ExecState) (r : ExecutionResult) (st' : ExecState) :
  P fresh_state ->
  execute clock ex event st = (Ok r, st') ->
  P st' /\ executedNodes r = st_executed st' /\ logs r = st_logs st'.
Proof.
  intros Hfresh. destruct (findTriggerNodes ex) as [|t ts] eqn:Hts.
  - unfold execute, bindE, reset. rewrite Hts. simpl.
    intros [= <- <-]. split; [|split; reflexivity].
    now apply (P_cap fresh_state).
  - rewrite (execute_with_trigger clock ex event st) by now rewrite Hts.
    unfold bindE.
    pose proof (executeTriggers_preserves (findTriggerNodes ex) fresh_state
                  (findTriggerNodes_listed ex) Hfresh) as Hfire.
    destruct (executeTriggers clock (findTriggerNodes ex) event (contextOf event)
                fresh_state) as [[[]|e] st1]; [|discriminate].
    pose proof (propagateExecution_preserves st1 Hfire) as Hprop.
    destruct (propagateExecution clock ex (contextOf event) st1)
      as [[[]|e] st2]; [|discriminate].
    unfold get_state, ret. intros [= <- <-]. now split.
Qed.

End Preservation.

(** ** Every executed node is accounted for *)

Lemma set_has_In (x : string) (l : list string) : set_has x l = true <-> In x l.
Proof.
  unfold set_has. rewrite existsb_exists. split.
  - intros [y [Hy Heq]]. apply String.eqb_eq in Heq. now subst.
  - intros Hx. exists x. split; [exact Hx | apply String.eqb_refl].
Qed.

Lemma set_has_not_In (x : string) (l : list string) :
  set_has x l = false <-> ~ In x l.
Proof.
  rewrite <- set_has_In. destruct (set_has x l); split; congruence.
Qed.

Lemma set_add_new (x : string) (l : list string) :
  set_has x l = false -> set_add x l = (l ++ [x])%list.
Proof. unfold set_add. now intros ->. Qed.

Lemma set_add_old (x : string) (l : list string) :
  set_has x l = true -> set_add x l = l.
Proof. unfold set_add. now intros ->. Qed.

Lemma In_set_add (x y : string) (l : list string) :
  In x (set_add y l) <-> x = y \/ In x l.
Proof.
  unfold set_add. destruct (set_has y l) eqn:Hy.
  - apply set_has_In in Hy. split; [now right|]. now intros [->|Hx].
  - rewrite in_app_iff. simpl. split; [intros [Hx|[<-|[]]]|intros [->|Hx]]; auto.
Qed.

Lemma NoDup_set_add (x : string) (l : list string) :
  List.NoDup l -> List.NoDup (set_add x l).
Proof.
  intros Hl. unfold set_add. destruct (set_has x l) eqn:Hx; [exact Hl|].
  apply set_has_not_In in Hx.
  revert Hx. induction Hl as [|y l Hy _ IH]; intros Hx; simpl.
  - constructor; [intros []|constructor].
  - constructor.
    + rewrite in_app_iff. simpl. intros [Hin|[->|[]]]; [contradiction|].
      apply Hx. now left.
    + apply IH. intros Hin. apply Hx. now right.
Qed.

Lemma before_app (l extra : list string) (x y : string) :
  before l x y -> before (l ++ extra)%list x y.
Proof.
  intros [l1 [l2 [-> Hx]]]. exists l1, (l2 ++ extra)%list.
  split; [|exact Hx]. now rewrite <- app_assoc.
Qed.

Lemma before_In (l : list string) (x y : string) : before l x y -> In x l.
Proof. intros [l1 [l2 [-> Hx]]]. apply in_or_app. now left. Qed.

Lemma before_last (l : list string) (x y : string) :
  In x l -> before (l ++ [y])%list x y.
Proof. intros Hx. now exists l, []. Qed.

Lemma parentConnections_In (ex : Executor) (m : WorkflowNode) (c : Connection) :
  In c (parentConnections ex m)
  <-> In c (ex_connections ex) /\ targetId c = id m.
Proof.
  unfold parentConnections. rewrite filter_In, String.eqb_eq. reflexivity.
Qed.

Lemma nodePassedCondition_ext (ex : Executor) (s : string) (st1 st2 : ExecState) :
  st_conditions st1 !! s = st_conditions st2 !! s ->
  nodePassedCondition ex s st1 = nodePassedCondition ex s st2.
Proof. unfold nodePassedCondition. now intros ->. Qed.

(** What a passed source tells: it is the id of a node of the executor, and
    when the first such node is a filter, the outcome recorded for it is
    [true]. *)
Lemma nodePassedCondition_true (ex : Executor) (s : string) (st : ExecState) :
  nodePassedCondition ex s st = true ->
  exists n, In n (ex_nodes ex) /\ id n = s
            /\ (type n = CONDITION -> st_conditions st !! s = Some true).
Proof.
  unfold nodePassedCondition.
  destruct (find _ (ex_nodes ex)) as [n|] eqn:Hfind; [|discriminate].
  apply find_some in Hfind. destruct Hfind as [Hin Hid].
  apply String.eqb_eq in Hid. intros Hpass. exists n.
  split; [exact Hin|]. split; [exact Hid|]. intros Htype.
  rewrite Htype in Hpass. simpl in Hpass.
  destruct (st_conditions st !! s) as [[|]|]; congruence.
Qed.

Section Accounting.
Context `{JSHost}.
Variable ex : Executor.
Variable event : TestEvent.

Lemma released_grow (st st' : ExecState) (extra : list string) (m : WorkflowNode) :
  st_executed st' = (st_executed st ++ extra)%list ->
  (forall s, In s (st_executed st) ->
             nodePassedCondition ex s st = true ->
             nodePassedCondition ex s st' = true) ->
  released ex st m -> released ex st' m.
Proof.
  intros Hexec Hpass [Htype [Hparents [Hbefore [c [Hc Hpassed]]]]].
  split; [exact Htype|]. split; [exact Hparents|]. split.
  - intros c' Hc'. rewrite Hexec. apply before_app. now apply Hbefore.
  - exists c. split; [exact Hc|]. apply Hpass; [|exact Hpassed].
    eapply before_In. now apply Hbefore.
Qed.

Lemma wellAccounted_logs (st : ExecState) (new : list LogEntry) :
  wellAccounted ex event st -> wellAccounted ex event (addLogs st new).
Proof.
  intros [Hnodup [Hacc Hdom]]. split; [exact Hnodup|]. split; [|exact Hdom].
  intros x Hx. destruct (Hacc x Hx) as [m [b [Hin [Hid [Hv [Hrec Hwhy]]]]]].
  exists m, b. repeat (split; [assumption|]).
  destruct Hwhy as [Hfired|Hrel]; [now left|right].
  apply (released_grow st _ []); [simpl; now rewrite app_nil_r| |exact Hrel].
  intros s _. now rewrite (nodePassedCondition_ext ex s (addLogs st new) st).
Qed.

Lemma wellAccounted_fresh : wellAccounted ex event fresh_state.
Proof.
  split; [constructor|]. split.
  - intros x [].
  - intros x [b Hb]. simpl in Hb. now rewrite lookup_empty in Hb.
Qed.

(** Executing a node whose id is new keeps what holds of the others. *)
Lemma accounted_others (st : ExecState) (m : WorkflowNode) (b : bool)
  (new : list LogEntry) (x : string) :
  set_has (id m) (st_executed st) = false ->
  In x (st_executed st) ->
  accounted ex event st x -> accounted ex event (afterNode st m b new) x.
Proof.
  intros Hnew Hx [m0 [b0 [Hin [Hid [Hv [Hrec Hwhy]]]]]].
  assert (Hfresh : forall s, In s (st_executed st) -> id m <> s).
  { intros s Hs Heq. subst s. apply set_has_not_In in Hnew. contradiction. }
  exists m0, b0. repeat (split; [assumption|]). split.
  - unfold afterNode; simpl. rewrite lookup_insert_ne; [exact Hrec | now apply Hfresh].
  - destruct Hwhy as [Hfired|Hrel]; [now left|right].
    apply (released_grow st _ [id m]); [unfold afterNode; simpl; now apply set_add_new| |exact Hrel].
    intros s Hs Hpass.
    rewrite (nodePassedCondition_ext ex s _ st); [exact Hpass|].
    unfold afterNode; simpl. apply lookup_insert_ne. now apply Hfresh.
Qed.

Lemma wellAccounted_release (m : WorkflowNode) (st : ExecState) (b : bool)
  (new : list LogEntry) :
  In m (ex_nodes ex) ->
  ready ex m st = true ->
  verdict (contextOf event) m = Ok b ->
  wellAccounted ex event st ->
  wellAccounted ex event (afterNode st m b new).
Proof.
  intros Hin Hready Hv [Hnodup [Hacc Hdom]].
  apply ready_true in Hready.
  destruct Hready as [Hnew [Htype [Hparents [Hall Hsome]]]].
  split; [now apply NoDup_set_add|]. split.
  - intros x Hx. apply In_set_add in Hx. destruct Hx as [->|Hx].
    + exists m, b. repeat (split; [easy|]). split.
      * unfold afterNode; simpl. apply lookup_insert_eq.
      * right. split.
        { intros Heq. now rewrite Heq in Htype. }
        split; [exact Hparents|]. split.
        { intros c Hc. unfold afterNode; simpl. rewrite (set_add_new _ _ Hnew).
          apply before_last. apply set_has_In.
          rewrite forallb_forall in Hall. now apply Hall. }
        { apply existsb_exists in Hsome. destruct Hsome as [c [Hc Hpass]].
          exists c. split; [exact Hc|].
          rewrite (nodePassedCondition_ext ex _ _ st); [exact Hpass|].
          unfold afterNode; simpl. apply lookup_insert_ne. intros Heq.
          rewrite forallb_forall in Hall. specialize (Hall c Hc).
          rewrite <- Heq in Hall. congruence. }
    + now apply accounted_others; [| |apply Hacc].
  - intros x Hx. apply In_set_add. unfold afterNode in Hx; simpl in Hx.
    destruct (decide (id m = x)) as [->|Hne]; [now left|right].
    rewrite lookup_insert_ne in Hx by exact Hne. now apply Hdom.
Qed.

Lemma wellAccounted_fire (t : WorkflowNode) (st : ExecState)
  (new : list LogEntry) :
  In t (ex_nodes ex) ->
  type t = TRIGGER ->
  shouldExecuteTrigger t event = Ok true ->
  wellAccounted ex event st ->
  wellAccounted ex event (afterNode st t true new).
Proof.
  intros Hin Htype Hmatch [Hnodup [Hacc Hdom]].
  assert (Hself : accounted ex event (afterNode st t true new) (id t)).
  { exists t, true. repeat (split; [easy|]). split.
    - unfold verdict. now rewrite Htype.
    - split; [unfold afterNode; simpl; apply lookup_insert_eq | now left]. }
  split; [now apply NoDup_set_add|]. split.
  - intros x Hx. destruct (decide (id t = x)) as [<-|Hne]; [exact Hself|].
    apply In_set_add in Hx. destruct Hx as [->|Hx]; [contradiction|].
    destruct (Hacc x Hx) as [m0 [b0 [Hin0 [Hid [Hv [Hrec Hwhy]]]]]].
    exists m0, b0. repeat (split; [assumption|]). split.
    + unfold afterNode; simpl. now rewrite lookup_insert_ne.
    + destruct Hwhy as [Hfired|Hrel]; [now left|right].
      destruct (set_has (id t) (st_executed st)) eqn:Hold.
      * apply (released_grow st _ []);
          [unfold afterNode; simpl; rewrite (set_add_old _ _ Hold); now rewrite app_nil_r|
          |exact Hrel].
        intros s _. unfold nodePassedCondition.
        destruct (find _ (ex_nodes ex)); [|easy].
        destruct (_ || _); [easy|]. simpl.
        destruct (decide (id t = s)) as [->|Hs].
        -- now rewrite lookup_insert_eq.
        -- now rewrite lookup_insert_ne.
      * apply (released_grow st _ [id t]);
          [unfold afterNode; simpl; now apply set_add_new| |exact Hrel].
        intros s Hs Hpass.
        rewrite (nodePassedCondition_ext ex s _ st); [exact Hpass|].
        unfold afterNode; simpl. apply lookup_insert_ne. intros <-.
        apply set_has_not_In in Hold. contradiction.
  - intros x Hx. apply In_set_add. unfold afterNode in Hx; simpl in Hx.
    destruct (decide (id t = x)) as [->|Hne]; [now left|right].
    rewrite lookup_insert_ne in Hx by exact Hne. now apply Hdom.
Qed.

(** A run ends in a state in which every executed id is accounted for. *)
Lemma execute_wellAccounted (clock : Clock) (st : ExecState)
  (r : ExecutionResult) (st' : ExecState) :
  execute clock ex event st = (Ok r, st') ->
  wellAccounted ex event st'
  /\ executedNodes r = st_executed st' /\ logs r = st_logs st'.
Proof.
  apply (execute_preserves clock ex event (wellAccounted ex event)).
  - intros st0 new _. apply wellAccounted_logs.
  - intros m st0 b new Hin Hready Hv _. now apply wellAccounted_release.
  - intros t st0 new Hin Htype Hmatch _. now apply wellAccounted_fire.
  - intros st0 entry. apply wellAccounted_logs.
  - apply wellAccounted_fresh.
Qed.

End Accounting.

(** X1.  Every id a run reports as executed is listed once, and is the id of
    an enabled node that either is a trigger whose matcher accepted the event
    or was released: it is no trigger, has a connection into it, the source
    of every connection into it was executed before it, and the source of
    one of them passed. *)
Theorem executed_nodes_accounted `{JSHost} (clock : Clock)
  (nodes : list WorkflowNode) (connections : list Connection)
  (event : TestEvent) (r : ExecutionResult) (st' : ExecState) :
  executeWorkflow clock nodes connections event = (Ok r, st') ->
  List.NoDup (executedNodes r)
  /\ st_executed st' = executedNodes r
  /\ forall x, In x (executedNodes r) ->
       exists m, In m nodes /\ enabled m = true /\ id m = x
                 /\ (fired event m
                     \/ released (new_WorkflowExecutor nodes connections) st' m).
Proof.
  intros Hrun. unfold executeWorkflow in Hrun. apply execute_wellAccounted in Hrun.
  destruct Hrun as [[Hnodup [Hacc _]] [Hexec _]]. rewrite Hexec.
  split; [exact Hnodup|]. split; [reflexivity|].
  intros x Hx. destruct (Hacc x Hx) as [m [b [Hin [Hid [_ [_ Hwhy]]]]]].
  apply filter_In in Hin. destruct Hin as [Hin Hon]. now exists m.
Qed.

(** X2.  After a run an outcome is recorded for exactly the executed ids,
    and the outcome recorded for an executed id is the verdict of an enabled
    node with that id: the value of its condition on the event for a filter,
    [true] for a trigger and for an action group. *)
Theorem outcomes_recorded `{JSHost} (clock : Clock)
  (nodes : list WorkflowNode) (connections : list Connection)
  (event : TestEvent) (r : ExecutionResult) (st' : ExecState) :
  executeWorkflow clock nodes connections event = (Ok r, st') ->
  forall x,
    (is_Some (st_conditions st' !! x) <-> In x (executedNodes r))
    /\ (In x (executedNodes r) ->
        exists m b, In m nodes /\ enabled m = true /\ id m = x
                    /\ verdict (contextOf event) m = Ok b
                    /\ st_conditions st' !! x = Some b).
Proof.
  intros Hrun x. unfold executeWorkflow in Hrun. apply execute_wellAccounted in Hrun.
  destruct Hrun as [[_ [Hacc Hdom]] [Hexec _]]. rewrite Hexec.
  assert (Hrec : In x (st_executed st') ->
                 exists m b, In m nodes /\ enabled m = true /\ id m = x
                             /\ verdict (contextOf event) m = Ok b
                             /\ st_conditions st' !! x = Some b).
  { intros Hx. destruct (Hacc x Hx) as [m [b [Hin [Hid [Hv [Hb _]]]]]].
    apply filter_In in Hin. destruct Hin as [Hin Hon]. now exists m, b. }
  split; [|exact Hrec]. split; [apply Hdom|].
  intros Hx. destruct (Hrec Hx) as [m [b [_ [_ [_ [_ Hb]]]]]]. now exists b.
Qed.

(** X3.  A node that is no trigger and into which every connection comes
    from filters whose condition is not true on the event is not executed. *)
Theorem failed_filters_block `{JSHost} (clock : Clock)
  (nodes : list WorkflowNode) (connections : list Connection)
  (event : TestEvent) (r : ExecutionResult) (st' : ExecState) (x : string) :
  executeWorkflow clock nodes connections event = (Ok r, st') ->
  (forall m, In m nodes -> enabled m = true -> id m = x -> type m <> TRIGGER) ->
  (forall c p, In c connections -> targetId c = x ->
               In p nodes -> enabled p = true -> id p = sourceId c ->
               type p = CONDITION /\ verdict (contextOf event) p <> Ok true) ->
  ~ In x (executedNodes r).
Proof.
  intros Hrun Hkind Hparents Hx.
  unfold executeWorkflow in Hrun. apply execute_wellAccounted in Hrun.
  destruct Hrun as [[_ [Hacc Hdom]] [Hexec _]]. rewrite Hexec in Hx.
  destruct (Hacc x Hx) as [m [b [Hin [Hid [_ [_ Hwhy]]]]]].
  apply filter_In in Hin. destruct Hin as [Hin Hon].
  destruct Hwhy as [[Htype _]|[_ [_ [_ [c [Hc Hpass]]]]]].
  - now apply (Hkind m Hin Hon Hid).
  - apply parentConnections_In in Hc. destruct Hc as [Hc Htarget].
    simpl in Hc. rewrite Hid in Htarget.
    apply nodePassedCondition_true in Hpass.
    destruct Hpass as [n [Hn [Hnid Hrec]]].
    apply filter_In in Hn. destruct Hn as [Hn Hnon].
    destruct (Hparents c n Hc Htarget Hn Hnon Hnid) as [Hfilter _].
    specialize (Hrec Hfilter).
    assert (Hs : In (sourceId c) (st_executed st')).
    { apply Hdom. now exists true. }
    destruct (Hacc _ Hs) as [p [b' [Hp [Hpid [Hv [Hb' _]]]]]].
    apply filter_In in Hp. destruct Hp as [Hp Hpon].
    destruct (Hparents c p Hc Htarget Hp Hpon Hpid) as [_ Hfail].
    apply Hfail. congruence.
Qed.

(** ** Cycles *)

Lemma tc_last_step {A} (R : relation A) (x z : A) :
  tc R x z -> exists y, rtc R x y /\ R y z.
Proof.
  induction 1 as [x z Hxz|x y z Hxy _ [y' [Hrtc Hlast]]].
  - exists x. split; [constructor | exact Hxz].
  - exists y'. split; [|exact Hlast]. now apply rtc_l with y.
Qed.

(** A node reached from a cycle is the target of a connection whose source
    is reached from a cycle. *)
Lemma afterCycle_pred (connections : list Connection) (z : string) :
  afterCycle connections z ->
  exists p, edge connections p z /\ afterCycle connections p.
Proof.
  intros [x [Hcycle Hreach]].
  apply rtc_inv_r in Hreach. destruct Hreach as [<-|[p [Hxp Hpz]]].
  - destruct (tc_last_step _ _ _ Hcycle) as [p [Hxp Hpx]].
    exists p. split; [exact Hpx|]. now exists x.
  - exists p. split; [exact Hpz|]. now exists x.
Qed.

Lemma NoDup_split_unique (l1 l2 l1' l2' : list string) (z : string) :
  List.NoDup (l1 ++ z :: l2)%list ->
  (l1 ++ z :: l2 = l1' ++ z :: l2')%list ->
  l1 = l1'.
Proof.
  revert l1'. induction l1 as [|a l1 IH]; intros [|a' l1'] Hnodup Heq;
    simpl in *.
  - reflexivity.
  - injection Heq as <- ->. apply List.NoDup_cons_iff in Hnodup.
    destruct Hnodup as [Hz _]. exfalso. apply Hz.
    apply in_or_app. right. now left.
  - injection Heq as -> <-. apply List.NoDup_cons_iff in Hnodup.
    destruct Hnodup as [Hz _]. exfalso. apply Hz.
    apply in_or_app. right. now left.
  - injection Heq as <- Heq. apply List.NoDup_cons_iff in Hnodup.
    destruct Hnodup as [_ Hnodup]. f_equal. now apply IH.
Qed.

(** X4.  When no enabled trigger is the target of a connection, a node that
    lies on a cycle of connections, or that connections lead to from such a
    node, is never executed. *)
Theorem cycle_nodes_never_execute `{JSHost} (clock : Clock)
  (nodes : list WorkflowNode) (connections : list Connection)
  (event : TestEvent) (r : ExecutionResult) (st' : ExecState) :
  executeWorkflow clock nodes connections event = (Ok r, st') ->
  (forall m c, In m nodes -> enabled m = true -> type m = TRIGGER ->
               In c connections -> targetId c <> id m) ->
  forall z, afterCycle connections z -> ~ In z (executedNodes r).
Proof.
  intros Hrun Hsources.
  unfold executeWorkflow in Hrun. apply execute_wellAccounted in Hrun.
  destruct Hrun as [[Hnodup [Hacc _]] [Hexec _]]. rewrite Hexec.
  assert (Hpos : forall n z l1 l2,
             List.length l1 = n ->
             st_executed st' = (l1 ++ z :: l2)%list ->
             afterCycle connections z -> False).
  { induction n as [n IH] using lt_wf_ind. intros z l1 l2 Hlen Hsplit Hz.
    assert (Hin : In z (st_executed st')).
    { rewrite Hsplit. apply in_or_app. right. now left. }
    destruct (Hacc z Hin) as [m [b [Hm [Hid [_ [_ Hwhy]]]]]].
    apply filter_In in Hm. destruct Hm as [Hm Hon].
    destruct (afterCycle_pred _ _ Hz) as [p [[c [Hc [Hsrc Htgt]]] Hp]].
    destruct Hwhy as [[Htype _]|[_ [_ [Hbefore _]]]].
    - apply (Hsources m c Hm Hon Htype Hc). congruence.
    - assert (Hparent : In c (parentConnections
                                (new_WorkflowExecutor nodes connections) m)).
      { apply parentConnections_In. split; [exact Hc | congruence]. }
      destruct (Hbefore c Hparent) as [l1' [l2' [Hsplit' Hp1]]].
      rewrite Hid, Hsrc in *.
      assert (l1 = l1').
      { apply (NoDup_split_unique l1 l2 l1' l2' z); [|congruence].
        now rewrite <- Hsplit. }
      subst l1'. apply in_split in Hp1. destruct Hp1 as [a [b' ->]].
      apply (IH (List.length a)) with (z := p) (l1 := a)
                                      (l2 := (b' ++ z :: l2)%list).
      + subst n. rewrite length_app. simpl. lia.
      + reflexivity.
      + rewrite Hsplit. now rewrite <- app_assoc.
      + exact Hp. }
  intros z Hz Hin. apply in_split in Hin. destruct Hin as [l1 [l2 Hsplit]].
  now apply (Hpos (List.length l1) z l1 l2).
Qed.

(** ** What a run does not leave undone *)

Section Completeness.
Context `{JSHost}.
Variable clock : Clock.
Variable ex : Executor.
Variable context : ExecutionContext.

Lemma ready_nothing_executed (m : WorkflowNode) (st : ExecState) :
  st_executed st = [] -> ready ex m st = false.
Proof.
  intros Hnone. unfold ready. rewrite Hnone. simpl.
  destruct (NodeType_eqb (type m) TRIGGER); [reflexivity|].
  now destruct (parentConnections ex m).
Qed.

Lemma propagatePass_idle (nodes : list WorkflowNode) (changed : bool)
  (st : ExecState) :
  Forall (fun m => ready ex m st = false) nodes ->
  propagatePass clock ex context nodes changed st = (Ok changed, st).
Proof.
  induction 1 as [|m rest Hm _ IH]; simpl; [reflexivity|].
  unfold bindE, get_state. now rewrite Hm.
Qed.

Lemma propagateLoop_idle (fuel iterations : nat) (st : ExecState) :
  Forall (fun m => ready ex m st = false) (ex_nodes ex) ->
  fuel <> 0 ->
  iterations < maxIterations ->
  propagateLoop clock fuel ex context true iterations st = (Ok (S iterations), st).
Proof.
  intros Hidle Hfuel Hlt. destruct fuel as [|fuel]; [contradiction|].
  cbn [propagateLoop]. rewrite (proj2 (Nat.ltb_lt _ _) Hlt). cbn [andb].
  unfold bindE. rewrite (propagatePass_idle _ _ _ Hidle).
  now destruct fuel.
Qed.

Lemma propagateExecution_idle (st : ExecState) :
  Forall (fun m => ready ex m st = false) (ex_nodes ex) ->
  propagateExecution clock ex context st = (Ok tt, st).
Proof.
  intros Hidle. unfold propagateExecution, bindE.
  rewrite (propagateLoop_idle maxIterations 0 st Hidle);
    [reflexivity | discriminate | unfold maxIterations; lia].
Qed.

(** A loop that stops short of the cap stops after a pass that found no node
    ready. *)
Lemma propagateLoop_quiescent (fuel : nat) (changed : bool) (iterations : nat)
  (st : ExecState) (k : nat) (st' : ExecState) :
  propagateLoop clock fuel ex context changed iterations st = (Ok k, st') ->
  maxIterations <= iterations + fuel ->
  k < maxIterations ->
  changed = true ->
  Forall (fun m => ready ex m st' = false) (ex_nodes ex).
Proof.
  revert changed iterations st.
  induction fuel as [|fuel IH]; intros changed iterations st; cbn [propagateLoop].
  - unfold ret. intros [= <- <-]. lia.
  - intros Hloop Hfuel Hk ->. cbn [andb] in Hloop.
    destruct (Nat.ltb iterations maxIterations) eqn:Hlt.
    + unfold bindE in Hloop.
      destruct (propagatePass clock ex context (ex_nodes ex) false st)
        as [[changed'|e] st1] eqn:Hpass; [|discriminate].
      destruct changed'.
      * apply (IH true (S iterations) st1 Hloop); [lia | exact Hk | reflexivity].
      * apply propagatePass_unchanged in Hpass. destruct Hpass as [-> Hidle].
        assert (Hstop : st' = st).
        { destruct fuel; cbn [propagateLoop andb] in Hloop;
            unfold ret in Hloop; congruence. }
        now subst st'.
    + unfold ret in Hloop. injection Hloop as <- <-.
      apply Nat.ltb_ge in Hlt. lia.
Qed.

Lemma timeoutLogged_last (entries : list LogEntry) (entry : LogEntry) :
  message entry = "Workflow execution timeout - possible infinite loop" ->
  timeoutLogged (entries ++ [entry]) = true.
Proof.
  intros Hmsg. unfold timeoutLogged. rewrite existsb_app. simpl.
  rewrite Hmsg, String.eqb_refl. now rewrite orb_true_r.
Qed.

Lemma propagateExecution_quiescent (st st' : ExecState) :
  propagateExecution clock ex context st = (Ok tt, st') ->
  timeoutLogged (st_logs st') = false ->
  Forall (fun m => ready ex m st' = false) (ex_nodes ex).
Proof.
  unfold propagateExecution, bindE.
  destruct (propagateLoop clock maxIterations ex context true 0 st)
    as [[k|e] st1] eqn:Hloop; [|discriminate].
  destruct (Nat.leb maxIterations k) eqn:Hcap.
  - unfold engine_log, addLog. intros [= <-]. simpl.
    now rewrite timeoutLogged_last.
  - unfold ret. intros [= <-] _. apply Nat.leb_gt in Hcap.
    now apply (propagateLoop_quiescent maxIterations true 0 st k st1).
Qed.

End Completeness.

(** X5.  A run whose trace does not hold the entry of the iteration cap
    left nothing undone: every enabled node that is no trigger, has a
    connection into it, has the source of every connection into it executed
    and the source of one of them passed, was executed. *)
Theorem propagation_complete `{JSHost} (clock : Clock)
  (nodes : list WorkflowNode) (connections : list Connection)
  (event : TestEvent) (r : ExecutionResult) (st' : ExecState) (m : WorkflowNode) :
  executeWorkflow clock nodes connections event = (Ok r, st') ->
  timeoutLogged (logs r) = false ->
  In m nodes -> enabled m = true ->
  type m <> TRIGGER ->
  parentConnections (new_WorkflowExecutor nodes connections) m <> [] ->
  (forall c, In c (parentConnections (new_WorkflowExecutor nodes connections) m) ->
             In (sourceId c) (executedNodes r)) ->
  (exists c, In c (parentConnections (new_WorkflowExecutor nodes connections) m)
             /\ nodePassedCondition (new_WorkflowExecutor nodes connections)
                  (sourceId c) st' = true) ->
  In (id m) (executedNodes r).
Proof.
  intros Hrun Hcap Hin Hon Htype Hparents Hall [c [Hc Hpass]].
  set (ex := new_WorkflowExecutor nodes connections) in *.
  assert (Hm : In m (ex_nodes ex)) by (apply filter_In; now split).
  assert (Hfacts : executedNodes r = st_executed st'
                   /\ Forall (fun n => ready ex n st' = false) (ex_nodes ex)).
  { unfold executeWorkflow in Hrun. fold ex in Hrun.
    destruct (findTriggerNodes ex) as [|t ts] eqn:Hts.
    - unfold execute, bindE, reset in Hrun. rewrite Hts in Hrun. simpl in Hrun.
      injection Hrun as <- <-. split; [reflexivity|].
      apply List.Forall_forall. intros n _. now apply ready_nothing_executed.
    - rewrite (execute_with_trigger clock ex event fresh_state) in Hrun
        by now rewrite Hts.
      unfold bindE in Hrun.
      destruct (executeTriggers clock (findTriggerNodes ex) event
                  (contextOf event) fresh_state) as [[[]|e] st1]; [|discriminate].
      destruct (propagateExecution clock ex (contextOf event) st1)
        as [[[]|e] st2] eqn:Hprop; [|discriminate].
      unfold get_state, ret in Hrun. injection Hrun as <- <-.
      split; [reflexivity|].
      now apply (propagateExecution_quiescent clock ex (contextOf event) st1). }
  destruct Hfacts as [Hexec Hidle]. rewrite Hexec in *.
  rewrite List.Forall_forall in Hidle. specialize (Hidle m Hm).
  destruct (set_has (id m) (st_executed st')) eqn:Hdone;
    [now apply set_has_In|].
  exfalso. assert (Hready : ready ex m st' = true); [|congruence].
  apply ready_true. split; [exact Hdone|]. split.
  { destruct (type m); try reflexivity. contradiction. }
  split; [exact Hparents|]. split.
  - apply forallb_forall. intros c' Hc'. apply set_has_In. now apply Hall.
  - apply existsb_exists. now exists c.
Qed.

(** ** When the cap is not reached *)

Section NoRaise.
Context `{JSHost}.
Variable clock : Clock.
Variable ex : Executor.
Variable event : TestEvent.
Hypothesis no_raise :
  forall m st, In m (ex_nodes ex) ->
    exists st', executeKind clock m (contextOf event) st = (Ok tt, st').

Lemma executeNode_no_raise (m : WorkflowNode) (st : ExecState) :
  In m (ex_nodes ex) ->
  exists b new,
    executeNode clock m (contextOf event) st = (Ok tt, afterNode st m b new).
Proof.
  intros Hin.
  destruct (executeNode_step clock m (contextOf event) st)
    as [[e [st1 [new [He _]]]]|[b [new [_ [_ Hrun]]]]].
  - destruct (no_raise m (snd (logStart clock m st)) Hin) as [st' Hok].
    congruence.
  - now exists b, new.
Qed.

Lemma withinNodes_length (st : ExecState) :
  withinNodes ex st -> List.length (st_executed st) <= List.length (ex_nodes ex).
Proof.
  intros [Hnodup Hincl]. rewrite <- (length_map id (ex_nodes ex)).
  now apply List.NoDup_incl_length.
Qed.

Lemma withinNodes_afterNode (m : WorkflowNode) (st : ExecState) (b : bool)
  (new : list LogEntry) :
  In m (ex_nodes ex) ->
  withinNodes ex st -> withinNodes ex (afterNode st m b new).
Proof.
  intros Hin [Hnodup Hincl]. split; [now apply NoDup_set_add|].
  intros x Hx. apply In_set_add in Hx. destruct Hx as [->|Hx].
  - now apply in_map.
  - now apply Hincl.
Qed.

Lemma propagatePass_grows (nodes : list WorkflowNode) (changed : bool)
  (st : ExecState) :
  Forall (fun m => In m (ex_nodes ex)) nodes ->
  withinNodes ex st ->
  exists changed' st',
    propagatePass clock ex (contextOf event) nodes changed st = (Ok changed', st')
    /\ withinNodes ex st'
    /\ List.length (st_executed st) <= List.length (st_executed st')
    /\ (changed' = true ->
        changed = true
        \/ List.length (st_executed st) < List.length (st_executed st')).
Proof.
  intros Hnodes. revert changed st.
  induction Hnodes as [|m rest Hm _ IH]; intros changed st Hin; simpl.
  - exists changed, st. split; [reflexivity|]. split; [exact Hin|].
    split; [lia | tauto].
  - unfold bindE, get_state. destruct (ready ex m st) eqn:Hready.
    + destruct (executeNode_no_raise m st Hm) as [b [new ->]].
      destruct (IH true (afterNode st m b new)
                  (withinNodes_afterNode m st b new Hm Hin))
        as [changed' [st' [Hrun [Hin' [Hlen _]]]]].
      exists changed', st'. split; [exact Hrun|]. split; [exact Hin'|].
      apply ready_true in Hready. destruct Hready as [Hnew _].
      unfold afterNode in Hlen. simpl in Hlen.
      rewrite (set_add_new _ _ Hnew), length_app in Hlen. simpl in Hlen.
      split; [lia|]. intros _. right. lia.
    + apply IH. exact Hin.
Qed.

Lemma propagateLoop_stopped (fuel iterations : nat) (st : ExecState) :
  propagateLoop clock fuel ex (contextOf event) false iterations st
  = (Ok iterations, st).
Proof. now destruct fuel. Qed.

(** Every pass but the last executes a node, so there are no more passes
    than nodes still to execute, and one. *)
Lemma propagateLoop_bound (fuel : nat) (changed : bool) (iterations : nat)
  (st : ExecState) :
  withinNodes ex st ->
  exists k st',
    propagateLoop clock fuel ex (contextOf event) changed iterations st
    = (Ok k, st')
    /\ k + List.length (st_executed st)
       <= iterations + List.length (ex_nodes ex) + 1.
Proof.
  revert changed iterations st.
  induction fuel as [|fuel IH]; intros changed iterations st Hin;
    cbn [propagateLoop].
  - exists iterations, st. split; [reflexivity|].
    pose proof (withinNodes_length st Hin). lia.
  - destruct (changed && Nat.ltb iterations maxIterations).
    + unfold bindE.
      destruct (propagatePass_grows (ex_nodes ex) false st
                  ltac:(now apply List.Forall_forall) Hin)
        as [changed' [st1 [-> [Hin1 [Hlen Hgrow]]]]].
      destruct changed'.
      * destruct (IH true (S iterations) st1 Hin1) as [k [st' [-> Hk]]].
        exists k, st'. split; [reflexivity|].
        destruct (Hgrow eq_refl) as [Hno|Hmore]; [discriminate | lia].
      * rewrite propagateLoop_stopped. exists (S iterations), st1.
        split; [reflexivity|]. pose proof (withinNodes_length st Hin). lia.
    + exists iterations, st. split; [reflexivity|].
      pose proof (withinNodes_length st Hin). lia.
Qed.

End NoRaise.

(** X6.  When the step of no enabled node raises and the enabled nodes
    are fewer than [maxIterations - 1], the trace of a run does not hold the
    entry of the iteration cap. *)
Theorem no_raise_no_timeout `{JSHost} (clock : Clock)
  (nodes : list WorkflowNode) (connections : list Connection)
  (event : TestEvent) (r : ExecutionResult) (st' : ExecState) :
  executeWorkflow clock nodes connections event = (Ok r, st') ->
  (forall m st, In m nodes -> enabled m = true ->
     exists st1, executeKind clock m (contextOf event) st = (Ok tt, st1)) ->
  List.length (enabledNodes nodes) + 1 < maxIterations ->
  timeoutLogged (logs r) = false.
Proof.
  intros Hrun Hsteps Hfew.
  set (ex := new_WorkflowExecutor nodes connections) in *.
  assert (Hno_raise : forall m st, In m (ex_nodes ex) ->
            exists st1, executeKind clock m (contextOf event) st = (Ok tt, st1)).
  { intros m st Hm. apply filter_In in Hm. destruct Hm as [Hm Hon].
    now apply Hsteps. }
  unfold executeWorkflow in Hrun. fold ex in Hrun.
  destruct (findTriggerNodes ex) as [|t ts] eqn:Hts.
  - unfold execute, bindE, reset in Hrun. rewrite Hts in Hrun. simpl in Hrun.
    injection Hrun as <- <-. reflexivity.
  - rewrite (execute_with_trigger clock ex event fresh_state) in Hrun
      by now rewrite Hts.
    unfold bindE in Hrun.
    pose proof (executeTriggers_preserves clock ex event
                  (fun st => withinNodes ex st
                             /\ timeoutLogged (st_logs st) = false)) as Hfire.
    specialize (Hfire ltac:(
      intros st0 new Hcap [Hwithin Hclean]; split;
      [exact Hwithin
      |simpl; now rewrite timeoutLogged_app, Hclean, Hcap])).
    specialize (Hfire ltac:(
      intros t0 st0 new Hin _ _ Hcap [Hwithin Hclean]; split;
      [now apply withinNodes_afterNode
      |unfold afterNode; simpl; now rewrite timeoutLogged_app, Hclean, Hcap])).
    specialize (Hfire (findTriggerNodes ex) fresh_state
                  (findTriggerNodes_listed ex)).
    destruct (executeTriggers clock (findTriggerNodes ex) event (contextOf event)
                fresh_state) as [[[]|e] st1]; [|discriminate].
    destruct Hfire as [Hwithin Hclean].
    { split; [|reflexivity]. split; [constructor | intros x []]. }
    simpl in Hwithin, Hclean.
    unfold propagateExecution, bindE in Hrun.
    destruct (propagateLoop_bound clock ex event Hno_raise maxIterations true 0
                st1 Hwithin) as [k [st2 [Hloop Hk]]].
    pose proof (propagateLoop_preserves clock ex event
                  (fun st => timeoutLogged (st_logs st) = false)) as Hkeep.
    specialize (Hkeep ltac:(
      intros st0 new Hcap Hclean0; unfold addLogs; simpl;
      now rewrite timeoutLogged_app, Hclean0, Hcap)).
    specialize (Hkeep ltac:(
      intros m st0 b new _ _ _ Hcap Hclean0; unfold afterNode; simpl;
      now rewrite timeoutLogged_app, Hclean0, Hcap)).
    specialize (Hkeep maxIterations true 0 st1 Hclean).
    rewrite Hloop in Hrun, Hkeep. simpl in Hkeep.
    assert (Hshort : Nat.leb maxIterations k = false).
    { apply Nat.leb_gt. unfold enabledNodes in Hfew. simpl in Hk. lia. }
    rewrite Hshort in Hrun. unfold ret, get_state in Hrun.
    injection Hrun as <- <-. exact Hkeep.
Qed.

(** ** Triggers *)

Section Triggers.
Context `{JSHost}.
Variable clock : Clock.
Variable ex : Executor.
Variable event : TestEvent.

(** Once executed, executed to the end of the run. *)
Lemma executed_kept_by_triggers (x : string) (triggerNodes : list WorkflowNode)
  (st : ExecState) :
  Forall (fun m => In m (ex_nodes ex) /\ type m = TRIGGER) triggerNodes ->
  In x (st_executed st) ->
  In x (st_executed (snd (executeTriggers clock triggerNodes event
                            (contextOf event) st))).
Proof.
  apply (executeTriggers_preserves clock ex event
           (fun st => In x (st_executed st))).
  - intros st0 new _ Hx. exact Hx.
  - intros t st0 new _ _ _ _ Hx. apply In_set_add. now right.
Qed.

Lemma executed_kept_by_propagation (x : string) (st : ExecState) :
  In x (st_executed st) ->
  In x (st_executed (snd (propagateExecution clock ex (contextOf event) st))).
Proof.
  apply (propagateExecution_preserves clock ex event
           (fun st => In x (st_executed st))).
  - intros st0 new _ Hx. exact Hx.
  - intros m st0 b new _ _ _ _ Hx. apply In_set_add. now right.
  - intros st0 entry Hx. exact Hx.
Qed.

Lemma executeTriggers_fires (triggerNodes : list WorkflowNode) (st st' : ExecState)
  (t : WorkflowNode) :
  Forall (fun m => In m (ex_nodes ex) /\ type m = TRIGGER) triggerNodes ->
  executeTriggers clock triggerNodes event (contextOf event) st = (Ok tt, st') ->
  In t triggerNodes ->
  shouldExecuteTrigger t event = Ok true ->
  convertible (read (data t) "name") = true ->
  In (id t) (st_executed st').
Proof.
  intros Hts. revert st.
  induction Hts as [|t0 rest [Hin Htype] Hrest IH]; intros st Hrun Ht Hmatch Hname.
  - destruct Ht.
  - simpl in Hrun. unfold bindE, lift in Hrun.
    destruct (shouldExecuteTrigger t0 event) as [fire|e] eqn:Hfire; [|discriminate].
    destruct Ht as [->|Ht].
    + rewrite Hmatch in Hfire. injection Hfire as <-.
      destruct (executeTrigger_returns clock t event (contextOf event) st true
                  Htype Hmatch Hname) as [new [_ Hnode]].
      rewrite Hnode in Hrun.
      pose proof (executed_kept_by_triggers (id t) rest (afterNode st t true new)
                    Hrest) as Hkept.
      rewrite Hrun in Hkept. apply Hkept. apply In_set_add. now left.
    + destruct fire.
      * destruct (executeNode_returns clock t0 (contextOf event) st) as [st1 Hnode].
        rewrite Hnode in Hrun. now apply (IH _ Hrun).
      * now apply (IH _ Hrun).
Qed.

(** When no trigger fires the trigger loop changes nothing. *)
Lemma executeTriggers_none (triggerNodes : list WorkflowNode) (st : ExecState) :
  (forall t, In t triggerNodes -> shouldExecuteTrigger t event = Ok false) ->
  executeTriggers clock triggerNodes event (contextOf event) st = (Ok tt, st).
Proof.
  induction triggerNodes as [|t rest IH]; intros Hnone; simpl; [reflexivity|].
  unfold bindE, lift. rewrite (Hnone t (or_introl eq_refl)). simpl.
  apply IH. intros t' Ht'. apply Hnone. now right.
Qed.

End Triggers.

(** X7.  A run that returns has executed every enabled trigger whose matcher
    accepted the event and whose configured name, which the step of a
    trigger prints, converts to a string. *)
Theorem matching_triggers_executed `{JSHost} (clock : Clock)
  (nodes : list WorkflowNode) (connections : list Connection)
  (event : TestEvent) (r : ExecutionResult) (st' : ExecState) (t : WorkflowNode) :
  executeWorkflow clock nodes connections event = (Ok r, st') ->
  In t nodes -> enabled t = true -> type t = TRIGGER ->
  shouldExecuteTrigger t event = Ok true ->
  convertible (read (data t) "name") = true ->
  In (id t) (executedNodes r).
Proof.
  intros Hrun Hin Hon Htype Hmatch Hname.
  set (ex := new_WorkflowExecutor nodes connections) in *.
  assert (Ht : In t (findTriggerNodes ex)).
  { apply filter_In. split; [apply filter_In; now split | now rewrite Htype]. }
  unfold executeWorkflow in Hrun. fold ex in Hrun.
  rewrite (execute_with_trigger clock ex event fresh_state) in Hrun.
  2:{ intros Hnone. now rewrite Hnone in Ht. }
  unfold bindE in Hrun.
  destruct (executeTriggers clock (findTriggerNodes ex) event (contextOf event)
              fresh_state) as [[[]|e] st1] eqn:Hfire; [|discriminate].
  pose proof (executeTriggers_fires clock ex event _ _ _ t
                (findTriggerNodes_listed ex) Hfire Ht Hmatch Hname) as Hdone.
  apply (executed_kept_by_propagation clock ex event) in Hdone.
  destruct (propagateExecution clock ex (contextOf event) st1)
    as [[[]|e] st2]; [|discriminate].
  unfold get_state, ret in Hrun. injection Hrun as <- <-. exact Hdone.
Qed.

(** X8.  When there are enabled triggers and the matcher of each rejects the
    event, the run executes nothing and logs nothing, and reports success. *)
Theorem unmatched_event_runs_nothing `{JSHost} (clock : Clock)
  (nodes : list WorkflowNode) (connections : list Connection)
  (event : TestEvent) :
  findTriggerNodes (new_WorkflowExecutor nodes connections) <> [] ->
  (forall t, In t (findTriggerNodes (new_WorkflowExecutor nodes connections)) ->
             shouldExecuteTrigger t event = Ok false) ->
  executeWorkflow clock nodes connections event
  = (Ok {| success := true; logs := []; executedNodes := [];
           failedNode := None; error := None |},
     fresh_state).
Proof.
  intros Hsome Hnone. unfold executeWorkflow.
  rewrite (execute_with_trigger clock _ event fresh_state Hsome).
  unfold bindE. rewrite (executeTriggers_none clock event _ _ Hnone).
  rewrite propagateExecution_idle; [reflexivity|].
  apply List.Forall_forall. intros m _. now apply ready_nothing_executed.
Qed.

(** ** More of the comparator *)

Lemma split_no_sep (sep : ascii) (s : string) :
  includes s (String sep "") = false -> split sep s = [s].
Proof.
  induction s as [|c s IH]; [reflexivity|].
  change (includes (String c s) (String sep ""))
    with (String.prefix (String sep "") (String c s) || includes s (String sep "")).
  intros Hnone. apply orb_false_iff in Hnone. destruct Hnone as [Hhead Hrest].
  simpl in Hhead. simpl.
  destruct (Ascii.eqb c sep) eqn:Hc.
  - apply Ascii.eqb_eq in Hc. subst c.
    destruct (ascii_dec sep sep); [|contradiction]. now destruct s.
  - now rewrite (IH Hrest).
Qed.

Section ComparatorMore.
Context `{JSHost}.

(** The [i]-th bound of a range: the number its [i]-th part spells, NaN when
    there is no such part. *)
Lemma range_bound (parts : list string) (i : nat) :
  to_number (List.nth i (List.map (fun s => VNumber (string_to_number s)) parts)
               VUndefined)
  = Ok (match List.nth_error parts i with
        | Some s => string_to_number s
        | None => PrimFloat.nan
        end).
Proof.
  revert i; induction parts as [|p parts IH]; intros [|i]; try reflexivity.
  apply IH.
Qed.

Lemma compareValues_range (actual : reached) (x : number) (text : string) :
  converts actual = true ->
  reached_to_number actual = Ok x ->
  compareValues actual (VString "RANGE") (VString text)
  = Ok (let bound i := match List.nth_error (split "," text) i with
                       | Some s => string_to_number s
                       | None => PrimFloat.nan
                       end in
        negb (isNaN x) && negb (isNaN (bound 0)) && negb (isNaN (bound 1))
        && PrimFloat.leb (bound 0) x && PrimFloat.leb x (bound 1)).
Proof.
  intros Ha Hx.
  assert (Hy : to_number (VString text) = Ok (string_to_number text))
    by reflexivity.
  assert (He : convertible (VString text) = true) by reflexivity.
  converted Hx Hy Ha He.
  change (switch_case (VString "RANGE")) with (Some OpRANGE). cbv iota.
  change (to_string (VString text)) with (Ok text). cbn [bind].
  now rewrite !range_bound.
Qed.

Lemma compareValues_gte (actual : reached) (x : number) (text : string) :
  converts actual = true ->
  reached_to_number actual = Ok x ->
  compareValues actual (VString "GTE") (VString text)
  = Ok (negb (isNaN x) && negb (isNaN (string_to_number text))
        && PrimFloat.leb (string_to_number text) x).
Proof.
  intros Ha Hx.
  assert (Hy : to_number (VString text) = Ok (string_to_number text))
    by reflexivity.
  assert (He : convertible (VString text) = true) by reflexivity.
  converted Hx Hy Ha He. reflexivity.
Qed.

Lemma compareValues_lte (actual : reached) (x : number) (text : string) :
  converts actual = true ->
  reached_to_number actual = Ok x ->
  compareValues actual (VString "LTE") (VString text)
  = Ok (negb (isNaN x) && negb (isNaN (string_to_number text))
        && PrimFloat.leb x (string_to_number text)).
Proof.
  intros Ha Hx.
  assert (Hy : to_number (VString text) = Ok (string_to_number text))
    by reflexivity.
  assert (He : convertible (VString text) = true) by reflexivity.
  converted Hx Hy Ha He. reflexivity.
Qed.

End ComparatorMore.

(** X9.  On an actual value that converts, with an expected value [lo,hi],
    neither part holding a comma, [RANGE] is [GTE lo] and [LTE hi]; whatever
    follows a second comma is ignored. *)
Theorem range_is_gte_and_lte `{JSHost} (actual : reached) (lo hi : string) :
  converts actual = true ->
  includes lo "," = false ->
  includes hi "," = false ->
  exists b1 b2,
    compareValues actual (VString "GTE") (VString lo) = Ok b1
    /\ compareValues actual (VString "LTE") (VString hi) = Ok b2
    /\ compareValues actual (VString "RANGE") (VString (lo ++ "," ++ hi))
       = Ok (b1 && b2)
    /\ forall extra,
         compareValues actual (VString "RANGE")
           (VString (lo ++ "," ++ hi ++ "," ++ extra)) = Ok (b1 && b2).
Proof.
  intros Ha Hlo Hhi.
  destruct (converts_number actual Ha) as [x Hx].
  eexists. eexists.
  split; [apply (compareValues_gte actual x lo Ha Hx)|].
  split; [apply (compareValues_lte actual x hi Ha Hx)|].
  assert (Hbool : forall a b c d e : bool,
            a && b && c && d && e = (a && b && d) && (a && c && e))
    by (intros [] [] [] [] []; reflexivity).
  split.
  - rewrite (compareValues_range actual x _ Ha Hx).
    change (lo ++ "," ++ hi) with (lo ++ String "," hi).
    rewrite split_app, (split_no_sep _ _ Hlo), (split_no_sep _ _ Hhi).
    cbn [app List.nth_error]. f_equal. apply Hbool.
  - intros extra. rewrite (compareValues_range actual x _ Ha Hx).
    change (lo ++ "," ++ hi ++ "," ++ extra)
      with (lo ++ String "," (hi ++ String "," extra)).
    rewrite !split_app, (split_no_sep _ _ Hlo), (split_no_sep _ _ Hhi).
    cbn [app List.nth_error]. f_equal. apply Hbool.
Qed.

(** X10.  On operands that convert, [RANGE] is false whenever the text of the
    expected value holds no comma: the upper bound is then missing. *)
Theorem range_needs_two_bounds `{JSHost} (actual : reached) (expected : value)
  (text : string) :
  converts actual = true ->
  to_string expected = Ok text ->
  includes text "," = false ->
  compareValues actual (VString "RANGE") expected = Ok false.
Proof.
  intros Ha Htext Hnone.
  destruct (to_string_returns _ _ Htext) as [He ->].
  destruct (converts_number actual Ha) as [x Hx].
  destruct (to_number_convertible expected He) as [y Hy].
  converted Hx Hy Ha He.
  change (switch_case (VString "RANGE")) with (Some OpRANGE). cbv iota.
  rewrite Htext. cbn [bind].
  rewrite !range_bound, (split_no_sep _ _ Hnone). cbn [bind List.nth_error].
  change (isNaN PrimFloat.nan) with true.
  cbn [negb]. now rewrite andb_false_r.
Qed.

(** X11.  On operands that convert, [IN] is true exactly when the text of the
    actual value is one of the comma-separated parts of the text of the
    expected value, each part trimmed; [NOT_IN] is its negation. *)
Theorem in_is_membership `{JSHost} (actual : reached) (expected : value) :
  converts actual = true ->
  converts expected = true ->
  exists b,
    compareValues actual (VString "IN") expected = Ok b
    /\ compareValues actual (VString "NOT_IN") expected = Ok (negb b)
    /\ (b = true <->
        exists part, In part (split "," (text_of expected))
                     /\ trim part = text_of actual).
Proof.
  intros Ha He. simpl in He.
  destruct (converts_number actual Ha) as [x Hx].
  destruct (to_number_convertible expected He) as [y Hy].
  exists (existsb (String.eqb (text_of actual))
            (List.map trim (split "," (string_of expected)))).
  split; [|split].
  - converted Hx Hy Ha He.
    change (switch_case (VString "IN")) with (Some OpIN). cbv iota.
    now rewrite (to_string_convertible _ He), (converts_string _ Ha).
  - converted Hx Hy Ha He.
    change (switch_case (VString "NOT_IN")) with (Some OpNOT_IN). cbv iota.
    now rewrite (to_string_convertible _ He), (converts_string _ Ha).
  - rewrite existsb_exists. simpl text_of. split.
    + intros [entry [Hin Heq]]. apply in_map_iff in Hin.
      destruct Hin as [part [<- Hpart]]. apply String.eqb_eq in Heq.
      now exists part.
    + intros [part [Hpart Heq]]. exists (trim part). split.
      * now apply in_map.
      * apply String.eqb_eq. now rewrite Heq.
Qed.

(** X12.  A condition whose field resolves to nothing ([undefined] or
    [null]) and whose value converts, compared with [EQ] or with no operator
    at all, passes exactly when its value is [null] or missing; so a
    condition with no field, no operator and no value passes. *)
Theorem missing_field_equals_nothing `{JSHost} (config : props)
  (context : ExecutionContext) (path : string) (v : value) :
  or_else (prop_of config "field") (VString "") = VString path ->
  getValueFromPath (VString path) context = Ok (Data v) ->
  nullish v = true ->
  In (or_else (prop_of config "operator") (VString "EQ"))
     [VString "EQ"; VString "=="] ->
  convertible (prop_of config "value") = true ->
  evaluateSimpleCondition (obj config) context
  = Ok (nullish (prop_of config "value")).
Proof.
  intros Hfield Hpath Hv Hop He.
  unfold evaluateSimpleCondition, JS.bind, obj. cbn [get].
  fold (prop_of config "field"). fold (prop_of config "operator").
  fold (prop_of config "value").
  rewrite Hfield, Hpath.
  assert (Ha : converts (Data v) = true) by (now destruct v).
  destruct (converts_number (Data v) Ha) as [x Hx].
  destruct (to_number_convertible _ He) as [y Hy].
  converted Hx Hy Ha He.
  assert (Hcase : switch_case (or_else (prop_of config "operator") (VString "EQ"))
                  = Some OpEQ).
  { destruct Hop as [<-|[<-|[]]]; reflexivity. }
  rewrite Hcase. cbv iota.
  destruct v; try discriminate; now destruct (prop_of config "value").
Qed.

(** ** More of the trigger matcher *)

(** X13.  A trigger whose configuration is an object and whose event type is
    missing or falsy fires on every event; one whose event type is a string
    without a star fires exactly when that string is empty, is [any], or is
    the type of the event. *)
Theorem trigger_matching `{JSHost} (t : WorkflowNode) (config : props)
  (event : TestEvent) :
  data t = obj config ->
  (truthy (prop_of config "eventType") = false ->
   shouldExecuteTrigger t event = Ok true)
  /\ (forall s, prop_of config "eventType" = VString s ->
        includes s "*" = false ->
        exists b, shouldExecuteTrigger t event = Ok b
          /\ (b = true <->
              s = "" \/ s = "any" \/ prop_of event "type" = VString s)).
Proof.
  intros Hdata. unfold shouldExecuteTrigger, JS.bind. rewrite Hdata.
  unfold obj. cbn [get]. fold (prop_of config "eventType"). split.
  - intros Hfalsy. unfold or_else. now rewrite Hfalsy.
  - intros s Hs Hstar. rewrite Hs. unfold or_else. cbn [truthy].
    destruct (String.eqb s "") eqn:Hempty; cbn [negb].
    + eexists. split; [reflexivity|]. apply String.eqb_eq in Hempty. tauto.
    + unfold is_string. cbn [strict_eq].
      destruct (String.eqb s "any") eqn:Hany.
      * eexists. split; [reflexivity|]. apply String.eqb_eq in Hany. tauto.
      * rewrite Hstar. eexists. split; [reflexivity|].
        apply String.eqb_neq in Hempty, Hany. split.
        -- intros Heq. right. right.
           destruct (prop_of event "type"); try discriminate.
           cbn [strict_eq] in Heq. apply String.eqb_eq in Heq. now subst.
        -- intros [?|[?|Heq]]; try contradiction.
           rewrite Heq. cbn [strict_eq]. apply String.eqb_refl.
Qed.

(** ** Redaction *)

Lemma strict_eq_undefined (v : value) :
  strict_eq v VUndefined = true <-> v = VUndefined.
Proof. destruct v; simpl; split; congruence. Qed.

Lemma sanitizeData_fold (d : value) :
  sanitizeData d
  = obj (List.fold_left redactField sensitiveFields (assign [] (own_props d))).
Proof. reflexivity. Qed.

Lemma lookup_redacted (fields : list string) (acc : props) (k : string) :
  lookup_prop k (List.fold_left redactField fields acc)
  = match lookup_prop k acc with
    | Some v =>
        if existsb (String.eqb k) fields && negb (strict_eq v VUndefined)
        then Some (VString "***REDACTED***")
        else Some v
    | None => None
    end.
Proof.
  revert acc. induction fields as [|f fields IH]; intros acc; simpl.
  - now destruct (lookup_prop k acc).
  - rewrite IH. unfold redactField, prop_of.
    destruct (String.eqb k f) eqn:Hk.
    + apply String.eqb_eq in Hk. subst f. simpl.
      destruct (lookup_prop k acc) as [v|] eqn:Hv; simpl.
      * destruct (strict_eq v VUndefined) eqn:Hundef; simpl.
        -- rewrite Hv, Hundef. now rewrite andb_false_r.
        -- rewrite lookup_set_prop, String.eqb_refl. simpl.
           now destruct (existsb (String.eqb k) fields).
      * now rewrite Hv.
    + assert (Hother : forall ps v, lookup_prop k (set_prop f v ps) = lookup_prop k ps).
      { intros ps v. rewrite lookup_set_prop.
        rewrite String.eqb_sym in Hk. now rewrite Hk. }
      simpl.
      destruct (negb (strict_eq match lookup_prop f acc with
                                | Some v => v
                                | None => VUndefined
                                end VUndefined)); [rewrite Hother|]; reflexivity.
Qed.

Lemma sanitizeData_lookup (d : value) :
  exists ps,
    sanitizeData d = VObject ps
    /\ forall k,
         lookup_prop k ps
         = match lookup_prop k (own_props d) with
           | Some v =>
               if existsb (String.eqb k) sensitiveFields
                  && negb (strict_eq v VUndefined)
               then Some (VString "***REDACTED***")
               else Some v
           | None => None
           end.
Proof.
  rewrite sanitizeData_fold. eexists. split; [reflexivity|]. intros k.
  rewrite lookup_redacted, lookup_assign. simpl.
  now destruct (lookup_prop k (own_props d)).
Qed.

(** X14.  [sanitizeData] returns an object with the own properties of its
    argument; a property named [password], [token], [secret] or [apiKey]
    whose value is not [undefined] reads [***REDACTED***], and every other
    property reads what it read before, whatever it holds. *)
Theorem sanitizeData_redacts (d : value) :
  exists ps,
    sanitizeData d = VObject ps
    /\ forall k,
         lookup_prop k ps
         = match lookup_prop k (own_props d) with
           | Some v =>
               if existsb (String.eqb k) sensitiveFields
                  && negb (strict_eq v VUndefined)
               then Some (VString "***REDACTED***")
               else Some v
           | None => None
           end.
Proof.
  rewrite sanitizeData_fold. eexists. split; [reflexivity|]. intros k.
  rewrite lookup_redacted, lookup_assign.
  change (lookup_prop k []) with (@None value).
  now destruct (lookup_prop k (own_props d)).
Qed.

Lemma lookup_prop_None (k : string) (ps : props) :
  lookup_prop k ps = None <-> ~ In k (List.map fst ps).
Proof.
  induction ps as [|[k' v'] ps IH]; simpl; [tauto|].
  destruct (lookup_prop k ps) as [x|].
  - split; [discriminate|]. intros Hnot. exfalso.
    destruct (in_dec string_dec k (List.map fst ps)) as [Hin|Hout].
    + apply Hnot. now right.
    + now apply IH in Hout.
  - destruct (String.eqb k' k) eqn:Hk.
    + apply String.eqb_eq in Hk. split; [discriminate|]. intros Hnot.
      exfalso. apply Hnot. now left.
    + apply String.eqb_neq in Hk. split; [|reflexivity].
      intros _ [Heq|Hin]; [contradiction|]. now apply (proj1 IH).
Qed.

Lemma set_prop_new (k : string) (v : value) (ps : props) :
  lookup_prop k ps = None -> set_prop k v ps = (ps ++ [(k, v)])%list.
Proof.
  induction ps as [|[k' v'] ps IH]; simpl; [reflexivity|].
  destruct (lookup_prop k ps); [discriminate|].
  destruct (String.eqb k' k); [discriminate|].
  intros _. now rewrite IH.
Qed.

Lemma set_prop_same (k : string) (v : value) (ps : props) :
  lookup_prop k ps = Some v -> set_prop k v ps = ps.
Proof.
  induction ps as [|[k' v'] ps IH]; simpl; [discriminate|].
  destruct (lookup_prop k ps) as [x|].
  - intros [= ->]. now rewrite IH.
  - destruct (String.eqb k' k) eqn:Hk; [|discriminate].
    apply String.eqb_eq in Hk. now intros [= ->]; subst.
Qed.

Lemma keys_set_prop (k : string) (v : value) (ps : props) :
  List.map fst (set_prop k v ps)
  = match lookup_prop k ps with
    | Some _ => List.map fst ps
    | None => (List.map fst ps ++ [k])%list
    end.
Proof.
  induction ps as [|[k' v'] ps IH]; simpl; [reflexivity|].
  destruct (lookup_prop k ps) as [x|]; simpl.
  - now rewrite IH.
  - destruct (String.eqb k' k) eqn:Hk; simpl.
    + apply String.eqb_eq in Hk. now subst.
    + now rewrite IH.
Qed.

Lemma NoDup_keys_set_prop (k : string) (v : value) (ps : props) :
  List.NoDup (List.map fst ps) -> List.NoDup (List.map fst (set_prop k v ps)).
Proof.
  intros Hps. rewrite keys_set_prop.
  destruct (lookup_prop k ps) eqn:Hk; [exact Hps|].
  apply lookup_prop_None in Hk.
  revert Hk. induction Hps as [|y l Hy _ IH]; intros Hk; simpl.
  - constructor; [intros []|constructor].
  - constructor.
    + rewrite in_app_iff. simpl. intros [Hin|[->|[]]]; [contradiction|].
      apply Hk. now left.
    + apply IH. intros Hin. apply Hk. now right.
Qed.

Lemma NoDup_keys_assign (source target : props) :
  List.NoDup (List.map fst target) ->
  List.NoDup (List.map fst (assign target source)).
Proof.
  unfold assign. revert target.
  induction source as [|[k v] source IH]; intros target Ht; simpl; [exact Ht|].
  apply IH. now apply NoDup_keys_set_prop.
Qed.

Lemma assign_fresh (source target : props) :
  List.NoDup (List.map fst (target ++ source)) ->
  assign target source = (target ++ source)%list.
Proof.
  unfold assign. revert target.
  induction source as [|[k v] source IH]; intros target Hnodup; simpl.
  - now rewrite app_nil_r.
  - assert (Hk : lookup_prop k target = None).
    { apply lookup_prop_None. rewrite map_app in Hnodup. simpl in Hnodup.
      apply List.NoDup_remove_2 in Hnodup. intros Hin. apply Hnodup.
      apply in_or_app. now left. }
    rewrite (set_prop_new _ _ _ Hk), IH.
    + now rewrite <- app_assoc.
    + now rewrite <- app_assoc.
Qed.

Lemma keys_redacted (fields : list string) (acc : props) :
  List.map fst (List.fold_left redactField fields acc) = List.map fst acc.
Proof.
  revert acc. induction fields as [|f fields IH]; intros acc; simpl;
    [reflexivity|].
  rewrite IH. unfold redactField, prop_of.
  destruct (lookup_prop f acc) as [v|] eqn:Hf; simpl; [|reflexivity].
  destruct (negb (strict_eq v VUndefined)); [|reflexivity].
  now rewrite keys_set_prop, Hf.
Qed.

Lemma redacted_fixed (fields : list string) (acc : props) :
  (forall f, In f fields ->
             prop_of acc f = VUndefined
             \/ lookup_prop f acc = Some (VString "***REDACTED***")) ->
  List.fold_left redactField fields acc = acc.
Proof.
  induction fields as [|f fields IH]; intros Hdone; simpl; [reflexivity|].
  assert (Hstep : redactField acc f = acc).
  { unfold redactField. destruct (Hdone f (or_introl eq_refl)) as [->|Hred].
    - reflexivity.
    - destruct (negb _); [now apply set_prop_same | reflexivity]. }
  rewrite Hstep. apply IH. intros f' Hf'. apply Hdone. now right.
Qed.

(** X15.  Sanitizing what has been sanitized changes nothing. *)
Theorem sanitizeData_idempotent (d : value) :
  sanitizeData (sanitizeData d) = sanitizeData d.
Proof.
  destruct (sanitizeData_lookup d) as [ps [Hps Hlookup]].
  rewrite Hps. rewrite sanitizeData_fold. cbn [own_props].
  assert (Hnodup : List.NoDup (List.map fst ps)).
  { assert (Hfold : ps = List.fold_left redactField sensitiveFields
                           (assign [] (own_props d))).
    { rewrite sanitizeData_fold in Hps. unfold obj in Hps. congruence. }
    rewrite Hfold, keys_redacted. apply NoDup_keys_assign. constructor. }
  rewrite (assign_fresh ps []) by exact Hnodup. cbn [app].
  unfold obj. f_equal. apply redacted_fixed.
  intros f Hf. unfold prop_of. rewrite (Hlookup f).
  assert (Hsens : existsb (String.eqb f) sensitiveFields = true).
  { apply existsb_exists. exists f. split; [exact Hf | apply String.eqb_refl]. }
  rewrite Hsens. cbn [andb].
  destruct (lookup_prop f (own_props d)) as [v|]; [|now left].
  destruct (strict_eq v VUndefined) eqn:Hundef; cbn [negb]; [left|now right].
  now apply strict_eq_undefined.
Qed.

(** ** The trace of an action group *)

Section ActionTrace.
Context `{JSHost}.
Variable clock : Clock.

Lemma mapM_nullish {B} (f : value -> result B) (items : list value) :
  (forall a, nullish a = true -> exists e, f a = Throw e) ->
  Exists (fun a => nullish a = true) items ->
  exists e, mapM f items = Throw e.
Proof.
  intros Hf. induction 1 as [a items Ha|a items _ [e IH]]; simpl.
  - destruct (Hf a Ha) as [e ->]. now exists e.
  - destruct (f a) as [y|e']; simpl; [|now exists e'].
    rewrite IH. now exists e.
Qed.

End ActionTrace.

(** X16.  An action group whose configuration is an object with a mode
    that converts to a string and a list of [n] actions, none of them [null]
    or [undefined] and each of a type that converts to a string, logs [n + 2]
    entries, all of level [ACTION]: the start, one entry per action in order,
    numbered from 1, and the completion; then it records [true].  The mode
    changes nothing but the text of the first message.  When an action of the
    list is [null] or [undefined] the step raises, and it has logged
    nothing. *)
Theorem executeAction_trace `{JSHost} (clock : Clock) (node : WorkflowNode)
  (context : ExecutionContext) (st : ExecState) (config : props)
  (items : list value) :
  data node = obj config ->
  or_else (prop_of config "actions") (VArray []) = VArray items ->
  (convertible (or_else (prop_of config "mode") (VString "SINGLE")) = true ->
   Forall (fun a => nullish a = false /\ convertible (read a "type") = true)
     items ->
   exists new,
     executeAction clock node context st
     = (Ok tt, {| st_logs := st_logs st ++ new;
                  st_executed := st_executed st;
                  st_conditions := <[id node := true]> (st_conditions st) |})
     /\ levels new = repeat LACTION (List.length items + 2)
     /\ List.map message new
        = (("Executing " ++ nat_to_string (List.length items) ++ " action(s) in "
              ++ string_of (or_else (prop_of config "mode") (VString "SINGLE"))
              ++ " mode")%string
             :: actionMessages 0 items
             ++ [("Actions completed: " ++ name node)%string])%list)
  /\ (Exists (fun a => nullish a = true) items ->
      exists e, executeAction clock node context st = (Throw e, st)).
Proof.
  intros Hdata Hactions. unfold executeAction, bindE, lift.
  rewrite Hdata.
  change (get (obj config) "actions") with (Ok (prop_of config "actions")).
  change (get (obj config) "mode") with (Ok (prop_of config "mode")).
  cbv beta iota. rewrite Hactions. split.
  - intros Hmode Hitems. rewrite (to_string_convertible _ Hmode).
    assert (Hsummary : exists summary,
               mapM (fun a => (ty <- get a "type" ;;
                               lb <- get a "label" ;;
                               Ok (obj [("type", ty);
                                        ("label", or_else lb (VString "Unnamed"))]))%js)
                    items = Ok summary).
    { clear - Hitems. induction Hitems as [|a items [Ha _] _ [summary IH]]; simpl.
      - now exists [].
      - rewrite !(get_defined a _ Ha). simpl. rewrite IH. simpl. eexists.
        reflexivity. }
    destruct Hsummary as [summary ->].
    unfold engine_log at 1. unfold addLog.
    match goal with
    | |- context [executeActions clock items 0 context ?s] =>
        destruct (executeActions_trace clock items 0 context s Hitems)
          as [new [Hrun [Hlevels [Hmessages _]]]]
    end.
    rewrite Hrun. unfold engine_log, addLog, set_condition, addLogs. simpl.
    eexists. split.
    + rewrite <- !app_assoc. reflexivity.
    + unfold levels in *. rewrite !map_app, Hlevels, Hmessages. simpl.
      split; [|reflexivity].
      rewrite Nat.add_comm. simpl. f_equal.
      change [LACTION] with (repeat LACTION 1).
      rewrite <- repeat_app. now rewrite Nat.add_comm.
  - intros Hnull.
    destruct (to_string (or_else (prop_of config "mode") (VString "SINGLE")))
      as [shown|e]; [|now exists e].
    destruct (mapM_nullish
                (fun a => (ty <- get a "type" ;;
                           lb <- get a "label" ;;
                           Ok (obj [("type", ty);
                                    ("label", or_else lb (VString "Unnamed"))]))%js)
                items) as [e ->]; [|exact Hnull|now exists e].
    intros a Ha. destruct a; try discriminate; eexists; reflexivity.
Qed.

(** ** More of the validator *)

Lemma orphanErrors_nil (nodes : list WorkflowNode) (connections : list Connection) :
  orphanErrors nodes connections = []
  <-> forall n, In n nodes -> type n <> TRIGGER -> connected connections n.
Proof.
  unfold orphanErrors.
  assert (Hconn : forall n,
             set_has (id n) (List.map sourceId connections
                               ++ List.map targetId connections)%list = true
             <-> connected connections n).
  { intros n. rewrite set_has_In, in_app_iff, !in_map_iff. unfold connected.
    split.
    - intros [[c [Hid Hc]]|[c [Hid Hc]]]; exists c; tauto.
    - intros [c [Hc [Hid|Hid]]]; [left|right]; now exists c. }
  split.
  - intros Hnone n Hn Htype. apply Hconn.
    destruct (set_has (id n) _) eqn:Hhas; [reflexivity|]. exfalso.
    apply map_eq_nil in Hnone.
    assert (Hin : In n (List.filter
                          (fun node => negb (NodeType_eqb (type node) TRIGGER)
                                       && negb (set_has (id node)
                                                  (List.map sourceId connections
                                                   ++ List.map targetId connections)%list))
                          nodes)).
    { apply filter_In. split; [exact Hn|]. rewrite Hhas.
      destruct (type n); try reflexivity. contradiction. }
    rewrite Hnone in Hin. destruct Hin.
  - intros Hall.
    match goal with
    | |- List.map _ ?l = [] => destruct l as [|n rest] eqn:Hfilter; [reflexivity|]
    end.
    exfalso.
    assert (Hin : In n (n :: rest)) by now left.
    rewrite <- Hfilter in Hin. apply filter_In in Hin.
    destruct Hin as [Hn Horphan]. apply andb_true_iff in Horphan.
    destruct Horphan as [Htype Hhas].
    assert (Hc : connected connections n).
    { apply Hall; [exact Hn|]. intros Heq. now rewrite Heq in Htype. }
    apply Hconn in Hc. now rewrite Hc in Hhas.
Qed.

Lemma triggerErrors_nil (nodes : list WorkflowNode) :
  triggerErrors nodes = [] <-> exists n, In n nodes /\ type n = TRIGGER.
Proof.
  unfold triggerErrors.
  destruct (List.filter _ nodes) as [|t ts] eqn:Hfilter; simpl.
  - split; [discriminate|]. intros [n [Hn Htype]]. exfalso.
    assert (Hin : In n (List.filter (fun n => NodeType_eqb (type n) TRIGGER) nodes)).
    { apply filter_In. split; [exact Hn | now rewrite Htype]. }
    rewrite Hfilter in Hin. destruct Hin.
  - split; [|reflexivity]. intros _.
    assert (Hin : In t (t :: ts)) by now left.
    rewrite <- Hfilter in Hin. apply filter_In in Hin. destruct Hin as [Hn Htype].
    exists t. split; [exact Hn|]. now destruct (type t).
Qed.

(** The validator returns, with the errors of its three checks in order;
    the cycle check contributes none exactly when no cycle can be reached
    from a listed node. *)
Lemma validateWorkflow_errors (nodes : list WorkflowNode)
  (connections : list Connection) :
  exists cycleErrors,
    validateWorkflow nodes connections
    = Some {| valid :=
                Nat.eqb (List.length (orphanErrors nodes connections
                                      ++ cycleErrors ++ triggerErrors nodes)%list) 0;
              errors := (orphanErrors nodes connections
                         ++ cycleErrors ++ triggerErrors nodes)%list |}
    /\ (cycleErrors = []
        <-> ~ (exists n, In n nodes /\ cycleFrom connections (id n))).
Proof.
  destruct (cycleScan_correct connections nodes)
    as [cycleErrors [Hscan [Hshape Hcycle]]].
  exists cycleErrors. unfold validateWorkflow. rewrite Hscan.
  split; [reflexivity|]. split.
  - intros -> Hsome. apply Hcycle in Hsome. discriminate.
  - intros Hnone. destruct Hshape as [-> | ->]; [|reflexivity].
    exfalso. apply Hnone. now apply Hcycle.
Qed.

Lemma length_zero_nil {A} (l : list A) :
  Nat.eqb (List.length l) 0 = true <-> l = [].
Proof. destruct l; simpl; split; congruence. Qed.

(** A graph with a lone node that is no trigger, with a cycle within reach,
    or without a trigger is not valid. *)
Lemma validateWorkflow_rejects (nodes : list WorkflowNode)
  (connections : list Connection) :
  (exists n, In n nodes /\ type n <> TRIGGER /\ ~ connected connections n)
  \/ (exists n, In n nodes /\ cycleFrom connections (id n))
  \/ (forall n, In n nodes -> type n <> TRIGGER) ->
  exists r,
    validateWorkflow nodes connections = Some r
    /\ valid r = false
    /\ errors r <> [].
Proof.
  intros Hbad.
  destruct (validateWorkflow_errors nodes connections) as [cycleErrors [-> Hcycle]].
  eexists. split; [reflexivity|]. cbn [valid errors].
  assert (Hsome : (orphanErrors nodes connections ++ cycleErrors
                   ++ triggerErrors nodes)%list <> []).
  { intros Hnil. apply app_eq_nil in Hnil. destruct Hnil as [Horphan Hrest].
    apply app_eq_nil in Hrest. destruct Hrest as [Hcyc Htrig].
    destruct Hbad as [[n [Hn [Hkind Hlone]]]|[Hreach|Hnone]].
    - apply Hlone. now apply (proj1 (orphanErrors_nil nodes connections) Horphan).
    - now apply (proj1 Hcycle Hcyc).
    - apply triggerErrors_nil in Htrig. destruct Htrig as [t [Ht Htype]].
      now apply (Hnone t Ht). }
  split; [|exact Hsome].
  destruct (Nat.eqb _ 0) eqn:Hlen; [|reflexivity].
  now apply length_zero_nil in Hlen.
Qed.

(** X17.  [validateWorkflow] returns for every graph, and it answers
    [valid] exactly when it has no error to report, which is exactly when
    every node that is no trigger is the source or the target of some
    connection, no cycle can be reached from a listed node, and some node is
    a trigger. *)
Theorem validateWorkflow_valid_iff (nodes : list WorkflowNode)
  (connections : list Connection) :
  exists r,
    validateWorkflow nodes connections = Some r
    /\ (valid r = true <-> errors r = [])
    /\ (valid r = true <->
        (forall n, In n nodes -> type n <> TRIGGER -> connected connections n)
        /\ ~ (exists n, In n nodes /\ cycleFrom connections (id n))
        /\ (exists n, In n nodes /\ type n = TRIGGER)).
Proof.
  destruct (validateWorkflow_errors nodes connections) as [cycleErrors [-> Hcycle]].
  eexists. split; [reflexivity|]. cbn [valid errors].
  split; [apply length_zero_nil|]. rewrite length_zero_nil.
  rewrite <- orphanErrors_nil, <- triggerErrors_nil, <- Hcycle. split.
  - intros Hnone. apply app_eq_nil in Hnone. destruct Hnone as [Horphan Hrest].
    apply app_eq_nil in Hrest. tauto.
  - intros [Horphan [Hcyc Htrig]]. now rewrite Horphan, Hcyc, Htrig.
Qed.

Section Signature.
Variable connections : list Connection.

Lemma orphanErrors_signature (nodes nodes' : list WorkflowNode) :
  List.map signature nodes = List.map signature nodes' ->
  orphanErrors nodes connections = orphanErrors nodes' connections.
Proof.
  unfold orphanErrors. revert nodes'.
  induction nodes as [|n nodes IH]; intros [|n' nodes'] Hsig;
    try discriminate; [reflexivity|].
  simpl in Hsig. injection Hsig as Hid Htype Hname Hrest.
  simpl. rewrite Hid, Htype.
  destruct (negb _ && negb _); simpl.
  - unfold orphanError at 1 3. rewrite Hid, Hname. f_equal. now apply IH.
  - now apply IH.
Qed.

Lemma triggerErrors_signature (nodes nodes' : list WorkflowNode) :
  List.map signature nodes = List.map signature nodes' ->
  triggerErrors nodes = triggerErrors nodes'.
Proof.
  intros Hsig. unfold triggerErrors.
  assert (Hlen : List.length (List.filter (fun n => NodeType_eqb (type n) TRIGGER) nodes)
                 = List.length (List.filter (fun n => NodeType_eqb (type n) TRIGGER) nodes')).
  { revert nodes' Hsig.
    induction nodes as [|n nodes IH]; intros [|n' nodes'] Hsig;
      try discriminate; [reflexivity|].
    simpl in Hsig. injection Hsig as Hid Htype Hname Hrest.
    simpl. rewrite Htype. destruct (NodeType_eqb _ _); simpl; now rewrite (IH nodes'). }
  now rewrite Hlen.
Qed.

Lemma cycleScan_signature (fuel : nat) (nodes nodes' : list WorkflowNode)
  (s : DfsState) :
  List.map signature nodes = List.map signature nodes' ->
  cycleScan fuel connections nodes s = cycleScan fuel connections nodes' s.
Proof.
  revert nodes' s.
  induction nodes as [|n nodes IH]; intros [|n' nodes'] s Hsig;
    try discriminate; [reflexivity|].
  simpl in Hsig. injection Hsig as Hid Htype Hname Hrest.
  cbn [cycleScan]. rewrite Hid.
  destruct (negb _); [|now apply IH].
  destruct (hasCycle fuel connections (id n') s) as [[[|] s']|];
    [reflexivity | now apply IH | reflexivity].
Qed.

End Signature.

(** X18.  The validator reads the id, the type and the name of a node and
    nothing else: two node lists that agree on these validate alike, whatever
    their nodes hold and whether they are enabled. *)
Theorem validateWorkflow_reads_signature (nodes nodes' : list WorkflowNode)
  (connections : list Connection) :
  List.map signature nodes = List.map signature nodes' ->
  validateWorkflow nodes connections = validateWorkflow nodes' connections.
Proof.
  intros Hsig. unfold validateWorkflow.
  rewrite (cycleScan_signature connections _ nodes nodes' _ Hsig).
  rewrite (orphanErrors_signature connections nodes nodes' Hsig).
  now rewrite (triggerErrors_signature nodes nodes' Hsig).
Qed.

(** ** The callers *)

Lemma find_all_false {A} (f : A -> bool) (l : list A) :
  (forall x, In x l -> f x = false) -> List.find f l = None.
Proof.
  induction l as [|x l IH]; intros Hf; simpl; [reflexivity|].
  rewrite (Hf x (or_introl eq_refl)). apply IH. intros y Hy. apply Hf. now right.
Qed.

(** No index spells [type]. *)
Lemma index_of_key_type (n : nat) : index_of_key "type" n = None.
Proof.
  unfold index_of_key. apply find_all_false. intros i _.
  unfold nat_to_string, NilZero.string_of_uint.
  now destruct (Nat.to_uint i).
Qed.

(** X19.  The test editor hands an event to the run only when the text
    denotes an object with a truthy [type], and then it clears its error; in
    every other case, the text failing to parse included, it runs nothing and
    shows an error. *)
Theorem handleRun_hands_events (loaded : result value) :
  (forall event,
      handed (handleRun loaded) = Some event ->
      loaded = Ok event
      /\ editor_error (handleRun loaded) = None
      /\ exists ps, event = VObject ps /\ truthy (prop_of ps "type") = true)
  /\ (handed (handleRun loaded) = None ->
      exists msg, editor_error (handleRun loaded) = Some msg).
Proof.
  unfold handleRun. destruct loaded as [parsed|e]; simpl.
  2:{ split; [discriminate|]. intros _. now eexists. }
  destruct parsed as [| |b|n|s|items|ps]; simpl;
    try (split; [discriminate|]; intros _; now eexists).
  - rewrite index_of_key_type. simpl. split; [discriminate|]. intros _. now eexists.
  - rewrite index_of_key_type. simpl. split; [discriminate|]. intros _. now eexists.
  - fold (prop_of ps "type").
    destruct (truthy (prop_of ps "type")) eqn:Hty; simpl.
    + split; [|discriminate]. intros event [= <-].
      split; [reflexivity|]. split; [reflexivity|]. now exists ps.
    + split; [discriminate|]. intros _. now eexists.
Qed.

Section Simulation.
Context `{JSHost}.
Variables uiClock engineClock : Clock.
Variable testEvent : option TestEvent.
Variable app : AppState.

Lemma simulateWorkflow_invalid (validation : ValidationResult) :
  validateWorkflow (app_nodes app) (app_connections app) = Some validation ->
  valid validation = false ->
  simulateWorkflow uiClock engineClock testEvent app
  = Some {| app_nodes := app_nodes app;
            app_connections := app_connections app;
            app_logs := (initLog uiClock testEvent :: app_logs app
                         ++ [validationFailedLog uiClock (errors validation)])%list;
            isDeploying := false;
            showDebugger := true |}.
Proof. intros Hv Hvalid. unfold simulateWorkflow. now rewrite Hv, Hvalid. Qed.

Lemma simulateWorkflow_valid (validation : ValidationResult) :
  validateWorkflow (app_nodes app) (app_connections app) = Some validation ->
  valid validation = true ->
  simulateWorkflow uiClock engineClock testEvent app
  = Some {| app_nodes := app_nodes app;
            app_connections := app_connections app;
            app_logs :=
              match fst (executeWorkflow engineClock (app_nodes app)
                           (app_connections app) (eventToExecute testEvent)) with
              | Ok result =>
                  (logs result ++ completeLog uiClock result
                     :: initLog uiClock testEvent :: app_logs app)%list
              | Throw e =>
                  (initLog uiClock testEvent :: app_logs app
                     ++ [engineFailedLog uiClock e])%list
              end;
            isDeploying := false;
            showDebugger := true |}.
Proof.
  intros Hv Hvalid. unfold simulateWorkflow. rewrite Hv, Hvalid. simpl.
  now destruct (fst (executeWorkflow _ _ _ _)).
Qed.

End Simulation.





(** ** More of the evaluator and of the trace *)

(** X24.  On a grouped configuration with at least one condition, each of
    which evaluates without raising, a logic other than [AND] and [OR] gives
    [false]. *)
Theorem unknown_logic_is_false `{JSHost} (config : props)
  (context : ExecutionContext) (conditions : list value) :
  groupConditions config = VArray conditions ->
  conditions <> [] ->
  Forall (fun c => exists r, evaluateSimpleCondition c context = Ok r)
    conditions ->
  groupLogic config <> VString "AND" ->
  groupLogic config <> VString "OR" ->
  evaluateGroupCondition (obj config) context = Ok false.
Proof.
  intros Hconditions Hsome Htriples Hand Hor.
  unfold evaluateGroupCondition, JS.bind.
  change (get (obj config) "logic") with (Ok (prop_of config "logic")).
  change (get (obj config) "conditions") with (Ok (prop_of config "conditions")).
  cbv beta iota. fold (groupConditions config). fold (groupLogic config).
  rewrite Hconditions. cbn [length_is_zero].
  destruct conditions as [|c conditions]; [contradiction|]. cbn [List.length Nat.eqb].
  destruct (conditions_evaluate (c :: conditions) context Htriples)
    as [results Hresults].
  rewrite (mapM_Forall2 _ _ _ Hresults).
  assert (Hnot : forall text, groupLogic config <> VString text ->
                              is_string (groupLogic config) text = false).
  { intros text Hne. unfold is_string.
    destruct (groupLogic config); try reflexivity. cbn [strict_eq].
    apply String.eqb_neq. congruence. }
  now rewrite (Hnot "AND" Hand), (Hnot "OR" Hor).
Qed.

Lemma read_object (ps : props) (k : string) : read (VObject ps) k = prop_of ps k.
Proof. reflexivity. Qed.

(** X25.  The trace tells the outcome that is recorded: executing a filter
    whose condition has the value [b] logs the start entry and one entry of
    level [CONDITION] whose message reads [PASSED] when [b] is [true] and
    [FAILED] otherwise and whose details hold [b], records [b] and marks the
    filter executed. *)
Theorem condition_trace `{JSHost} (clock : Clock) (node : WorkflowNode)
  (context : ExecutionContext) (st : ExecState) (b : bool) :
  type node = CONDITION ->
  verdict context node = Ok b ->
  exists started judged,
    executeNode clock node context st
    = (Ok tt, afterNode st node b [started; judged])
    /\ level started = INIT
    /\ level judged = LCONDITION
    /\ message judged
       = "Condition " ++ (if b then "PASSED" else "FAILED") ++ ": " ++ name node
    /\ read (details judged) "passed" = VBool b.
Proof.
  intros Htype Hv. unfold verdict in Hv. rewrite Htype in Hv.
  unfold conditionOutcome, JS.bind in Hv.
  unfold executeNode, executeKind, bindE, try_catchE. rewrite Htype.
  unfold logStart, engine_log, addLog. cbn [fst snd].
  unfold executeCondition, bindE, lift.
  destruct (get (data node) "mode") as [md|e]; [|discriminate].
  rewrite Hv. unfold engine_log, addLog, set_condition, add_executed, afterNode.
  cbn [st_logs st_executed st_conditions].
  eexists. eexists. split.
  - rewrite <- app_assoc. reflexivity.
  - repeat split.
Qed.

(** X26.  A trigger whose configuration is an object with a name that
    converts to a string logs one entry of level [TRIGGER], which shows the
    data of the event sanitized: under [eventData], each of [password],
    [token], [secret] and [apiKey] reads [undefined] or [***REDACTED***]. *)
Theorem trigger_trace_is_sanitized `{JSHost} (clock : Clock) (node : WorkflowNode)
  (context : ExecutionContext) (st : ExecState) (config : props) :
  data node = obj config ->
  convertible (prop_of config "name") = true ->
  exists entry,
    executeTrigger clock node context st
    = (Ok tt, {| st_logs := st_logs st ++ [entry];
                 st_executed := st_executed st;
                 st_conditions := <[id node := true]> (st_conditions st) |})
    /\ level entry = LTRIGGER
    /\ read (details entry) "eventData" = sanitizeData (ctx_data context)
    /\ forall k, In k sensitiveFields ->
         read (read (details entry) "eventData") k = VUndefined
         \/ read (read (details entry) "eventData") k = VString "***REDACTED***".
Proof.
  intros Hdata Hname. unfold executeTrigger, bindE, lift. rewrite Hdata.
  change (get (obj config) "eventType") with (Ok (prop_of config "eventType")).
  change (get (obj config) "name") with (Ok (prop_of config "name")).
  change (get (obj config) "priority") with (Ok (prop_of config "priority")).
  cbv beta iota. rewrite (to_string_convertible _ Hname).
  unfold engine_log, addLog, set_condition.
  cbn [st_logs st_executed st_conditions].
  eexists. split; [reflexivity|]. split; [reflexivity|].
  split; [reflexivity|].
  intros k Hk. cbn [details]. 
  change (read (obj [("nodeId", VString (id node));
                     ("eventType", or_else (prop_of config "eventType")
                                     (VString "unknown"));
                     ("eventData", sanitizeData (ctx_data context));
                     ("priority", or_else (prop_of config "priority")
                                    (VNumber PrimFloat.one))]) "eventData")
    with (sanitizeData (ctx_data context)).
  destruct (sanitizeData_lookup (ctx_data context)) as [ps [-> Hlookup]].
  rewrite read_object. unfold prop_of. rewrite (Hlookup k).
  assert (Hsens : existsb (String.eqb k) sensitiveFields = true).
  { apply existsb_exists. exists k. split; [exact Hk | apply String.eqb_refl]. }
  rewrite Hsens. cbn [andb].
  destruct (lookup_prop k (own_props (ctx_data context))) as [v|]; [|now left].
  destruct (strict_eq v VUndefined) eqn:Hundef; cbn [negb]; [left|now right].
  now apply strict_eq_undefined.
Qed.

(** X27.  A group is evaluated in full, whatever its logic: when one of
    its conditions is [null] or [undefined] the evaluation raises, even under
    [OR] after a condition that is true. *)
Theorem null_condition_raises `{JSHost} (config : props)
  (context : ExecutionContext) (conditions : list value) :
  groupConditions config = VArray conditions ->
  Exists (fun c => nullish c = true) conditions ->
  exists e, evaluateGroupCondition (obj config) context = Throw e.
Proof.
  intros Hconditions Hnull.
  unfold evaluateGroupCondition, JS.bind.
  change (get (obj config) "logic") with (Ok (prop_of config "logic")).
  change (get (obj config) "conditions") with (Ok (prop_of config "conditions")).
  cbv beta iota. fold (groupConditions config). rewrite Hconditions.
  cbn [length_is_zero].
  assert (Hsome : Nat.eqb (List.length conditions) 0 = false).
  { destruct Hnull; reflexivity. }
  rewrite Hsome.
  destruct (mapM_nullish (fun cond => evaluateSimpleCondition cond context)
              conditions) as [e ->]; [|exact Hnull|now exists e].
  intros a Ha. destruct a; try discriminate; eexists; reflexivity.
Qed.

(** X28.  A condition whose field is truthy and is no string raises a
    [TypeError]: the path has no [split]. *)
Theorem non_string_field_raises `{JSHost} (config : props)
  (context : ExecutionContext) :
  truthy (prop_of config "field") = true ->
  (forall path, prop_of config "field" <> VString path) ->
  evaluateSimpleCondition (obj config) context
  = Throw (TypeError "path.split is not a function").
Proof.
  intros Htruthy Hkind.
  unfold evaluateSimpleCondition, JS.bind.
  change (get (obj config) "field") with (Ok (prop_of config "field")).
  change (get (obj config) "operator") with (Ok (prop_of config "operator")).
  change (get (obj config) "value") with (Ok (prop_of config "value")).
  cbv beta iota. unfold or_else at 1. rewrite Htruthy.
  unfold getValueFromPath. rewrite Htruthy. cbn [negb].
  destruct (prop_of config "field") as [| | | |path| |]; try reflexivity.
  now destruct (Hkind path).
Qed.

(** ** The theorems above, on the examples *)

Section FurtherExamples.
#[local] Existing Instance exampleHost.

Lemma executed_nodes_accounted_witness :
  exists r st',
    executeWorkflow exampleClock scenarioNodes scenarioConnections
      (scenarioEvent 500%float) = (Ok r, st')
    /\ List.NoDup (executedNodes r)
    /\ st_executed st' = executedNodes r
    /\ forall x, In x (executedNodes r) ->
         exists m, In m scenarioNodes /\ enabled m = true /\ id m = x
                   /\ (fired (scenarioEvent 500%float) m
                       \/ released (new_WorkflowExecutor scenarioNodes
                                      scenarioConnections) st' m).
Proof.
  destruct (executeWorkflow exampleClock scenarioNodes scenarioConnections
              (scenarioEvent 500%float)) as [[r|e] st'] eqn:Hrun.
  - exists r, st'. split; [reflexivity|].
    exact (executed_nodes_accounted exampleClock scenarioNodes
             scenarioConnections (scenarioEvent 500%float) r st' Hrun).
  - vm_compute in Hrun. discriminate.
Defined.

Lemma outcomes_recorded_witness :
  exists r st',
    executeWorkflow exampleClock scenarioNodes scenarioConnections
      (scenarioEvent 10%float) = (Ok r, st')
    /\ forall x,
         (is_Some (st_conditions st' !! x) <-> In x (executedNodes r))
         /\ (In x (executedNodes r) ->
             exists m b, In m scenarioNodes /\ enabled m = true /\ id m = x
                         /\ verdict (contextOf (scenarioEvent 10%float)) m = Ok b
                         /\ st_conditions st' !! x = Some b).
Proof.
  destruct (executeWorkflow exampleClock scenarioNodes scenarioConnections
              (scenarioEvent 10%float)) as [[r|e] st'] eqn:Hrun.
  - exists r, st'. split; [reflexivity|].
    exact (outcomes_recorded exampleClock scenarioNodes scenarioConnections
             (scenarioEvent 10%float) r st' Hrun).
  - vm_compute in Hrun. discriminate.
Defined.

Lemma failed_filters_block_witness :
  exists r st',
    executeWorkflow exampleClock scenarioNodes scenarioConnections
      (scenarioEvent 10%float) = (Ok r, st')
    /\ ~ In "G" (executedNodes r).
Proof.
  destruct (executeWorkflow exampleClock scenarioNodes scenarioConnections
              (scenarioEvent 10%float)) as [[r|e] st'] eqn:Hrun.
  - exists r, st'. split; [reflexivity|].
    apply (failed_filters_block exampleClock scenarioNodes scenarioConnections
             (scenarioEvent 10%float) r st' "G" Hrun).
    + intros m [<-|[<-|[<-|[]]]] _ Hid; simpl in *; discriminate.
    + intros c p [<-|[<-|[]]] Htarget [<-|[<-|[<-|[]]]] _ Hid;
        simpl in *; try discriminate.
      split; [reflexivity|]. vm_compute. discriminate.
  - vm_compute in Hrun. discriminate.
Defined.

Lemma cycle_nodes_never_execute_witness :
  exists r st',
    executeWorkflow exampleClock loopNodes loopConnections exampleEvent
    = (Ok r, st')
    /\ ~ In "A" (executedNodes r).
Proof.
  destruct (executeWorkflow exampleClock loopNodes loopConnections exampleEvent)
    as [[r|e] st'] eqn:Hrun.
  - exists r, st'. split; [reflexivity|].
    apply (cycle_nodes_never_execute exampleClock loopNodes loopConnections
             exampleEvent r st' Hrun).
    + intros m c [<-|[<-|[<-|[]]]] _ Htype [<-|[<-|[<-|[]]]];
        simpl in *; discriminate.
    + exists "A". split; [|constructor].
      apply tc_l with "B".
      * exists (exampleConnection "A" "B"). simpl. tauto.
      * apply tc_once. exists (exampleConnection "B" "A"). simpl. tauto.
  - vm_compute in Hrun. discriminate.
Defined.

Lemma propagation_complete_witness :
  exists r st',
    executeWorkflow exampleClock scenarioNodes scenarioConnections
      (scenarioEvent 500%float) = (Ok r, st')
    /\ In "G" (executedNodes r).
Proof.
  eexists. eexists. split; [vm_compute; reflexivity|].
  eapply (propagation_complete exampleClock scenarioNodes scenarioConnections
            (scenarioEvent 500%float) _ _ scenarioGroup).
  - vm_compute. reflexivity.
  - vm_compute. reflexivity.
  - simpl. tauto.
  - reflexivity.
  - discriminate.
  - vm_compute. discriminate.
  - intros c Hc. vm_compute in Hc. destruct Hc as [<-|[]]. vm_compute. tauto.
  - exists (exampleConnection "F" "G"). split; [vm_compute; tauto|].
    vm_compute. reflexivity.
Defined.

Lemma matching_triggers_executed_witness :
  exists r st',
    executeWorkflow exampleClock scenarioNodes scenarioConnections
      (scenarioEvent 500%float) = (Ok r, st')
    /\ In "T" (executedNodes r).
Proof.
  destruct (executeWorkflow exampleClock scenarioNodes scenarioConnections
              (scenarioEvent 500%float)) as [[r|e] st'] eqn:Hrun.
  - exists r, st'. split; [reflexivity|].
    apply (matching_triggers_executed exampleClock scenarioNodes
             scenarioConnections (scenarioEvent 500%float) r st' scenarioTrigger
             Hrun).
    + simpl. tauto.
    + reflexivity.
    + reflexivity.
    + vm_compute. reflexivity.
    + reflexivity.
  - vm_compute in Hrun. discriminate.
Defined.

Lemma unmatched_event_runs_nothing_witness :
  executeWorkflow exampleClock scenarioNodes scenarioConnections otherEvent
  = (Ok {| success := true; logs := []; executedNodes := [];
           failedNode := None; error := None |},
     fresh_state).
Proof.
  apply (unmatched_event_runs_nothing exampleClock scenarioNodes
           scenarioConnections otherEvent).
  - discriminate.
  - intros t Ht. vm_compute in Ht. destruct Ht as [<-|[]].
    vm_compute. reflexivity.
Defined.

Lemma range_is_gte_and_lte_witness :
  exists b1 b2,
    compareValues (VNumber 5%float) (VString "GTE") (VString "1") = Ok b1
    /\ compareValues (VNumber 5%float) (VString "LTE") (VString "10") = Ok b2
    /\ compareValues (VNumber 5%float) (VString "RANGE") (VString "1,10")
       = Ok (b1 && b2)
    /\ forall extra,
         compareValues (VNumber 5%float) (VString "RANGE")
           (VString ("1" ++ "," ++ "10" ++ "," ++ extra)) = Ok (b1 && b2).
Proof.
  apply (range_is_gte_and_lte (Data (VNumber 5%float)) "1" "10"); reflexivity.
Defined.

Lemma range_needs_two_bounds_witness :
  compareValues (VNumber 5%float) (VString "RANGE") (VString "10") = Ok false.
Proof.
  apply (range_needs_two_bounds (Data (VNumber 5%float)) (VString "10") "10");
    reflexivity.
Defined.

Lemma in_is_membership_witness :
  exists b,
    compareValues (VString "gift") (VString "IN") (VString "like, gift") = Ok b
    /\ compareValues (VString "gift") (VString "NOT_IN") (VString "like, gift")
       = Ok (negb b)
    /\ (b = true <->
        exists part, In part (split "," (text_of (VString "like, gift")))
                     /\ trim part = text_of (VString "gift")).
Proof.
  apply (in_is_membership (Data (VString "gift")) (VString "like, gift"));
    reflexivity.
Defined.

Lemma missing_field_equals_nothing_witness :
  evaluateSimpleCondition (obj []) exampleContext = Ok true.
Proof.
  apply (missing_field_equals_nothing [] exampleContext "" VUndefined).
  - reflexivity.
  - reflexivity.
  - reflexivity.
  - left. reflexivity.
  - reflexivity.
Defined.

Lemma trigger_matching_witness :
  exists b,
    shouldExecuteTrigger scenarioTrigger (scenarioEvent 500%float) = Ok b
    /\ (b = true <->
        "e1" = "" \/ "e1" = "any"
        \/ prop_of (scenarioEvent 500%float) "type" = VString "e1").
Proof.
  apply (proj2 (trigger_matching scenarioTrigger [("eventType", VString "e1")]
                  (scenarioEvent 500%float) eq_refl) "e1"); reflexivity.
Defined.

Lemma executeAction_trace_witness :
  exists new,
    executeAction exampleClock scenarioGroup exampleContext fresh_state
    = (Ok tt, {| st_logs := st_logs fresh_state ++ new;
                 st_executed := st_executed fresh_state;
                 st_conditions := <["G" := true]> (st_conditions fresh_state) |})
    /\ levels new = [LACTION; LACTION; LACTION; LACTION]
    /\ List.map message new
       = ["Executing 2 action(s) in SEQUENCE mode";
          "Executing action [1]: STATE_SET";
          "Executing action [2]: NOTIFY";
          "Actions completed: G"].
Proof.
  apply (proj1 (executeAction_trace exampleClock scenarioGroup exampleContext
                  fresh_state
                  [("mode", VString "SEQUENCE");
                   ("actions", VArray [obj [("type", VString "STATE_SET")];
                                       obj [("type", VString "NOTIFY")]])]
                  [obj [("type", VString "STATE_SET")];
                   obj [("type", VString "NOTIFY")]]
                  eq_refl eq_refl)).
  - reflexivity.
  - repeat constructor.
Defined.

Lemma validateWorkflow_reads_signature_witness :
  validateWorkflow halfDisabledNodes halfDisabledConnections
  = validateWorkflow
      [anyTrigger; exampleNode "D" TRIGGER (obj []) true; idleAction]
      halfDisabledConnections.
Proof.
  apply (validateWorkflow_reads_signature halfDisabledNodes
           [anyTrigger; exampleNode "D" TRIGGER (obj []) true; idleAction]
           halfDisabledConnections).
  reflexivity.
Defined.




Lemma no_raise_no_timeout_witness :
  exists r st',
    executeWorkflow exampleClock scenarioNodes scenarioConnections
      (scenarioEvent 500%float) = (Ok r, st')
    /\ timeoutLogged (logs r) = false.
Proof.
  destruct (executeWorkflow exampleClock scenarioNodes scenarioConnections
              (scenarioEvent 500%float)) as [[r|e] st'] eqn:Hrun.
  - exists r, st'. split; [reflexivity|].
    apply (no_raise_no_timeout exampleClock scenarioNodes scenarioConnections
             (scenarioEvent 500%float) r st' Hrun).
    + intros m st [<-|[<-|[<-|[]]]] _;
        apply (executeKind_returns_everywhere exampleClock _ _ fresh_state);
        eexists; vm_compute; reflexivity.
    + unfold maxIterations. simpl. lia.
  - vm_compute in Hrun. discriminate.
Defined.

Lemma unknown_logic_is_false_witness :
  evaluateGroupCondition (obj xorGroup) exampleContext = Ok false.
Proof.
  apply (unknown_logic_is_false xorGroup exampleContext
           [obj [("field", VString "coins"); ("operator", VString "GTE");
                 ("value", VNumber 5%float)]]).
  - reflexivity.
  - discriminate.
  - constructor; [eexists; vm_compute; reflexivity | constructor].
  - discriminate.
  - discriminate.
Defined.

Lemma condition_trace_witness :
  exists started judged,
    executeNode exampleClock scenarioFilter (contextOf (scenarioEvent 500%float))
      fresh_state
    = (Ok tt, afterNode fresh_state scenarioFilter true [started; judged])
    /\ level started = INIT
    /\ level judged = LCONDITION
    /\ message judged = "Condition PASSED: F"
    /\ read (details judged) "passed" = VBool true.
Proof.
  apply (condition_trace exampleClock scenarioFilter
           (contextOf (scenarioEvent 500%float)) fresh_state true).
  - reflexivity.
  - vm_compute. reflexivity.
Defined.

Lemma trigger_trace_is_sanitized_witness :
  exists entry,
    executeTrigger exampleClock scenarioTrigger (contextOf secretEvent) fresh_state
    = (Ok tt, {| st_logs := st_logs fresh_state ++ [entry];
                 st_executed := st_executed fresh_state;
                 st_conditions := <["T" := true]> (st_conditions fresh_state) |})
    /\ level entry = LTRIGGER
    /\ read (details entry) "eventData"
       = sanitizeData (ctx_data (contextOf secretEvent))
    /\ forall k, In k sensitiveFields ->
         read (read (details entry) "eventData") k = VUndefined
         \/ read (read (details entry) "eventData") k = VString "***REDACTED***".
Proof.
  apply (trigger_trace_is_sanitized exampleClock scenarioTrigger
           (contextOf secretEvent) fresh_state [("eventType", VString "e1")]);
    reflexivity.
Defined.

Lemma null_condition_raises_witness :
  exists e, evaluateGroupCondition (obj nullGroup) exampleContext = Throw e.
Proof.
  apply (null_condition_raises nullGroup exampleContext
           [obj [("field", VString "coins"); ("operator", VString "GTE");
                 ("value", VNumber 5%float)];
            VNull]).
  - reflexivity.
  - right. left. reflexivity.
Defined.

Lemma non_string_field_raises_witness :
  evaluateSimpleCondition (obj numericField) exampleContext
  = Throw (TypeError "path.split is not a function").
Proof.
  apply (non_string_field_raises numericField exampleContext).
  - reflexivity.
  - discriminate.
Defined.

End FurtherExamples.

(** The password of [secretEvent] does not reach the trace, the coins do. *)
Example sanitizeData_example :
  sanitizeData (prop_of secretEvent "data")
  = obj [("coins", VNumber 500%float);
         ("password", VString "***REDACTED***")].
Proof. reflexivity. Qed.
